(** * AIRobotAssistant: the control core of the animatronic head

    A shallow embedding of the pure control logic of the repository:

    - [servo_config.py]            -> [Module ServoConfig]
    - [audio_mouth_controller.py]  -> [Module AudioMouth]
    - [face_tracker.py]            -> [Module FaceTracker]
    - [eye_controller.py]          -> [Module EyeController]
    - [voice_assistant_server.py]  -> [Module Server] (the jaw channel),
                                      [Module JawFloat] (its dead band)

    The definitions come first; the properties follow, one module
    [...Props] for each of the modules above.

    Numbers.  Python [int]s are [Z]; the [np.int32] coordinates of the
    face detector are [Z] with the wrap-around of every operation written
    out.  Python [float]s are idealised as exact rationals [Q]; the two
    library functions that leave the rationals, [np.sqrt] and [x ** 0.8],
    are section variables, and every property that is used about them is a
    named hypothesis.  Where the source can produce a NaN or an infinity
    (the mean of an empty array, a division by a zero float, the root of a
    negative number) the case is written out.  The dead band of the jaw,
    where the last bit of a float decides, is embedded on binary64 floats.

    Effects.  A servo write [servo_kit.servo[c].angle = a] is an external
    effect that may raise; the bus is a function telling, for a channel and
    an angle, whether the write succeeds or which message the exception
    carries.  Successful writes are appended to a log. *)

From Stdlib Require Import ZArith QArith Qabs Lqa Lia List String Ascii Bool.
From Stdlib Require PrimFloat.
From stdpp Require Import gmap strings.
Import ListNotations.

Local Open Scope Z_scope.
Local Open Scope string_scope.
Local Open Scope list_scope.

(** ** Python's two-argument [max] and [min]

    [max(a, b)] returns [a] unless [b > a]; [min(a, b)] returns [a] unless
    [b < a]. *)

Definition Qltb (a b : Q) : bool :=
  match Qcompare a b with Lt => true | _ => false end.

Definition py_max (a b : Q) : Q := if Qltb a b then b else a.
Definition py_min (a b : Q) : Q := if Qltb b a then b else a.

(** [max(lo, min(hi, x))], the clamp idiom of the source. *)
Definition clamp (lo hi x : Q) : Q := py_max lo (py_min hi x).

(** ** A concrete curve

    The identity is strictly increasing and keeps the unit interval, the two
    properties the theorems below ask of [np.sqrt] and of [x ** 0.8].  It is
    used where the model is run on concrete inputs. *)

Definition id_curve (x : Q) : Q := x.

(** ** servo_config.py *)

Module ServoConfig.

(** [class ServoConfig]: the three dictionaries of a rig, and
    [blink_angles], which only the rigs with eyelids define. *)
Record t := mk {
  name : string;
  servo_count : Z;
  channels : gmap string Z;
  default_angles : gmap string Q;
  angle_ranges : gmap string (Q * Q);
  blink_angles : option (gmap string Q)
}.

(** [self.channels.get(servo_name)] *)
Definition get_channel (c : t) (servo_name : string) : option Z :=
  channels c !! servo_name.

(** [self.default_angles.get(servo_name, 90)] *)
Definition get_default_angle (c : t) (servo_name : string) : Q :=
  default (90 : Q) (default_angles c !! servo_name).

(** [self.angle_ranges.get(servo_name, (0, 180))] *)
Definition get_angle_range (c : t) (servo_name : string) : Q * Q :=
  default ((0 : Q), (180 : Q)) (angle_ranges c !! servo_name).

Definition InMoovHeadConfig : t := {|
  name := "InMoov Head";
  servo_count := 8;
  channels := list_to_map
    [("left_eye_x", 0); ("left_eye_y", 1);
     ("left_upper_lid", 2); ("left_lower_lid", 3);
     ("right_eye_x", 4); ("right_eye_y", 5);
     ("right_upper_lid", 6); ("right_lower_lid", 7)];
  default_angles := list_to_map
    [("left_eye_x", 90%Q); ("left_eye_y", 90%Q);
     ("left_upper_lid", 70%Q); ("left_lower_lid", 100%Q);
     ("right_eye_x", 90%Q); ("right_eye_y", 90%Q);
     ("right_upper_lid", 120%Q); ("right_lower_lid", 90%Q)];
  angle_ranges := list_to_map
    [("left_eye_x", (57%Q, 145%Q)); ("left_eye_y", (52%Q, 112%Q));
     ("left_upper_lid", (70%Q, 180%Q)); ("left_lower_lid", (10%Q, 100%Q));
     ("right_eye_x", (57%Q, 145%Q)); ("right_eye_y", (52%Q, 112%Q));
     ("right_upper_lid", (10%Q, 120%Q)); ("right_lower_lid", (90%Q, 180%Q))];
  blink_angles := Some (list_to_map
    [("left_upper_lid", 180%Q); ("left_lower_lid", 10%Q);
     ("right_upper_lid", 10%Q); ("right_lower_lid", 180%Q)])
|}.

Definition OriginalConfig : t := {|
  name := "Original (Shared Axes)";
  servo_count := 6;
  channels := list_to_map
    [("eyes_x", 0); ("eyes_y", 1);
     ("left_upper_lid", 2); ("right_upper_lid", 3);
     ("left_lower_lid", 4); ("right_lower_lid", 5)];
  default_angles := list_to_map
    [("eyes_x", 100%Q); ("eyes_y", 80%Q);
     ("left_upper_lid", 70%Q); ("right_upper_lid", 120%Q);
     ("left_lower_lid", 100%Q); ("right_lower_lid", 90%Q)];
  angle_ranges := list_to_map
    [("eyes_x", (57%Q, 145%Q)); ("eyes_y", (52%Q, 112%Q));
     ("left_upper_lid", (70%Q, 180%Q)); ("right_upper_lid", (10%Q, 120%Q));
     ("left_lower_lid", (10%Q, 100%Q)); ("right_lower_lid", (90%Q, 180%Q))];
  blink_angles := Some (list_to_map
    [("left_upper_lid", 180%Q); ("right_upper_lid", 10%Q);
     ("left_lower_lid", 10%Q); ("right_lower_lid", 180%Q)])
|}.

Definition SimpleConfig : t := {|
  name := "Simple (X/Y Only)";
  servo_count := 2;
  channels := list_to_map [("eyes_x", 0); ("eyes_y", 1)];
  default_angles := list_to_map [("eyes_x", 90%Q); ("eyes_y", 90%Q)];
  angle_ranges :=
    list_to_map [("eyes_x", (0%Q, 180%Q)); ("eyes_y", (0%Q, 180%Q))];
  blink_angles := None
|}.

End ServoConfig.

(** ** audio_mouth_controller.py *)

Module AudioMouth.

Local Open Scope Q_scope.

Inductive viseme :=
  CLOSED | NARROW | ROUNDED | MEDIUM | MEDIUM_OPEN | WIDE.

(** A [np.float64] that may be NaN: the mean of an empty array. *)
Inductive amp := Fin (q : Q) | NaN.

(** The constructor arguments of [AudioMouthController]. *)
Record config := mkConfig {
  sample_rate : Z;
  smoothing_window : nat;
  min_threshold : Q;
  max_threshold : Q;
  close_speed : Q
}.

(** The defaults of [__init__]. *)
Definition default_config : config :=
  {| sample_rate := 24000; smoothing_window := 3;
     min_threshold := 15 # 1000; max_threshold := 25 # 100;
     close_speed := 7 # 10 |}.

(** The mutable fields of the controller. *)
Record state := mkState {
  amplitude_history : list amp;
  current_opening : Q;
  target_opening : Q;
  is_speaking : bool;
  silence_counter : Z
}.

(** The state [__init__] builds, and [reset()] restores. *)
Definition init : state :=
  {| amplitude_history := []; current_opening := 0; target_opening := 0;
     is_speaking := false; silence_counter := 0 |}.

Definition reset (_ : state) : state := init.

(** [deque(maxlen=n).append(x)]: the oldest entries fall off the left. *)
Definition deque_append {A} (maxlen : nat) (d : list A) (x : A) : list A :=
  let d' := d ++ [x] in skipn (length d' - maxlen) d'.

(** One little-endian [int16] sample. *)
Definition int16_of_bytes (lo hi : Byte.byte) : Z :=
  let u := (Z.of_N (Byte.to_N lo) + 256 * Z.of_N (Byte.to_N hi))%Z in
  if (u <? 32768)%Z then u else (u - 65536)%Z.

(** [np.frombuffer(audio_bytes, dtype=np.int16)]; a buffer of odd length
    raises [ValueError], here [None]. *)
Fixpoint frombuffer_int16 (bs : list Byte.byte) : option (list Z) :=
  match bs with
  | [] => Some []
  | [_] => None
  | lo :: hi :: rest =>
      match frombuffer_int16 rest with
      | Some l => Some (int16_of_bytes lo hi :: l)
      | None => None
      end
  end.

Definition Qsum (l : list Q) : Q := fold_right Qplus 0 l.

(** [np.mean] of finite numbers; NaN on an empty array. *)
Definition np_mean (l : list Q) : amp :=
  match l with
  | [] => NaN
  | _ => Fin (Qsum l / inject_Z (Z.of_nat (length l)))
  end.

(** The finite entries of a window, or [None] when one of them is NaN. *)
Fixpoint all_finite (l : list amp) : option (list Q) :=
  match l with
  | [] => Some []
  | NaN :: _ => None
  | Fin q :: r =>
      match all_finite r with Some r' => Some (q :: r') | None => None end
  end.

(** [np.mean(self.amplitude_history)] *)
Definition mean_history (h : list amp) : amp :=
  match all_finite h with
  | Some l => np_mean l
  | None => NaN
  end.

(** [a < b] with a possibly-NaN left operand: false on NaN. *)
Definition amp_ltb (a : amp) (b : Q) : bool :=
  match a with Fin q => Qltb q b | NaN => false end.

(** Lines 92-100: the asymmetric easing of [current] toward [target]. *)
Definition ease (cfg : config) (target current : Q) : Q :=
  if Qltb target current then
    let step := (current - target) * close_speed cfg in
    py_max target (current - step)
  else
    let step := (target - current) * (4 # 10) in
    py_min target (current + step).

(** [get_viseme_from_opening] *)
Definition get_viseme_from_opening (opening : Q) : viseme :=
  if Qltb opening 5 then CLOSED
  else if Qltb opening 20 then NARROW
  else if Qltb opening 35 then ROUNDED
  else if Qltb opening 50 then MEDIUM
  else if Qltb opening 70 then MEDIUM_OPEN
  else WIDE.

Section Controller.

(** [np.sqrt] on a float and [x ** 0.8]. *)
Variable np_sqrt : Q -> Q.
Variable pow08 : Q -> Q.

Variable cfg : config.

(** [np.sqrt(np.mean(audio_data.astype(float)**2)) / 32768.0] *)
Definition normalized_amplitude (audio_data : list Z) : amp :=
  match np_mean (map (fun s => inject_Z s * inject_Z s) audio_data) with
  | Fin m => Fin (np_sqrt m / 32768)
  | NaN => NaN
  end.

(** The window after the append, and its mean. *)
Definition push_history (st : state) (audio_data : list Z) : list amp :=
  deque_append (smoothing_window cfg) (amplitude_history st)
               (normalized_amplitude audio_data).

Definition smoothed_amplitude (st : state) (audio_data : list Z) : amp :=
  mean_history (push_history st audio_data).

(** Lines 82-83.  [smoothed] is a [np.float64], so a zero denominator is
    no exception: the quotient is [-inf], NaN or [inf] with the sign of the
    numerator, and a NaN numerator gives NaN.  [min(1, _)] keeps [1] on
    [inf] and on NaN, since neither [inf < 1] nor [nan < 1] holds, and
    [max(0, -inf)] is [0]. *)
Definition normalise (smoothed : amp) : Q :=
  match smoothed with
  | NaN => 1
  | Fin s =>
      let d := max_threshold cfg - min_threshold cfg in
      if Qeq_bool d 0 then
        if Qltb (s - min_threshold cfg) 0 then 0 else 1
      else py_max 0 (py_min 1 ((s - min_threshold cfg) / d))
  end.

(** [process_audio_chunk]: the new state and the returned opening;
    [None] is the [ValueError] of [np.frombuffer], raised before any
    field is touched. *)
Definition process_audio_chunk (st : state) (audio_bytes : list Byte.byte)
  : state * option Q :=
  match frombuffer_int16 audio_bytes with
  | None => (st, None)
  | Some audio_data =>
      let history := push_history st audio_data in
      let smoothed := mean_history history in
      let '(target, silence, speaking) :=
        if amp_ltb smoothed (min_threshold cfg) then
          (0, (silence_counter st + 1)%Z, false)
        else
          let normalized := normalise smoothed in
          let target := pow08 normalized * 100 in
          (target, 0%Z, Qltb 3 target) in
      let eased := ease cfg target (current_opening st) in
      let current := if (2 <? silence)%Z then 0 else eased in
      ({| amplitude_history := history;
          current_opening := current;
          target_opening := target;
          is_speaking := speaking;
          silence_counter := silence |}, Some current)
  end.

(** Feeding a sequence of chunks: the state and the returned value
    after every call, in call order. *)
Fixpoint run (st : state) (chunks : list (list Byte.byte))
  : list (state * option Q) :=
  match chunks with
  | [] => []
  | c :: rest =>
      let r := process_audio_chunk st c in
      r :: run (fst r) rest
  end.

(** A chunk is silent in a state when it decodes and the smoothed
    amplitude it produces is below [min_threshold]. *)
Definition below_threshold (st : state) (audio_bytes : list Byte.byte)
  : bool :=
  match frombuffer_int16 audio_bytes with
  | Some audio_data =>
      amp_ltb (smoothed_amplitude st audio_data) (min_threshold cfg)
  | None => false
  end.

End Controller.

(** The range of an opening percentage. *)
Definition in_range (q : Q) : Prop := 0 <= q <= 100.

(** A half-open mouth after loud speech, and a controller with a window
    of one. *)
Definition open_state : state :=
  {| amplitude_history := [Fin 1]; current_opening := 64;
     target_opening := 100; is_speaking := true; silence_counter := 0 |}.

Definition window1 : config :=
  {| sample_rate := 24000; smoothing_window := 1;
     min_threshold := 15 # 1000; max_threshold := 25 # 100;
     close_speed := 7 # 10 |}.

Definition silent_chunk : list Byte.byte := repeat Byte.x00 8.
Definition loud_chunk : list Byte.byte :=
  [Byte.xff; Byte.x7f; Byte.x00; Byte.x80].

End AudioMouth.


(** ** face_tracker.py *)

Module FaceTracker.

(** A detection [(x, y, w, h)], a row of the array [detectMultiScale]
    returns: four [np.int32] values. *)
Definition face : Type := Z * Z * Z * Z.

(** The value of an [np.int32] operation whose exact result is [z]: the
    result wraps around in 32 bits, two's complement. *)
Definition wrap32 (z : Z) : Z :=
  (z + 2147483648) mod 4294967296 - 2147483648.

(** [get_face_center]: [(x + w // 2, y + h // 2)] *)
Definition get_face_center (f : face) : Z * Z :=
  let '(x, y, w, h) := f in (wrap32 (x + w / 2), wrap32 (y + h / 2)).

(** [(frame_width // 2, frame_height // 2)], on the integers of
    [frame.shape]. *)
Definition frame_center (frame_width frame_height : Z) : Z * Z :=
  (frame_width / 2, frame_height / 2).

(** The argument of [np.sqrt] in the loop,
    [(face_center_x - frame_center_x) ** 2
     + (face_center_y - frame_center_y) ** 2],
    every step of it an [np.int32] operation. *)
Definition dist2 (p c : Z * Z) : Z :=
  wrap32 (wrap32 (wrap32 (fst p - fst c) ^ 2)
          + wrap32 (wrap32 (snd p - snd c) ^ 2)).

(** The floats of the loop: a number, [float('inf')] or the NaN. *)
Inductive float_value :=
| Number (d : Q)
| Infinity
| NotANumber.

(** [a < b] on these floats; a NaN is below nothing. *)
Definition float_lt (a b : float_value) : bool :=
  match a, b with
  | Number a', Number b' => Qltb a' b'
  | Number _, Infinity => true
  | _, _ => false
  end.

Section Closest.

Variable np_sqrt : Q -> Q.
Variables frame_width frame_height : Z.

(** [np.sqrt] of the sum: the NaN when the sum has wrapped below zero. *)
Definition distance (f : face) : float_value :=
  let s := dist2 (get_face_center f)
                 (frame_center frame_width frame_height) in
  if (s <? 0)%Z then NotANumber else Number (np_sqrt (inject_Z s)).

(** The [for] loop, with [closest_face] and [min_distance] as
    accumulators. *)
Fixpoint closest_loop (faces : list face) (closest_face : option face)
         (min_distance : float_value) : option face :=
  match faces with
  | [] => closest_face
  | f :: rest =>
      if float_lt (distance f) min_distance
      then closest_loop rest (Some f) (distance f)
      else closest_loop rest closest_face min_distance
  end.

(** [get_closest_face] *)
Definition get_closest_face (faces : list face) : option face :=
  match faces with
  | [] => None
  | _ => closest_loop faces None Infinity
  end.

End Closest.

(** The claim's measure, written out on the integers: the squared
    Euclidean distance, in pixels, from the centre of a rectangle to the
    centre of the frame, both centres taken at whole pixels. *)
Definition centre_offset2 (frame_width frame_height : Z) (f : face) : Z :=
  let '(x, y, w, h) := f in
  (x + w / 2 - frame_width / 2) ^ 2 + (y + h / 2 - frame_height / 2) ^ 2.

(** [f], listed at position [i], is nearest to the centre, and strictly
    nearer than everything listed before it. *)
Definition first_nearest (frame_width frame_height : Z)
           (faces : list face) (i : nat) (f : face) : Prop :=
  faces !! i = Some f /\
  (forall j g, faces !! j = Some g ->
     centre_offset2 frame_width frame_height f
     <= centre_offset2 frame_width frame_height g) /\
  (forall j g, (j < i)%nat -> faces !! j = Some g ->
     centre_offset2 frame_width frame_height f
     < centre_offset2 frame_width frame_height g).

(** The claim as it is stated: a non-empty list yields its first nearest
    face. *)
Definition selects_nearest (np_sqrt : Q -> Q) (frame_width frame_height : Z)
           (faces : list face) : Prop :=
  faces <> [] ->
  exists i f,
    get_closest_face np_sqrt frame_width frame_height faces = Some f /\
    first_nearest frame_width frame_height faces i f.

(** The rectangle lies inside the frame. *)
Definition in_frame (frame_width frame_height : Z) (f : face) : Prop :=
  let '(x, y, w, h) := f in
  0 <= x /\ 0 <= y /\ 0 <= w /\ 0 <= h /\
  x + w <= frame_width /\ y + h <= frame_height.

(** The largest frame side for which the squared distances of rectangles
    inside the frame stay below 2^31. *)
Definition max_frame_side : Z := 65534.

(** Three detections in a 640x480 frame, whose centre is (320, 240):
    one 50 px to the right of it, then one 10 px to the left and one
    10 px to the right. *)
Definition face_right_50 : face := (360, 230, 20, 20).
Definition face_left_10 : face := (300, 230, 20, 20).
Definition face_right_10 : face := (320, 230, 20, 20).
Definition three_faces : list face :=
  [face_right_50; face_left_10; face_right_10].

(** Two detections in a frame 200000 pixels wide, whose centre is
    (100000, 240): one 50000 px to the right of it, whose squared
    distance wraps below zero, and one 65536 px to the right, whose
    squared distance wraps to 0; and one 10 px to the right. *)
Definition face_right_50000 : face := (149980, 220, 40, 40).
Definition face_right_65536 : face := (165516, 220, 40, 40).
Definition face_right_10_wide : face := (99990, 220, 40, 40).

End FaceTracker.

(** ** The servo bus *)

(** [servo_kit.servo[channel].angle = angle]: [None] when the write
    succeeds, [Some msg] when it raises an exception whose text is [msg]. *)
Definition bus : Type := Z -> Q -> option string.

(** A bus on which every write succeeds. *)
Definition bus_ok : bus := fun _ _ => None.

(** ** eye_controller.py *)

Module EyeController.

Import ServoConfig.
Local Open Scope Q_scope.

(** [map_value]; a zero input span is the [ZeroDivisionError] of the
    division, here [None]. *)
Definition map_value (value in_min in_max out_min out_max : Q) : option Q :=
  if Qeq_bool (in_max - in_min) 0 then None
  else Some ((value - in_min) * (out_max - out_min) / (in_max - in_min)
             + out_min).

(** The fields of [EyeController] that tracking reads and writes.
    [servo_writes] logs the successful bus writes and [position_updates]
    the payloads handed to [position_callback]; the blink timers play no
    part in tracking and are left out. *)
Record t := mk {
  has_servo_kit : bool;
  config : ServoConfig.t;
  has_position_callback : bool;
  current_angles : gmap string Q;
  right_eye_x_offset : Q;
  right_eye_y_offset : Q;
  servo_writes : list (Z * Q);
  position_updates : list (list (string * Q))
}.

(** [EyeController(servo_kit, servo_config, position_callback)] with a
    servo kit and a callback. *)
Definition new (servo_config : ServoConfig.t) : t :=
  {| has_servo_kit := true; config := servo_config;
     has_position_callback := true; current_angles := ∅;
     right_eye_x_offset := 0; right_eye_y_offset := 10;
     servo_writes := []; position_updates := [] |}.

(** [servo_kit.servo[channel].angle = angle; current_angles[name] = angle] *)
Definition record_write (e : t) (servo_name : string) (channel : Z)
           (angle : Q) : t :=
  {| has_servo_kit := has_servo_kit e; config := config e;
     has_position_callback := has_position_callback e;
     current_angles := <[servo_name := angle]> (current_angles e);
     right_eye_x_offset := right_eye_x_offset e;
     right_eye_y_offset := right_eye_y_offset e;
     servo_writes := servo_writes e ++ [(channel, angle)];
     position_updates := position_updates e |}.

(** [current_angles[name] = angle] alone, for a name without channel. *)
Definition record_angle (e : t) (servo_name : string) (angle : Q) : t :=
  {| has_servo_kit := has_servo_kit e; config := config e;
     has_position_callback := has_position_callback e;
     current_angles := <[servo_name := angle]> (current_angles e);
     right_eye_x_offset := right_eye_x_offset e;
     right_eye_y_offset := right_eye_y_offset e;
     servo_writes := servo_writes e;
     position_updates := position_updates e |}.

(** [self.position_callback(angles_to_set)] *)
Definition record_update (e : t) (angles : list (string * Q)) : t :=
  {| has_servo_kit := has_servo_kit e; config := config e;
     has_position_callback := has_position_callback e;
     current_angles := current_angles e;
     right_eye_x_offset := right_eye_x_offset e;
     right_eye_y_offset := right_eye_y_offset e;
     servo_writes := servo_writes e;
     position_updates := position_updates e ++ [angles] |}.

(** One [if name in self.config.channels:] block: the entry it adds to
    [angles_to_set], none when the rig lacks the axis, [None] when the
    mapping raises. *)
Definition axis_entry (cfg : ServoConfig.t) (servo_name : string)
           (angle : Q * Q -> option Q) : option (list (string * Q)) :=
  match channels cfg !! servo_name with
  | Some _ =>
      match angle (get_angle_range cfg servo_name) with
      | Some a => Some [(servo_name, a)]
      | None => None
      end
  | None => Some []
  end.

(** Lines 134-175: [angles_to_set], in insertion order. *)
Definition compute_angles (e : t) (face_x face_y frame_width frame_height : Z)
  : option (list (string * Q)) :=
  let cfg := config e in
  let fx := inject_Z face_x in
  let fy := inject_Z face_y in
  let w := inject_Z frame_width in
  let h := inject_Z frame_height in
  l1 ← axis_entry cfg "left_eye_x"
         (fun '(x_min, x_max) => map_value fx 0 w x_max x_min);
  l2 ← axis_entry cfg "left_eye_y"
         (fun '(y_min, y_max) => map_value fy 0 h y_min y_max);
  l3 ← axis_entry cfg "right_eye_x"
         (fun '(x_min, x_max) =>
            a ← map_value fx 0 w x_max x_min;
            Some (clamp x_min x_max (a + right_eye_x_offset e)));
  l4 ← axis_entry cfg "right_eye_y"
         (fun '(y_min, y_max) =>
            a ← map_value fy 0 h y_max y_min;
            Some (clamp y_min y_max (a + right_eye_y_offset e)));
  l5 ← axis_entry cfg "eye_x"
         (fun '(x_min, x_max) => map_value fx 0 w x_max x_min);
  l6 ← axis_entry cfg "eye_y"
         (fun '(y_min, y_max) => map_value fy 0 h y_max y_min);
  Some (l1 ++ l2 ++ l3 ++ l4 ++ l5 ++ l6).

(** Lines 178-184: the write loop.  The flag tells whether the loop ran
    to its end; a write that raises leaves the loop at once, with the
    earlier writes done. *)
Fixpoint write_batch (hw : bus) (e : t) (batch : list (string * Q))
  : t * bool :=
  match batch with
  | [] => (e, true)
  | (servo_name, angle) :: rest =>
      match get_channel (config e) servo_name with
      | Some channel =>
          let '(min_angle, max_angle) :=
            get_angle_range (config e) servo_name in
          let angle := clamp min_angle max_angle angle in
          match hw channel angle with
          | None => write_batch hw (record_write e servo_name channel angle) rest
          | Some _ => (e, false)
          end
      | None => write_batch hw (record_angle e servo_name angle) rest
      end
  end.

(** [track_position]: every exception ends in the [except] clause, which
    only prints. *)
Definition track_position (hw : bus) (e : t)
           (face_x face_y frame_width frame_height : Z) : t :=
  if negb (has_servo_kit e) then e
  else
    match compute_angles e face_x face_y frame_width frame_height with
    | None => e
    | Some angles_to_set =>
        match write_batch hw e angles_to_set with
        | (e', true) =>
            match has_position_callback e', angles_to_set with
            | true, _ :: _ => record_update e' angles_to_set
            | _, _ => e'
            end
        | (e', false) => e'
        end
    end.

(** A bus on which the writes to one channel raise. *)
Definition bus_failing_on (channel : Z) : bus :=
  fun c _ => if (c =? channel)%Z then Some "Remote I/O error" else None.

(** The channels a tick wrote to. *)
Definition channels_written (before after : t) : list Z :=
  map fst (skipn (length (servo_writes before)) (servo_writes after)).

(** The channels of the axes in a batch. *)
Definition batch_channels (cfg : ServoConfig.t) (batch : list (string * Q))
  : list Z :=
  omap (fun na => get_channel cfg (fst na)) batch.

(** The look-up of an axis in a batch. *)
Fixpoint angle_of (batch : list (string * Q)) (servo_name : string)
  : option Q :=
  match batch with
  | [] => None
  | (n, a) :: rest =>
      if String.eqb n servo_name then Some a else angle_of rest servo_name
  end.

(** What the write loop is about to do with a batch: the axis, its
    channel if it has one, and the angle after the clamp to its range. *)
Definition planned (cfg : ServoConfig.t) (batch : list (string * Q))
  : list (string * option Z * Q) :=
  map (fun na : string * Q =>
         match get_channel cfg (fst na) with
         | Some channel =>
             let '(min_angle, max_angle) := get_angle_range cfg (fst na) in
             (fst na, Some channel, clamp min_angle max_angle (snd na))
         | None => (fst na, None, snd na)
         end) batch.

(** The planned writes up to the first one the bus refuses. *)
Fixpoint accepted (hw : bus) (plan : list (string * option Z * Q))
  : list (string * option Z * Q) :=
  match plan with
  | [] => []
  | (n, Some c, a) :: rest =>
      match hw c a with
      | None => (n, Some c, a) :: accepted hw rest
      | Some _ => []
      end
  | (n, None, a) :: rest => (n, None, a) :: accepted hw rest
  end.

Definition hardware_writes (done : list (string * option Z * Q))
  : list (Z * Q) :=
  omap (fun w : string * option Z * Q =>
          match w with (_, Some c, a) => Some (c, a) | _ => None end) done.

Definition apply_angles (angles : gmap string Q)
           (done : list (string * option Z * Q)) : gmap string Q :=
  fold_left (fun m (w : string * option Z * Q) =>
               <[fst (fst w) := snd w]> m) done angles.

(** The tick is all-or-none: it wrote to the channel of every axis of the
    batch, or to none. *)
Definition all_or_none (hw : bus) (e : t)
           (face_x face_y frame_width frame_height : Z) : Prop :=
  let e' := track_position hw e face_x face_y frame_width frame_height in
  channels_written e e' = [] \/
  exists batch,
    compute_angles e face_x face_y frame_width frame_height = Some batch /\
    channels_written e e' = batch_channels (config e) batch.

(** The axis names [track_position] looks for in the rig. *)
Definition tracked_axes : list string :=
  ["left_eye_x"; "left_eye_y"; "right_eye_x"; "right_eye_y";
   "eye_x"; "eye_y"].

(** The gaze mapping in closed form, before the trim.  X axes run from
    the upper bound at the left edge of the frame to the lower bound at
    the right edge; [left_eye_y] runs from the lower bound at the top to
    the upper bound at the bottom, [right_eye_y] and [eye_y] the other way
    round. *)
Definition linear_gaze (e : t) (servo_name : string) (fx fy w h : Q) : Q :=
  let '(lo, hi) := get_angle_range (config e) servo_name in
  if String.eqb servo_name "left_eye_y" then lo + fy * (hi - lo) / h
  else if String.eqb servo_name "right_eye_y" then hi + fy * (lo - hi) / h
  else if String.eqb servo_name "eye_y" then hi + fy * (lo - hi) / h
  else hi + fx * (lo - hi) / w.

(** The right-eye axes add their trim offset and are clamped to the
    range; the other axes are left as they are. *)
Definition with_trim (e : t) (servo_name : string) (angle : Q) : Q :=
  let '(lo, hi) := get_angle_range (config e) servo_name in
  if String.eqb servo_name "right_eye_x" then
    clamp lo hi (angle + right_eye_x_offset e)
  else if String.eqb servo_name "right_eye_y" then
    clamp lo hi (angle + right_eye_y_offset e)
  else angle.

Definition gaze_formula (e : t) (servo_name : string) (fx fy w h : Q) : Q :=
  with_trim e servo_name (linear_gaze e servo_name fx fy w h).

(** The bound of its range an axis takes at the left or top edge of the
    frame, and at the right or bottom edge. *)
Definition near_bound (e : t) (servo_name : string) : Q :=
  let '(lo, hi) := get_angle_range (config e) servo_name in
  if String.eqb servo_name "left_eye_y" then lo else hi.

Definition far_bound (e : t) (servo_name : string) : Q :=
  let '(lo, hi) := get_angle_range (config e) servo_name in
  if String.eqb servo_name "left_eye_y" then hi else lo.

(** The midpoint of the configured range of an axis. *)
Definition midpoint (e : t) (servo_name : string) : Q :=
  let '(lo, hi) := get_angle_range (config e) servo_name in (lo + hi) / 2.

(** The face coordinate an axis follows, and the frame dimension that
    goes with it. *)
Definition is_y_axis (servo_name : string) : bool :=
  String.eqb servo_name "left_eye_y" || String.eqb servo_name "right_eye_y"
  || String.eqb servo_name "eye_y".

Definition coordinate (servo_name : string) (face_x face_y : Z) : Z :=
  if is_y_axis servo_name then face_y else face_x.

Definition extent (servo_name : string) (frame_width frame_height : Z) : Z :=
  if is_y_axis servo_name then frame_height else frame_width.

(** The batch of the InMoov rig for a face at the centre of a 640x480
    frame, as [compute_angles] builds it. *)
Definition centre_batch_inmoov : list (string * Q) :=
  [("left_eye_x", 64640 # 640); ("left_eye_y", 39360 # 480);
   ("right_eye_x", 64640 # 640); ("right_eye_y", 44160 # 480)].

End EyeController.

(** ** voice_assistant_server.py: the jaw channel *)

Module Server.

Local Open Scope Q_scope.

Definition JAW_CHANNEL : Z := 8.

(** [DEFAULT_SETTINGS], the numeric entries the jaw reads. *)
Definition DEFAULT_SETTINGS : gmap string Q :=
  list_to_map
    [("jaw_stop_angle", 0); ("jaw_open_angle", 100); ("jaw_close_angle", 0);
     ("jaw_pulse_duration", 8 # 100); ("jaw_servo_min_change", 2)].

(** The module globals the jaw functions share.  [servo_writes] logs the
    bus writes that succeeded. *)
Record state := mk {
  SERVO_AVAILABLE : bool;
  settings : gmap string Q;
  jaw_position : Q;
  servo_writes : list (Z * Q)
}.

(** The globals after start-up with a servo controller on the bus. *)
Definition startup : state :=
  {| SERVO_AVAILABLE := true; settings := DEFAULT_SETTINGS;
     jaw_position := 0; servo_writes := [] |}.

(** [clamp_angle(angle)], with its default bounds 0 and 180. *)
Definition clamp_angle (angle : Q) : Q := py_max 0 (py_min 180 angle).

(** [str.lower()] on the ASCII letters. *)
Definition lower_ascii (c : ascii) : ascii :=
  let n := nat_of_ascii c in
  if ((65 <=? n) && (n <=? 90))%nat then ascii_of_nat (n + 32) else c.

Fixpoint lower (s : string) : string :=
  match s with
  | EmptyString => EmptyString
  | String c r => String (lower_ascii c) (lower r)
  end.

(** [needle in haystack] *)
Definition contains (needle haystack : string) : bool :=
  match String.index 0 needle haystack with Some _ => true | None => false end.

(** ["No such device" in str(e) or "disconnected" in str(e).lower()] *)
Definition is_disconnection (msg : string) : bool :=
  contains "No such device" msg || contains "disconnected" (lower msg).

(** The [except Exception as e:] clause: a disconnection message clears
    [SERVO_AVAILABLE], any other message is only printed. *)
Definition handle_error (st : state) (msg : string) : state :=
  if is_disconnection msg then
    {| SERVO_AVAILABLE := false; settings := settings st;
       jaw_position := jaw_position st; servo_writes := servo_writes st |}
  else st.

(** [close_angle + (open_angle - close_angle) * (percent / 100.0)] *)
Definition jaw_angle (close_angle open_angle percent : Q) : Q :=
  close_angle + (open_angle - close_angle) * (percent / 100).

(** [control_jaw_servo_direct].  A missing angle setting is a [KeyError],
    whose text is the quoted key.  The angles are exact rationals here;
    which side of the dead band a request at its very edge falls on is
    settled on floats, in [JawFloat]. *)
Definition control_jaw_servo_direct (hw : bus) (st : state)
           (opening_percent : Q) : state :=
  if negb (SERVO_AVAILABLE st) then st
  else
    match settings st !! "jaw_close_angle" with
    | None => handle_error st "'jaw_close_angle'"
    | Some close_angle =>
        match settings st !! "jaw_open_angle" with
        | None => handle_error st "'jaw_open_angle'"
        | Some open_angle =>
            let target_angle :=
              jaw_angle close_angle open_angle opening_percent in
            let current_servo_angle :=
              jaw_angle close_angle open_angle (jaw_position st) in
            let angle_change := Qabs (target_angle - current_servo_angle) in
            let min_change :=
              default (2 : Q) (settings st !! "jaw_servo_min_change") in
            if Qltb min_change angle_change then
              match hw JAW_CHANNEL (clamp_angle target_angle) with
              | None =>
                  {| SERVO_AVAILABLE := SERVO_AVAILABLE st;
                     settings := settings st;
                     jaw_position := opening_percent;
                     servo_writes :=
                       servo_writes st
                       ++ [(JAW_CHANNEL, clamp_angle target_angle)] |}
              | Some msg => handle_error st msg
              end
            else st
        end
    end.

(** A sequence of jaw requests, each with the bus as it is at that
    moment. *)
Fixpoint run (st : state) (requests : list (bus * Q)) : state :=
  match requests with
  | [] => st
  | (hw, opening_percent) :: rest =>
      run (control_jaw_servo_direct hw st opening_percent) rest
  end.

(** The angle change a request asks for, and the dead band, as the
    function computes them; [None] without the angle settings. *)
Definition angle_change (st : state) (opening_percent : Q) : option Q :=
  close_angle ← settings st !! "jaw_close_angle";
  open_angle ← settings st !! "jaw_open_angle";
  Some (Qabs (jaw_angle close_angle open_angle opening_percent
              - jaw_angle close_angle open_angle (jaw_position st))).

Definition min_change (st : state) : Q :=
  default (2 : Q) (settings st !! "jaw_servo_min_change").

(** The servo angle of an opening percentage under the settings. *)
Definition target_angle (st : state) (opening_percent : Q) : option Q :=
  close_angle ← settings st !! "jaw_close_angle";
  open_angle ← settings st !! "jaw_open_angle";
  Some (jaw_angle close_angle open_angle opening_percent).

(** A bus whose device has gone. *)
Definition bus_unplugged : bus :=
  fun _ _ => Some "[Errno 19] No such device".

(** A bus that fails for another reason. *)
Definition bus_glitch : bus := fun _ _ => Some "Remote I/O error".

(** A request is a table-only no-op: nothing reaches the bus, and the
    tracked jaw position takes the requested value. *)
Definition table_only_noop (hw : bus) (st : state) (opening_percent : Q)
  : Prop :=
  let st' := control_jaw_servo_direct hw st opening_percent in
  servo_writes st' = servo_writes st /\ jaw_position st' == opening_percent.

End Server.

(** ** voice_assistant_server.py: the dead band of the jaw, in floats

    Whether a request falls inside the dead band is decided by a
    comparison of two computed angles, and at the edge of the band the
    rounding of the float operations decides it.  Here the jaw request is
    therefore embedded a second time, on binary64 floats with the
    operations of the source in their order.  The numbers of the settings
    are floats; the integers of [DEFAULT_SETTINGS], and every integer
    below 2^53, convert to them exactly. *)

Module JawFloat.

Import PrimFloat.
Local Open Scope float_scope.

Definition JAW_CHANNEL : Z := Server.JAW_CHANNEL.

(** The servo bus: for a channel and an angle, [None] when the write
    succeeds, or the text of the exception it raises. *)
Definition bus : Type := Z -> float -> option string.

Definition bus_ok : bus := fun _ _ => None.

(** A bus that fails for a reason other than a disconnection. *)
Definition bus_glitch : bus := fun _ _ => Some "Remote I/O error".

(** [DEFAULT_SETTINGS], the numeric entries the jaw reads. *)
Definition DEFAULT_SETTINGS : gmap string float :=
  list_to_map
    [("jaw_stop_angle", 0); ("jaw_open_angle", 100); ("jaw_close_angle", 0);
     ("jaw_pulse_duration", 0x1.47ae147ae147bp-4);
     ("jaw_servo_min_change", 2)].

(** The module globals the jaw functions share.  [servo_writes] logs the
    bus writes that succeeded. *)
Record state := mk {
  SERVO_AVAILABLE : bool;
  settings : gmap string float;
  jaw_position : float;
  servo_writes : list (Z * float)
}.

(** The globals after start-up with a servo controller on the bus. *)
Definition startup : state :=
  {| SERVO_AVAILABLE := true; settings := DEFAULT_SETTINGS;
     jaw_position := 0; servo_writes := [] |}.

(** Python's [max(a, b)] and [min(a, b)]: [a] unless [b > a], [a] unless
    [b < a]. *)
Definition float_max (a b : float) : float := if a <? b then b else a.
Definition float_min (a b : float) : float := if b <? a then b else a.

(** [clamp_angle(angle)], with its default bounds 0 and 180. *)
Definition clamp_angle (angle : float) : float :=
  float_max 0 (float_min 180 angle).

(** The [except Exception as e:] clause: a disconnection message clears
    [SERVO_AVAILABLE], any other message is only printed. *)
Definition handle_error (st : state) (msg : string) : state :=
  if Server.is_disconnection msg then
    {| SERVO_AVAILABLE := false; settings := settings st;
       jaw_position := jaw_position st; servo_writes := servo_writes st |}
  else st.

(** [close_angle + (open_angle - close_angle) * (percent / 100.0)] *)
Definition jaw_angle (close_angle open_angle percent : float) : float :=
  close_angle + (open_angle - close_angle) * (percent / 100).

(** [control_jaw_servo_direct].  A missing angle setting is a [KeyError],
    whose text is the quoted key. *)
Definition control_jaw_servo_direct (hw : bus) (st : state)
           (opening_percent : float) : state :=
  if negb (SERVO_AVAILABLE st) then st
  else
    match settings st !! "jaw_close_angle" with
    | None => handle_error st "'jaw_close_angle'"
    | Some close_angle =>
        match settings st !! "jaw_open_angle" with
        | None => handle_error st "'jaw_open_angle'"
        | Some open_angle =>
            let target_angle :=
              jaw_angle close_angle open_angle opening_percent in
            let current_servo_angle :=
              jaw_angle close_angle open_angle (jaw_position st) in
            let angle_change := abs (target_angle - current_servo_angle) in
            let min_change :=
              default (2 : float) (settings st !! "jaw_servo_min_change") in
            if min_change <? angle_change then
              match hw JAW_CHANNEL (clamp_angle target_angle) with
              | None =>
                  {| SERVO_AVAILABLE := SERVO_AVAILABLE st;
                     settings := settings st;
                     jaw_position := opening_percent;
                     servo_writes :=
                       servo_writes st
                       ++ [(JAW_CHANNEL, clamp_angle target_angle)] |}
              | Some msg => handle_error st msg
              end
            else st
        end
    end.

(** A sequence of jaw requests, each with the bus as it is at that
    moment. *)
Fixpoint run (st : state) (requests : list (bus * float)) : state :=
  match requests with
  | [] => st
  | (hw, opening_percent) :: rest =>
      run (control_jaw_servo_direct hw st opening_percent) rest
  end.

(** The servo angle of an opening percentage under the settings; [None]
    without the angle settings. *)
Definition target_angle (st : state) (opening_percent : float)
  : option float :=
  close_angle ← settings st !! "jaw_close_angle";
  open_angle ← settings st !! "jaw_open_angle";
  Some (jaw_angle close_angle open_angle opening_percent).

(** The angle change a request asks for, measured from the tracked
    position, and the dead band, as the function computes them. *)
Definition angle_change (st : state) (opening_percent : float)
  : option float :=
  close_angle ← settings st !! "jaw_close_angle";
  open_angle ← settings st !! "jaw_open_angle";
  Some (abs (jaw_angle close_angle open_angle opening_percent
             - jaw_angle close_angle open_angle (jaw_position st))).

Definition min_change (st : state) : float :=
  default (2 : float) (settings st !! "jaw_servo_min_change").

(** The claim as it is stated, for two requests: when each of them asks
    for an angle within [min_change] of the last accepted write, they make
    exactly one write, the first. *)
Definition two_requests_one_write (hw : bus) (st : state)
           (p1 p2 : float) : Prop :=
  forall a1 d1 d2,
    target_angle st p1 = Some a1 ->
    angle_change st p1 = Some d1 -> (d1 <=? min_change st) = true ->
    angle_change st p2 = Some d2 -> (d2 <=? min_change st) = true ->
    servo_writes (run st [(hw, p1); (hw, p2)])
    = servo_writes st ++ [(JAW_CHANNEL, clamp_angle a1)].

End JawFloat.

(** ** audio_mouth_controller.py: runs of the controller *)

Module AudioMouthRuns.

Import AudioMouth.
Local Open Scope Q_scope.

(** A buffer of [n] samples that are all zero. *)
Definition zero_chunk (n : nat) : list Byte.byte := repeat Byte.x00 (2 * n).

Section Runs.

Variable np_sqrt : Q -> Q.
Variable pow08 : Q -> Q.
Variable cfg : config.

(** Every chunk of the sequence is below the threshold in the state the
    controller has reached when the chunk arrives. *)
Fixpoint all_below (st : state) (chunks : list (list Byte.byte)) : bool :=
  match chunks with
  | [] => true
  | c :: rest =>
      below_threshold np_sqrt cfg st c
      && all_below (fst (process_audio_chunk np_sqrt pow08 cfg st c)) rest
  end.

End Runs.

(** A window whose entries are all finite and zero. *)
Definition quiet (h : list amp) : Prop :=
  Forall (fun a => exists q, a = Fin q /\ q == 0) h.

(** [q] to the power [n]. *)
Fixpoint qpow (q : Q) (n : nat) : Q :=
  match n with
  | O => 1
  | S n' => q * qpow q n'
  end.

(** [n] easing steps toward one and the same target. *)
Fixpoint ease_n (cfg : config) (target : Q) (n : nat) (current : Q) : Q :=
  match n with
  | O => current
  | S n' => ease cfg target (ease_n cfg target n' current)
  end.

End AudioMouthRuns.

(** ** audio_mouth_controller.py: [EnhancedAudioMouthController] *)

Module AudioMouthEnhanced.

Import AudioMouth.
Local Open Scope Q_scope.

Section Enhanced.

Variable np_sqrt : Q -> Q.
Variable pow08 : Q -> Q.

(** The spectral part of [process_audio_chunk_enhanced]: for a sample rate
    and a non-empty chunk, the [_get_band_energy] of the ['mid'] band and
    of the ['high'] band of its [np.fft.rfft]. *)
Variable band_energies : Z -> list Z -> Q * Q.

Variable cfg : config.

(** Lines 185-189: the opening after the frequency adjustment. *)
Definition adjust_opening (opening mid_energy high_energy : Q) : Q :=
  if Qltb (mid_energy * (15 # 10)) high_energy then opening * (7 # 10)
  else if Qltb (high_energy * (15 # 10)) mid_energy then
    py_min 100 (opening * (12 # 10))
  else opening.

(** [process_audio_chunk_enhanced]: the state is the one the basic
    processing leaves; the result is the adjusted opening and its viseme.
    [None] is an exception: the [ValueError] of the basic processing, or,
    for a chunk with at least one sample, the [ZeroDivisionError] of
    [1/self.sample_rate] when the sample rate is 0, raised after the basic
    processing has updated the state. *)
Definition process_audio_chunk_enhanced (st : state)
           (audio_bytes : list Byte.byte) : state * option (Q * viseme) :=
  match process_audio_chunk np_sqrt pow08 cfg st audio_bytes with
  | (st', Some opening) =>
      let audio_data := default [] (frombuffer_int16 audio_bytes) in
      match audio_data with
      | [] => (st', Some (opening, get_viseme_from_opening opening))
      | _ :: _ =>
          if (sample_rate cfg =? 0)%Z then (st', None)
          else
            let '(mid_energy, high_energy) :=
              band_energies (sample_rate cfg) audio_data in
            let opening := adjust_opening opening mid_energy high_energy in
            (st', Some (opening, get_viseme_from_opening opening))
      end
  | (st', None) => (st', None)
  end.

(** A chunk of two full-scale samples under a sample rate of 0. *)
Definition no_rate : config :=
  {| sample_rate := 0; smoothing_window := smoothing_window default_config;
     min_threshold := min_threshold default_config;
     max_threshold := max_threshold default_config;
     close_speed := close_speed default_config |}.

End Enhanced.

End AudioMouthEnhanced.

(** ** face_tracker.py: [track_face] *)

Module FaceTracking.

Import FaceTracker.
Local Open Scope Q_scope.

(** What one captured frame gives the tracker: [frame.shape[:2]] and the
    rectangles [detect_faces] returns for it. *)
Record frame := mkFrame {
  width : Z;
  height : Z;
  detections : list face
}.

(** The fields of [FaceTracker] that tracking reads and writes;
    [camera_running] stands for [self.camera and self.is_running]. *)
Record tracker := mkTracker {
  camera_running : bool;
  last_face_position : option (Z * Z);
  face_lost_time : option Q
}.

(** The dictionary [track_face] returns, without the image. *)
Inductive tracking_data :=
| Found (center_x center_y frame_width frame_height : Z)
        (face_rect : face) (num_faces : nat)
| NotFound (last_position : option (Z * Z)) (time_lost : Q)
           (frame_width frame_height : Z).

Section Track.

Variable np_sqrt : Q -> Q.

(** [track_face].  [capture] is what [self.camera.read()] delivers at this
    tick, [None] when it reports failure; [current_time] is the value of
    [time.time()]. *)
Definition track_face (t : tracker) (capture : option frame)
           (current_time : Q) : tracker * option tracking_data :=
  if negb (camera_running t) then (t, None)
  else
    match capture with
    | None => (t, None)
    | Some fr =>
        match get_closest_face np_sqrt (width fr) (height fr)
                               (detections fr) with
        | Some closest_face =>
            let '(center_x, center_y) := get_face_center closest_face in
            ({| camera_running := camera_running t;
                last_face_position := Some (center_x, center_y);
                face_lost_time := None |},
             Some (Found center_x center_y (width fr) (height fr)
                         closest_face (length (detections fr))))
        | None =>
            let lost_since :=
              match face_lost_time t with
              | None => current_time
              | Some t0 => t0
              end in
            ({| camera_running := camera_running t;
                last_face_position := last_face_position t;
                face_lost_time := Some lost_since |},
             Some (NotFound (last_face_position t)
                            (current_time - lost_since)
                            (width fr) (height fr)))
        end
    end.

(** Successive ticks, each with its capture and its clock reading. *)
Fixpoint track_faces (t : tracker) (ticks : list (option frame * Q))
  : list (tracker * option tracking_data) :=
  match ticks with
  | [] => []
  | (capture, current_time) :: rest =>
      let r := track_face t capture current_time in
      r :: track_faces (fst r) rest
  end.

End Track.

(** The clock reading from which a loss is counted: the one the tracker
    already holds, or else that of the first tick. *)
Definition lost_since (t : tracker) (ticks : list (option frame * Q)) : Q :=
  match face_lost_time t, ticks with
  | Some t0, _ => t0
  | None, (_, now0) :: _ => now0
  | None, [] => 0
  end.

(** A frame of the given size in which the detector finds nothing. *)
Definition empty_frame (w h : Z) : frame :=
  {| width := w; height := h; detections := [] |}.

(** A tracker whose camera runs and which has just seen a face. *)
Definition tracking_at (p : Z * Z) : tracker :=
  {| camera_running := true; last_face_position := Some p;
     face_lost_time := None |}.

End FaceTracking.

(** ** servo_config.py: the catalogue *)

Module ServoCatalog.

Import ServoConfig.
Local Open Scope Q_scope.

(** [CONFIGS], with each class replaced by the instance it builds. *)
Definition CONFIGS : gmap string ServoConfig.t :=
  list_to_map [("inmoov", InMoovHeadConfig); ("original", OriginalConfig);
               ("simple", SimpleConfig)].

(** [get_config]: an unknown name falls back to the InMoov head. *)
Definition get_config (config_name : string) : ServoConfig.t :=
  default InMoovHeadConfig (CONFIGS !! Server.lower config_name).

(** A rig is well formed: no two axes share a channel, the channels are
    numbered below [servo_count] and there are [servo_count] of them,
    every axis has a range with its default angle inside, ranges and
    defaults are given for axes of the rig only, and every blink angle
    belongs to an axis of the rig and lies inside its range. *)
Definition well_formed (c : ServoConfig.t) : Prop :=
  (forall n1 n2 ch,
     channels c !! n1 = Some ch -> channels c !! n2 = Some ch -> n1 = n2) /\
  (forall n ch,
     channels c !! n = Some ch ->
     (0 <= ch < servo_count c)%Z /\
     exists lo hi d,
       angle_ranges c !! n = Some (lo, hi) /\
       default_angles c !! n = Some d /\ lo <= d <= hi) /\
  Z.of_nat (size (channels c)) = servo_count c /\
  (forall n,
     is_Some (angle_ranges c !! n) \/ is_Some (default_angles c !! n) ->
     is_Some (channels c !! n)) /\
  (forall b n a,
     blink_angles c = Some b -> b !! n = Some a ->
     is_Some (channels c !! n) /\
     exists lo hi, angle_ranges c !! n = Some (lo, hi) /\ lo <= a <= hi).

End ServoCatalog.

(** ** eye_controller.py: single servos, centring and blinking *)

Module EyeServos.

Import ServoConfig EyeController.
Local Open Scope Q_scope.

(** [set_servo_angle].  The callback receives the dictionary
    [current_angles]; it is logged as the listing of its entries, whose
    order carries no meaning. *)
Definition set_servo_angle (hw : bus) (e : t) (servo_name : string)
           (angle : Q) : t :=
  if negb (has_servo_kit e) then e
  else
    match get_channel (config e) servo_name with
    | None => e
    | Some channel =>
        let '(min_angle, max_angle) :=
          get_angle_range (config e) servo_name in
        let angle := clamp min_angle max_angle angle in
        match hw channel angle with
        | Some _ => e
        | None =>
            let e' := record_write e servo_name channel angle in
            if has_position_callback e'
            then record_update e' (map_to_list (current_angles e'))
            else e'
        end
    end.

(** A walk over entries, setting the axis of each to an angle read off the
    rig and the entry: the shape of the loops of [center_eyes] and
    [blink_eyes]. *)
Definition walk {A} (hw : bus) (key : A -> string)
           (angle : ServoConfig.t -> A -> Q) (l : list A) (e : t) : t :=
  fold_left (fun e x => set_servo_angle hw e (key x) (angle (config e) x))
            l e.

(** [center_eyes].  [keys] is [self.config.channels.keys()] in the order
    of the dictionary, which the map of the rig does not keep. *)
Definition center_eyes (hw : bus) (keys : list string) (e : t) : t :=
  if negb (has_servo_kit e) then e
  else
    fold_left
      (fun e servo_name =>
         set_servo_angle hw e servo_name
                         (get_default_angle (config e) servo_name))
      keys e.

(** An eye controller with its blink timer. *)
Record blinker := mkBlinker {
  eyes : EyeController.t;
  last_blink_time : Q;
  blink_interval : Q;
  blink_probability : Q
}.

(** The blink fields as [__init__] sets them. *)
Definition new_blinker (servo_config : ServoConfig.t) : blinker :=
  {| eyes := EyeController.new servo_config; last_blink_time := 0;
     blink_interval := 5; blink_probability := 1 # 100 |}.

(** [force or (elapsed > blink_interval and random.random() <
    blink_probability)]; [draw] is the value of [random.random()]. *)
Definition should_blink (b : blinker) (force : bool) (current_time draw : Q)
  : bool :=
  force
  || (Qltb (blink_interval b) (current_time - last_blink_time b)
      && Qltb draw (blink_probability b)).

(** The lids closed, then opened again: the two loops of [blink_eyes].
    [lids] lists the entries of [blink_angles] in dictionary order. *)
Definition blink_writes (hw : bus) (lids : list (string * Q)) (e : t) : t :=
  let closed :=
    fold_left (fun e (na : string * Q) =>
                 set_servo_angle hw e (fst na) (snd na)) lids e in
  fold_left (fun e (na : string * Q) =>
               set_servo_angle hw e (fst na)
                               (get_default_angle (config e) (fst na)))
            lids closed.

(** [blink_eyes].  A rig without [blink_angles] moves nothing but still
    restarts the timer. *)
Definition blink_eyes (hw : bus) (lids : list (string * Q)) (b : blinker)
           (force : bool) (current_time draw : Q) : blinker :=
  if negb (has_servo_kit (eyes b)) then b
  else if negb (should_blink b force current_time draw) then b
  else
    {| eyes :=
         match blink_angles (config (eyes b)) with
         | Some _ => blink_writes hw lids (eyes b)
         | None => eyes b
         end;
       last_blink_time := current_time;
       blink_interval := blink_interval b;
       blink_probability := blink_probability b |}.

(** The entries of [blink_angles] of the InMoov head, in its order. *)
Definition InMoov_lids : list (string * Q) :=
  [("left_upper_lid", 180); ("left_lower_lid", 10);
   ("right_upper_lid", 10); ("right_lower_lid", 180)].

(** The keys of [channels] of the InMoov head, in its order. *)
Definition InMoov_keys : list string :=
  ["left_eye_x"; "left_eye_y"; "left_upper_lid"; "left_lower_lid";
   "right_eye_x"; "right_eye_y"; "right_upper_lid"; "right_lower_lid"].

(** The angle [set_servo_angle] writes when asked for the default angle of
    an axis. *)
Definition centre_angle (cfg : ServoConfig.t) (servo_name : string) : Q :=
  clamp (fst (get_angle_range cfg servo_name))
        (snd (get_angle_range cfg servo_name))
        (get_default_angle cfg servo_name).

(** Every write of the log addresses a channel of the rig with an angle
    inside the range of an axis on that channel. *)
Definition writes_in_range (cfg : ServoConfig.t) (writes : list (Z * Q))
  : Prop :=
  Forall (fun w : Z * Q =>
            exists servo_name,
              get_channel cfg servo_name = Some (fst w) /\
              fst (get_angle_range cfg servo_name) <= snd w
              <= snd (get_angle_range cfg servo_name)) writes.

(** The ranges of the rig are not empty. *)
Definition ranges_ordered (cfg : ServoConfig.t) : Prop :=
  forall servo_name,
    fst (get_angle_range cfg servo_name)
    <= snd (get_angle_range cfg servo_name).

End EyeServos.

(** ** voice_assistant_server.py: settings, watchdog and audio callback *)

Module ServerLoops.

Import Server.
Local Open Scope Q_scope.

(** [load_settings].  [file] is [None] when [SETTINGS_FILE] does not
    exist, [Some None] when reading or parsing it raises, and
    [Some (Some loaded)] when it parses to [loaded]; in
    [{**DEFAULT_SETTINGS, **loaded}] the entries of [loaded] win. *)
Definition load_settings {V} (defaults : gmap string V)
           (file : option (option (gmap string V))) : gmap string V :=
  match file with
  | Some (Some loaded) => loaded ∪ defaults
  | Some None => defaults
  | None => defaults
  end.

(** The outcome of a step that may raise: the state it leaves, and the
    text of the exception if there is one. *)
Definition outcome : Type := state * option string.

(** [servo_kit.servo[JAW_CHANNEL].angle = clamp_angle(angle)] *)
Definition jaw_write (hw : bus) (st : state) (angle : Q) : outcome :=
  match hw JAW_CHANNEL (clamp_angle angle) with
  | None =>
      ({| SERVO_AVAILABLE := SERVO_AVAILABLE st; settings := settings st;
          jaw_position := jaw_position st;
          servo_writes :=
            servo_writes st ++ [(JAW_CHANNEL, clamp_angle angle)] |}, None)
  | Some msg => (st, Some msg)
  end.

(** Writes in sequence, up to the first that raises. *)
Fixpoint jaw_writes (hw : bus) (st : state) (angles : list Q) : outcome :=
  match angles with
  | [] => (st, None)
  | a :: rest =>
      match jaw_write hw st a with
      | (st', None) => jaw_writes hw st' rest
      | (st', Some msg) => (st', Some msg)
      end
  end.

Definition set_jaw_position (st : state) (p : Q) : state :=
  {| SERVO_AVAILABLE := SERVO_AVAILABLE st; settings := settings st;
     jaw_position := p; servo_writes := servo_writes st |}.

(** The ten angles of the smooth close:
    [current + (target - current) * ((i + 1) / steps)] for [i] in
    [range(10)]. *)
Definition ramp_angles (current_angle target_angle : Q) : list Q :=
  map (fun i : nat =>
         current_angle
         + (target_angle - current_angle)
           * (inject_Z (Z.of_nat i + 1) / 10))
      (seq 0 10).

(** Lines 311-331 of [monitor_speech_end]: the jaw is closed over a ramp
    and held, or, without servo, only the tracked position is cleared.
    Nothing catches an exception here. *)
Definition close_jaw (hw : bus) (st : state) : outcome :=
  if SERVO_AVAILABLE st then
    match settings st !! "jaw_close_angle", settings st !! "jaw_open_angle" with
    | Some close_angle, Some open_angle =>
        let current_angle :=
          jaw_angle close_angle open_angle (jaw_position st) in
        let target_angle := close_angle in
        match jaw_writes hw st (ramp_angles current_angle target_angle
                                ++ repeat target_angle 5) with
        | (st', None) => (set_jaw_position st' 0, None)
        | (st', Some msg) => (st', Some msg)
        end
    | None, _ => (st, Some "'jaw_close_angle'")
    | Some _, None => (st, Some "'jaw_open_angle'")
    end
  else (set_jaw_position (control_jaw_servo_direct hw st 0) 0, None).

(** The globals of a speech session. *)
Record session := mkSession {
  mouth : AudioMouth.state;
  server : state;
  is_speaking : bool;
  last_audio_time : Q;
  callback_count : Z;
  current_speech_text : string;
  shown : AudioMouth.viseme * string
}.

Section Session.

Variable np_sqrt : Q -> Q.
Variable pow08 : Q -> Q.
Variable cfg : AudioMouth.config.


(** One round of the loop of [monitor_speech_end], at clock reading
    [now]. *)
Definition monitor_speech_end (hw : bus) (s : session) (now : Q)
  : session * option string :=
  if is_speaking s && Qltb (5 # 10) (now - last_audio_time s) then
    let '(server', error) := close_jaw hw (server s) in
    ({| mouth := AudioMouth.reset (mouth s); server := server';
        is_speaking := false; last_audio_time := last_audio_time s;
        callback_count := 0;
        current_speech_text := current_speech_text s;
        shown := (AudioMouth.CLOSED, "") |}, error)
  else (s, None).


End Session.


(** Every write of the log is on the jaw channel with an angle in
    [0, 180]. *)
Definition jaw_log_ok (writes : list (Z * Q)) : Prop :=
  Forall (fun w : Z * Q => fst w = JAW_CHANNEL /\ 0 <= snd w <= 180) writes.



End ServerLoops.


(** * voice_assistant_server.py: the eye test commands of
      [process_control_commands] *)

Module EyeCommands.

Import Server ServerLoops.
Local Open Scope Q_scope.

(** [servo_kit.servo[channel].angle = angle] *)
Definition servo_write (hw : bus) (st : state) (channel : Z) (angle : Q)
  : outcome :=
  match hw channel angle with
  | None =>
      ({| SERVO_AVAILABLE := SERVO_AVAILABLE st; settings := settings st;
          jaw_position := jaw_position st;
          servo_writes := servo_writes st ++ [(channel, angle)] |}, None)
  | Some msg => (st, Some msg)
  end.

(** Writes to one channel in sequence, up to the first that raises. *)
Fixpoint write_angles (hw : bus) (st : state) (channel : Z)
         (angles : list Q) : outcome :=
  match angles with
  | [] => (st, None)
  | a :: rest =>
      match servo_write hw st channel a with
      | (st', None) => write_angles hw st' channel rest
      | (st', Some msg) => (st', Some msg)
      end
  end.

(** [0 <= channel <= 7] *)
Definition eye_channel (channel : Z) : bool :=
  (0 <=? channel)%Z && (channel <=? 7)%Z.

(** The action [test_eye_servo]; an exception is printed and dropped. *)
Definition test_eye_servo (hw : bus) (st : state) (channel : Z) (angle : Q)
  : state :=
  if SERVO_AVAILABLE st && eye_channel channel then
    let clamped_angle := clamp_angle angle in
    fst (servo_write hw st channel clamped_angle)
  else st.

(** The angles of the sweep loop:
    [clamp_angle(min_angle + (max_angle - min_angle) * i / steps)] for [i]
    in [range(steps + 1)], with [steps = 20]. *)
Definition sweep_steps (min_angle max_angle : Q) : list Q :=
  map (fun i : nat =>
         clamp_angle (min_angle
                      + (max_angle - min_angle) * inject_Z (Z.of_nat i) / 20))
      (seq 0 21).

(** Everything a sweep sends: the minimum, the steps, the centre. *)
Definition sweep_plan (min_angle max_angle center_angle : Q) : list Q :=
  let min_angle := clamp_angle min_angle in
  let max_angle := clamp_angle max_angle in
  let center_angle := clamp_angle center_angle in
  min_angle :: sweep_steps min_angle max_angle ++ [center_angle].

(** The action [sweep_eye_servo]; the first exception ends the sweep and
    is printed. *)
Definition sweep_eye_servo (hw : bus) (st : state) (channel : Z)
           (min_angle max_angle center_angle : Q) : state :=
  if SERVO_AVAILABLE st && eye_channel channel then
    fst (write_angles hw st channel
           (sweep_plan min_angle max_angle center_angle))
  else st.

(** What an eye command may do to the server: append writes, all of them
    to the one channel, which is one of the eye channels, with angles in
    [0, 180]; flag, settings and tracked jaw position stay. *)
Definition eye_only (channel : Z) (st st' : state) : Prop :=
  SERVO_AVAILABLE st' = SERVO_AVAILABLE st /\
  settings st' = settings st /\
  jaw_position st' = jaw_position st /\
  exists sent,
    servo_writes st' = servo_writes st ++ map (pair channel) sent /\
    Forall (fun a => 0 <= a <= 180) sent /\
    (sent <> [] -> (0 <= channel <= 7)%Z /\ channel <> JAW_CHANNEL).

End EyeCommands.


(** * voice_assistant_server.py and mouth_visualizer.py: the eyes of the
      web page *)

Module FaceLoop.

Import EyeController.
Local Open Scope Q_scope.

(** [if src in eye_angles: data[dst] = eye_angles[src]] for each [dst]. *)
Definition copy_angle (eye_angles : gmap string Q) (src : string)
           (dsts : list string) (data : gmap string Q) : gmap string Q :=
  match eye_angles !! src with
  | Some angle => foldl (fun d dst => <[dst := angle]> d) data dsts
  | None => data
  end.

(** [update_eyes]: the payload of the [eye_position_update] event, [None]
    when nothing is emitted. *)
Definition update_eyes (eye_angles : gmap string Q)
  : option (gmap string Q) :=
  let data : gmap string Q := ∅ in
  let data := copy_angle eye_angles "left_eye_x" ["left_x"] data in
  let data := copy_angle eye_angles "left_eye_y" ["left_y"] data in
  let data := copy_angle eye_angles "right_eye_x" ["right_x"] data in
  let data := copy_angle eye_angles "right_eye_y" ["right_y"] data in
  let data := copy_angle eye_angles "eye_x" ["left_x"; "right_x"] data in
  let data := copy_angle eye_angles "eye_y" ["left_y"; "right_y"] data in
  if (size data =? 0)%nat then None else Some data.

(** Lines 697-717 of [face_tracking_loop]: the eye angles for a face that
    was found, as emitted to the page.  The local [map_value] is the one of
    eye_controller.py; its [ZeroDivisionError] ends the round in the
    [except] clause, with nothing emitted. *)
Definition virtual_eyes (face_x face_y frame_width frame_height : Z)
  : option (gmap string Q) :=
  eye_x_angle ← map_value (inject_Z face_x) 0 (inject_Z frame_width) 120 60;
  eye_y_angle ← map_value (inject_Z face_y) 0 (inject_Z frame_height) 60 120;
  update_eyes (list_to_map [("left_eye_x", eye_x_angle);
                            ("left_eye_y", eye_y_angle);
                            ("right_eye_x", eye_x_angle);
                            ("right_eye_y", eye_y_angle)]).

(** The payload the eye controller hands to its callback after a tick. *)
Definition last_update (e : t) : option (gmap string Q) :=
  match last (position_updates e) with
  | Some angles => update_eyes (list_to_map angles)
  | None => None
  end.

(** Nothing of the controller has reached or can reach the page: none of
    the names [update_eyes] reads is among the recorded angles, and no
    payload handed over so far has led to an event. *)
Definition page_silent (e : t) : Prop :=
  Forall (fun k => current_angles e !! k = None) tracked_axes /\
  Forall (fun payload => update_eyes (list_to_map payload) = None)
         (position_updates e).

(** The rig has none of the axis names that tracking and the page look
    for. *)
Definition no_tracked_axis (cfg : ServoConfig.t) : Prop :=
  Forall (fun k => ServoConfig.channels cfg !! k = None) tracked_axes.

End FaceLoop.


(** * mouth_visualizer.py: [animate_text] *)

Module MouthVisualizer.

Local Open Scope Q_scope.

(** What an animation does, in order: [update_mouth(viseme, text)] and
    [time.sleep(seconds)]. *)
Inductive page_event :=
| Mouth (viseme text : string)
| Sleep (seconds : Q).

(** The [for] loop of [animate_text].  [time.sleep] raises a [ValueError]
    on a negative length, which ends the animation where it stands: the
    events up to there, and the text of the exception if there is one. *)
Fixpoint show_phonemes (text : string) (time_per_phoneme : Q)
         (phoneme_viseme_pairs : list (string * string))
  : list page_event * option string :=
  match phoneme_viseme_pairs with
  | [] => ([], None)
  | (phoneme, viseme) :: rest =>
      let shown := Mouth viseme (text ++ " [" ++ phoneme ++ "]")%string in
      if Qltb time_per_phoneme 0 then
        ([shown], Some "sleep length must be non-negative")
      else
        let '(events, error) := show_phonemes text time_per_phoneme rest in
        (shown :: Sleep time_per_phoneme :: events, error)
  end.

(** [animate_text]; [duration] is [None] for the default. *)
Definition animate_text (text : string)
           (phoneme_viseme_pairs : list (string * string))
           (duration : option Q) : list page_event * option string :=
  match phoneme_viseme_pairs with
  | [] => ([], None)
  | _ :: _ =>
      let duration :=
        match duration with
        | None =>
            inject_Z (Z.of_nat (length phoneme_viseme_pairs)) / 12
        | Some d => d
        end in
      let time_per_phoneme :=
        duration / inject_Z (Z.of_nat (length phoneme_viseme_pairs)) in
      match show_phonemes text time_per_phoneme phoneme_viseme_pairs with
      | (events, None) =>
          (events ++ [Mouth "CLOSED" ""; Sleep (1 # 10)], None)
      | (events, Some msg) => (events, Some msg)
      end
  end.

(** The visemes shown, in order. *)
Definition shown_visemes (events : list page_event) : list string :=
  omap (fun ev => match ev with
                  | Mouth viseme _ => Some viseme
                  | Sleep _ => None
                  end) events.

(** The time spent asleep. *)
Definition total_sleep (events : list page_event) : Q :=
  fold_right (fun ev acc => match ev with
                            | Mouth _ _ => acc
                            | Sleep s => s + acc
                            end) 0 events.

(** The duration an animation is meant to last. *)
Definition planned_duration (phoneme_viseme_pairs : list (string * string))
           (duration : option Q) : Q :=
  match duration with
  | None => inject_Z (Z.of_nat (length phoneme_viseme_pairs)) / 12
  | Some d => d
  end.

End MouthVisualizer.
(** * Properties *)

(** ** Comparison, [max], [min] and the clamp *)

Lemma Qltb_lt a b : Qltb a b = true <-> (a < b)%Q.
Proof.
  unfold Qltb. rewrite Qlt_alt. destruct (a ?= b)%Q; split; congruence.
Qed.

Lemma Qltb_ge a b : Qltb a b = false <-> (b <= a)%Q.
Proof.
  unfold Qltb. split.
  - intros H. apply Qnot_lt_le. intros Hlt. rewrite Qlt_alt in Hlt.
    rewrite Hlt in H. discriminate.
  - intros H. destruct (a ?= b)%Q eqn:E; try reflexivity.
    rewrite <- Qlt_alt in E. apply Qle_not_lt in H. contradiction.
Qed.

Lemma Qltb_cases a b :
  (Qltb a b = true /\ (a < b)%Q) \/ (Qltb a b = false /\ (b <= a)%Q).
Proof.
  destruct (Qltb a b) eqn:E.
  - left. split; [reflexivity | now apply Qltb_lt].
  - right. split; [reflexivity | now apply Qltb_ge].
Qed.

Lemma py_max_spec a b :
  ((a < b)%Q /\ py_max a b = b) \/ ((b <= a)%Q /\ py_max a b = a).
Proof.
  unfold py_max. destruct (Qltb_cases a b) as [[-> H] | [-> H]]; auto.
Qed.

Lemma py_min_spec a b :
  ((b < a)%Q /\ py_min a b = b) \/ ((a <= b)%Q /\ py_min a b = a).
Proof.
  unfold py_min. destruct (Qltb_cases b a) as [[-> H] | [-> H]]; auto.
Qed.

Lemma clamp_bounds lo hi x : (lo <= hi)%Q -> (lo <= clamp lo hi x <= hi)%Q.
Proof.
  intros Hlh. unfold clamp.
  destruct (py_min_spec hi x) as [[H1 ->] | [H1 ->]];
    destruct (py_max_spec lo x) as [[H2 E] | [H2 E]];
    destruct (py_max_spec lo hi) as [[H3 E'] | [H3 E']];
    try rewrite E; try rewrite E'; lra.
Qed.

Lemma Qltb_compat a a' b b' :
  (a == a')%Q -> (b == b')%Q -> Qltb a b = Qltb a' b'.
Proof.
  intros Ha Hb. unfold Qltb. now rewrite Ha, Hb.
Qed.

Lemma py_max_compat a a' b b' :
  (a == a')%Q -> (b == b')%Q -> (py_max a b == py_max a' b')%Q.
Proof.
  intros Ha Hb. unfold py_max. rewrite (Qltb_compat a a' b b' Ha Hb).
  now destruct (Qltb a' b').
Qed.

Lemma py_min_compat a a' b b' :
  (a == a')%Q -> (b == b')%Q -> (py_min a b == py_min a' b')%Q.
Proof.
  intros Ha Hb. unfold py_min. rewrite (Qltb_compat b b' a a' Hb Ha).
  now destruct (Qltb b' a').
Qed.

Lemma clamp_compat lo hi x y :
  (x == y)%Q -> (clamp lo hi x == clamp lo hi y)%Q.
Proof.
  intros H. unfold clamp.
  apply py_max_compat; [reflexivity |].
  apply py_min_compat; [reflexivity | assumption].
Qed.

Lemma clamp_inside lo hi x : (lo <= x <= hi)%Q -> (clamp lo hi x == x)%Q.
Proof.
  intros [H1 H2]. unfold clamp.
  destruct (py_min_spec hi x) as [[H ->] | [H ->]];
    [destruct (py_max_spec lo x) as [[H' ->] | [H' ->]]
    | destruct (py_max_spec lo hi) as [[H' ->] | [H' ->]]]; lra.
Qed.

(** ** Sanity checks of the embedding *)

Example get_channel_inmoov :
  ServoConfig.get_channel ServoConfig.InMoovHeadConfig "right_eye_y" = Some 5.
Proof. vm_compute. reflexivity. Qed.

Example frombuffer_loud :
  AudioMouth.frombuffer_int16 AudioMouth.loud_chunk = Some [32767; -32768].
Proof. reflexivity. Qed.

Example frombuffer_odd :
  AudioMouth.frombuffer_int16 [Byte.x01; Byte.x02; Byte.x03] = None.
Proof. reflexivity. Qed.

(** ** servo_config.py: rig look-ups *)

Module ServoConfigProps.

Import ServoConfig.

(** C10.  The three look-ups of a rig are total: they return a value for
    every servo name and have no error case.  For a name the rig does not
    configure, [get_channel] returns [None], [get_default_angle] the
    fallback 90 and [get_angle_range] the fallback (0, 180); for a
    configured name they return what the rig stores. *)
Theorem lookups_total (c : ServoConfig.t) (servo_name : string) :
  (channels c !! servo_name = None -> get_channel c servo_name = None) /\
  (default_angles c !! servo_name = None ->
   get_default_angle c servo_name = 90%Q) /\
  (angle_ranges c !! servo_name = None ->
   get_angle_range c servo_name = (0%Q, 180%Q)) /\
  (forall channel, channels c !! servo_name = Some channel ->
     get_channel c servo_name = Some channel) /\
  (forall angle, default_angles c !! servo_name = Some angle ->
     get_default_angle c servo_name = angle) /\
  (forall range, angle_ranges c !! servo_name = Some range ->
     get_angle_range c servo_name = range).
Proof.
  unfold get_channel, get_default_angle, get_angle_range.
  repeat split; intros; now rewrite H.
Qed.

Lemma lookups_total_witness :
  get_channel InMoovHeadConfig "jaw" = None /\
  get_default_angle InMoovHeadConfig "jaw" = 90%Q /\
  get_angle_range InMoovHeadConfig "jaw" = (0%Q, 180%Q) /\
  get_channel InMoovHeadConfig "right_eye_y" = Some 5 /\
  get_default_angle InMoovHeadConfig "left_upper_lid" = 70%Q /\
  get_angle_range InMoovHeadConfig "left_eye_x" = (57%Q, 145%Q).
Proof.
  destruct (lookups_total InMoovHeadConfig "jaw") as (H1 & H2 & H3 & _).
  destruct (lookups_total InMoovHeadConfig "right_eye_y")
    as (_ & _ & _ & H4 & _).
  destruct (lookups_total InMoovHeadConfig "left_upper_lid")
    as (_ & _ & _ & _ & H5 & _).
  destruct (lookups_total InMoovHeadConfig "left_eye_x")
    as (_ & _ & _ & _ & _ & H6).
  repeat match goal with |- _ /\ _ => split end;
    [apply H1 | apply H2 | apply H3 | apply H4 | apply H5 | apply H6];
    vm_compute; reflexivity.
Defined.

(** The names of one rig are unknown to the others, and fall back. *)
Example shared_axis_unknown_to_inmoov :
  get_channel InMoovHeadConfig "eyes_x" = None /\
  get_default_angle SimpleConfig "left_eye_x" = 90%Q /\
  get_angle_range OriginalConfig "jaw" = (0%Q, 180%Q).
Proof. repeat split; vm_compute; reflexivity. Qed.

End ServoConfigProps.

(** ** audio_mouth_controller.py: the envelope tracker *)

Module AudioMouthProps.

Import AudioMouth.
Local Open Scope Q_scope.

(** *** The viseme ladder *)

Ltac ladder :=
  unfold get_viseme_from_opening;
  repeat match goal with
         | |- context [Qltb ?a ?b] =>
             destruct (Qltb_cases a b) as [[-> ?] | [-> ?]]
         end.

(** C2.  [get_viseme_from_opening] is a function of the opening alone,
    and it is the ordered threshold ladder: CLOSED exactly below 5,
    NARROW exactly on [5,20), ROUNDED on [20,35), MEDIUM on [35,50),
    MEDIUM_OPEN on [50,70) and WIDE from 70 on; equal openings get equal
    visemes. *)
Theorem viseme_ladder (opening : Q) :
  (get_viseme_from_opening opening = CLOSED <-> opening < 5) /\
  (get_viseme_from_opening opening = NARROW <-> 5 <= opening < 20) /\
  (get_viseme_from_opening opening = ROUNDED <-> 20 <= opening < 35) /\
  (get_viseme_from_opening opening = MEDIUM <-> 35 <= opening < 50) /\
  (get_viseme_from_opening opening = MEDIUM_OPEN <-> 50 <= opening < 70) /\
  (get_viseme_from_opening opening = WIDE <-> 70 <= opening) /\
  (forall opening', opening == opening' ->
     get_viseme_from_opening opening' = get_viseme_from_opening opening).
Proof.
  repeat match goal with |- _ /\ _ => split end.
  1-6: split; ladder; intros; try discriminate; try reflexivity; lra.
  intros o' Ho. unfold get_viseme_from_opening.
  now rewrite !(Qltb_compat o' opening _ _ (Qeq_sym _ _ Ho) (Qeq_refl _)).
Qed.

Example viseme_boundaries :
  map get_viseme_from_opening [0; 499 # 100; 5; 1999 # 100; 20; 35; 50; 70; 100]
  = [CLOSED; CLOSED; NARROW; NARROW; ROUNDED; MEDIUM; MEDIUM_OPEN; WIDE; WIDE].
Proof. reflexivity. Qed.

(** *** Easing *)

Lemma ease_closing cfg target current :
  target < current ->
  target <= ease cfg target current /\
  (0 <= close_speed cfg <= 1 ->
     ease cfg target current
     == current - (current - target) * close_speed cfg) /\
  (1 <= close_speed cfg -> ease cfg target current == target).
Proof.
  intros Hlt. unfold ease.
  destruct (Qltb_cases target current) as [[-> _] | [_ H]]; [| lra].
  destruct (py_max_spec target
              (current - (current - target) * close_speed cfg))
    as [[H ->] | [H ->]]; repeat split; intros; try lra; nra.
Qed.

Lemma ease_opening cfg target current :
  current <= target ->
  ease cfg target current == current + (target - current) * (4 # 10) /\
  ease cfg target current <= target.
Proof.
  intros Hle. unfold ease.
  destruct (Qltb_cases target current) as [[_ H] | [-> _]]; [lra |].
  destruct (py_min_spec target (current + (target - current) * (4 # 10)))
    as [[H ->] | [H ->]]; split; lra.
Qed.

(** The opening a call stores and returns is the eased value, unless the
    silence counter has passed 2. *)
Lemma process_eases np_sqrt pow08 cfg st audio_bytes st' o :
  process_audio_chunk np_sqrt pow08 cfg st audio_bytes = (st', Some o) ->
  o = current_opening st' /\
  ((silence_counter st' <= 2)%Z ->
   current_opening st'
   = ease cfg (target_opening st') (current_opening st)).
Proof.
  unfold process_audio_chunk.
  destruct (frombuffer_int16 audio_bytes) as [d |]; [| discriminate].
  destruct (amp_ltb _ _); intros E; inversion E; subst; clear E; cbn;
    (split; [reflexivity |]); intros Hs.
  - destruct (Z.ltb_spec 2 (silence_counter st + 1)); [lia | reflexivity].
  - reflexivity.
Qed.

(** C6.  The easing step is asymmetric.  When the target is below the
    current opening the step is [(current - target) * close_speed] toward
    the target, cut at the target; otherwise it is
    [(target - current) * 0.4] toward the target, never past it.  With
    the default [close_speed] 0.7, for one and the same gap the closing
    move is at least the opening move.  Every call of
    [process_audio_chunk] that is not force-closed stores exactly this
    eased value. *)
Theorem easing_asymmetric :
  (forall cfg target current, target < current ->
     target <= ease cfg target current /\
     (0 <= close_speed cfg <= 1 ->
        ease cfg target current
        == current - (current - target) * close_speed cfg) /\
     (1 <= close_speed cfg -> ease cfg target current == target)) /\
  (forall cfg target current, current <= target ->
     ease cfg target current == current + (target - current) * (4 # 10) /\
     ease cfg target current <= target) /\
  (forall current gap, 0 <= gap ->
     current - ease default_config (current - gap) current == gap * (7 # 10) /\
     ease default_config (current + gap) current - current == gap * (4 # 10) /\
     ease default_config (current + gap) current - current
     <= current - ease default_config (current - gap) current) /\
  (forall np_sqrt pow08 cfg st audio_bytes st' o,
     process_audio_chunk np_sqrt pow08 cfg st audio_bytes = (st', Some o) ->
     (silence_counter st' <= 2)%Z ->
     o = ease cfg (target_opening st') (current_opening st)).
Proof.
  split; [exact ease_closing |]. split; [exact ease_opening |]. split.
  - intros c g Hg.
    assert (Hopen := ease_opening default_config (c + g) c ltac:(lra)).
    destruct (Qlt_le_dec 0 g) as [Hpos | Hz].
    + destruct (ease_closing default_config (c - g) c ltac:(lra))
        as (_ & Hc & _).
      specialize (Hc ltac:(cbn; lra)). cbn in Hc.
      destruct Hopen as [Ho _]. lra.
    + assert (g == 0) as Hg0 by lra.
      destruct (ease_opening default_config (c - g) c ltac:(lra)) as [Hc _].
      destruct Hopen as [Ho _]. lra.
  - intros np_sqrt pow08 cfg st b st' o E Hs.
    destruct (process_eases _ _ _ _ _ _ _ E) as [-> H]. now apply H.
Qed.

Lemma easing_asymmetric_witness :
  ease default_config 0 50 == 15 /\ ease default_config 100 50 == 70 /\
  snd (process_audio_chunk id_curve id_curve default_config init loud_chunk)
  = Some (ease default_config 100 0).
Proof.
  destruct easing_asymmetric as (Hclose & Hopen & _ & Hproc).
  split; [| split].
  - destruct (Hclose default_config 0 50 ltac:(lra)) as (_ & H & _).
    rewrite H; [reflexivity | cbn; lra].
  - destruct (Hopen default_config 100 50 ltac:(lra)) as [H _].
    rewrite H. reflexivity.
  - destruct (process_audio_chunk id_curve id_curve default_config init
                loud_chunk) as [st' o] eqn:E.
    vm_compute in E. inversion E; subst; clear E. reflexivity.
Defined.

(** *** Forced close after three silent chunks *)

(** A silent chunk sets the target to 0, counts one more silent chunk
    and returns 0 as soon as the count has passed 2. *)
Lemma process_below_threshold np_sqrt pow08 cfg st audio_bytes :
  below_threshold np_sqrt cfg st audio_bytes = true ->
  exists st' o,
    process_audio_chunk np_sqrt pow08 cfg st audio_bytes = (st', Some o) /\
    silence_counter st' = (silence_counter st + 1)%Z /\
    target_opening st' = 0 /\
    current_opening st' = o /\
    ((2 < silence_counter st + 1)%Z -> o = 0).
Proof.
  unfold below_threshold, process_audio_chunk, smoothed_amplitude.
  destruct (frombuffer_int16 audio_bytes) as [d |]; [| discriminate].
  intros ->. eexists _, _. split; [reflexivity |]. cbn.
  repeat split.
  intros H. destruct (Z.ltb_spec 2 (silence_counter st + 1)); [reflexivity | lia].
Qed.

(** C7.  From a state whose silence counter is 0, three consecutive
    chunks whose smoothed amplitude is below [min_threshold] end with the
    third call returning exactly 0 and storing 0 as the current opening,
    whatever the opening and the window were before. *)
Theorem third_silent_chunk_closes np_sqrt pow08 cfg st c1 c2 c3 :
  silence_counter st = 0%Z ->
  let r1 := process_audio_chunk np_sqrt pow08 cfg st c1 in
  let r2 := process_audio_chunk np_sqrt pow08 cfg (fst r1) c2 in
  let r3 := process_audio_chunk np_sqrt pow08 cfg (fst r2) c3 in
  below_threshold np_sqrt cfg st c1 = true ->
  below_threshold np_sqrt cfg (fst r1) c2 = true ->
  below_threshold np_sqrt cfg (fst r2) c3 = true ->
  snd r3 = Some 0 /\ current_opening (fst r3) = 0 /\
  silence_counter (fst r3) = 3%Z.
Proof.
  intros H0 r1 r2 r3 B1 B2 B3.
  destruct (process_below_threshold np_sqrt pow08 cfg _ _ B1)
    as (s1 & o1 & E1 & C1 & _).
  subst r2 r3. fold r1 in E1. rewrite E1 in *. cbn [fst] in *.
  destruct (process_below_threshold np_sqrt pow08 cfg _ _ B2)
    as (s2 & o2 & E2 & C2 & _).
  rewrite E2 in *. cbn [fst] in *.
  destruct (process_below_threshold np_sqrt pow08 cfg _ _ B3)
    as (s3 & o3 & E3 & C3 & _ & Ecur & Hz).
  rewrite E3. cbn [fst snd].
  assert (o3 = 0) as -> by (apply Hz; lia).
  repeat split; [assumption | lia].
Qed.

Lemma third_silent_chunk_closes_witness :
  snd (process_audio_chunk id_curve id_curve window1
         (fst (process_audio_chunk id_curve id_curve window1
            (fst (process_audio_chunk id_curve id_curve window1
                    open_state silent_chunk)) silent_chunk)) silent_chunk)
  = Some 0.
Proof.
  apply (third_silent_chunk_closes id_curve id_curve window1 open_state
           silent_chunk silent_chunk silent_chunk); reflexivity.
Defined.

(** The first two silent chunks only ease: the mouth is still open. *)
Example second_silent_chunk_still_open :
  option_map Qred
    (snd (process_audio_chunk id_curve id_curve window1
            (fst (process_audio_chunk id_curve id_curve window1
                    open_state silent_chunk)) silent_chunk))
  = Some (144 # 25).
Proof. vm_compute. reflexivity. Qed.

(** *** The opening stays in [0,100] *)

Section Range.

Variable np_sqrt : Q -> Q.
Variable pow08 : Q -> Q.
Variable cfg : config.

(** [x ** 0.8] keeps the unit interval. *)
Hypothesis pow08_unit : forall x, 0 <= x <= 1 -> 0 <= pow08 x <= 1.

(** The documented range of [close_speed] is 0-1; only its sign
    matters here. *)
Hypothesis close_speed_nonneg : 0 <= close_speed cfg.

Lemma normalise_unit smoothed : 0 <= normalise cfg smoothed <= 1.
Proof.
  unfold normalise. destruct smoothed as [s |]; [| lra].
  destruct (Qeq_bool _ 0); [destruct (Qltb _ 0); lra |].
  apply (clamp_bounds 0 1). lra.
Qed.

Lemma ease_in_range target current :
  in_range target -> in_range current ->
  in_range (ease cfg target current).
Proof.
  unfold in_range. intros Ht Hc.
  destruct (Qlt_le_dec target current) as [Hlt | Hle].
  - destruct (ease_closing cfg target current Hlt) as (Hlow & _).
    unfold ease in *.
    destruct (Qltb_cases target current) as [[E _] | [_ H]]; [| lra].
    rewrite E in *.
    destruct (py_max_spec target
                (current - (current - target) * close_speed cfg))
      as [[H ->] | [H ->]]; [| lra].
    split; [lra |]. nra.
  - destruct (ease_opening cfg target current Hle) as [He Hup]. lra.
Qed.

Lemma process_in_range st audio_bytes :
  in_range (current_opening st) ->
  let r := process_audio_chunk np_sqrt pow08 cfg st audio_bytes in
  in_range (current_opening (fst r)) /\
  (forall o, snd r = Some o -> in_range o).
Proof.
  intros Hc. unfold process_audio_chunk.
  destruct (frombuffer_int16 audio_bytes) as [d |]; cbn;
    [| split; [assumption | discriminate]].
  set (smoothed := mean_history (push_history np_sqrt cfg st d)).
  assert (forall target silence,
             in_range target ->
             in_range (if (2 <? silence)%Z then 0
                       else ease cfg target (current_opening st))) as Hfin.
  { intros t n Ht. destruct (2 <? n)%Z; [unfold in_range; lra |].
    now apply ease_in_range. }
  destruct (amp_ltb smoothed (min_threshold cfg)); cbn.
  - assert (in_range 0) as H0 by (unfold in_range; lra).
    split; [now apply Hfin |].
    intros o E. inversion E; subst. now apply Hfin.
  - assert (in_range (pow08 (normalise cfg smoothed) * 100)) as Ht.
    { pose proof (pow08_unit _ (normalise_unit smoothed)).
      unfold in_range. lra. }
    split; [now apply (Hfin _ 0%Z) |].
    intros o E. inversion E; subst. now apply (Hfin _ 0%Z).
Qed.

Lemma run_in_range chunks : forall st,
  in_range (current_opening st) ->
  Forall (fun r : state * option Q =>
            in_range (current_opening (fst r)) /\
            (forall o, snd r = Some o -> in_range o))
         (run np_sqrt pow08 cfg st chunks).
Proof.
  induction chunks as [| c rest IH]; intros st Hc; cbn; constructor.
  - now apply process_in_range.
  - apply IH. now apply process_in_range.
Qed.

End Range.

(** C1.  Whatever chunks are fed to a controller, after every call the
    stored [current_opening] and the returned opening lie in [0,100]
    (a call on a buffer of odd length raises and leaves the state as it
    was).  The power curve is only required to keep the unit interval,
    and [close_speed] to be in its documented, non-negative range. *)
Theorem opening_in_range np_sqrt pow08 cfg chunks :
  (forall x, 0 <= x <= 1 -> 0 <= pow08 x <= 1) ->
  0 <= close_speed cfg ->
  Forall (fun r : state * option Q =>
            in_range (current_opening (fst r)) /\
            (forall o, snd r = Some o -> in_range o))
         (run np_sqrt pow08 cfg init chunks).
Proof.
  intros Hpow Hcs. apply run_in_range; try assumption.
  unfold in_range. cbn. lra.
Qed.

Lemma opening_in_range_witness :
  Forall (fun r : state * option Q =>
            in_range (current_opening (fst r)) /\
            (forall o, snd r = Some o -> in_range o))
         (run id_curve id_curve default_config init
              [loud_chunk; silent_chunk; []; [Byte.x01]; loud_chunk]).
Proof.
  apply (opening_in_range id_curve id_curve default_config).
  - intros x Hx. exact Hx.
  - cbn. lra.
Defined.

End AudioMouthProps.

(** ** face_tracker.py: nearest-face selection *)

Module FaceTrackerProps.

Import FaceTracker.

(** Inside its range an [np.int32] operation gives the exact result. *)
Lemma wrap32_exact z : -2147483648 <= z < 2147483648 -> wrap32 z = z.
Proof. intros H. unfold wrap32. rewrite Z.mod_small; lia. Qed.

(** Inside a frame of at most [max_frame_side] pixels either way nothing
    wraps: the centre and the squared distance are the exact ones. *)
Lemma offsets_in_frame frame_width frame_height x y w h :
  0 <= frame_width <= max_frame_side ->
  0 <= frame_height <= max_frame_side ->
  in_frame frame_width frame_height (x, y, w, h) ->
  -32767 <= x + w / 2 - frame_width / 2 <= 32767 /\
  -32767 <= y + h / 2 - frame_height / 2 <= 32767 /\
  0 <= x + w / 2 <= 65534 /\ 0 <= y + h / 2 <= 65534.
Proof.
  unfold max_frame_side, in_frame. intros HW HH (Hx & Hy & Hw & Hh & Hxw & Hyh).
  pose proof (Z.div_pos w 2 Hw ltac:(lia)).
  pose proof (Z.div_pos h 2 Hh ltac:(lia)).
  pose proof (Z.div_le_upper_bound w 2 w ltac:(lia) ltac:(lia)).
  pose proof (Z.div_le_upper_bound h 2 h ltac:(lia) ltac:(lia)).
  pose proof (Z.div_mod frame_width 2 ltac:(lia)).
  pose proof (Z.mod_pos_bound frame_width 2 ltac:(lia)).
  pose proof (Z.div_mod frame_height 2 ltac:(lia)).
  pose proof (Z.mod_pos_bound frame_height 2 ltac:(lia)).
  lia.
Qed.

Lemma square_bound d : -32767 <= d <= 32767 -> 0 <= d ^ 2 <= 1073676289.
Proof. intros H. nia. Qed.

Lemma get_face_center_in_frame frame_width frame_height x y w h :
  0 <= frame_width <= max_frame_side ->
  0 <= frame_height <= max_frame_side ->
  in_frame frame_width frame_height (x, y, w, h) ->
  get_face_center (x, y, w, h) = (x + w / 2, y + h / 2).
Proof.
  intros HW HH Hf.
  destruct (offsets_in_frame _ _ _ _ _ _ HW HH Hf) as (_ & _ & Hcx & Hcy).
  unfold get_face_center. rewrite !wrap32_exact by lia. reflexivity.
Qed.

Lemma dist2_in_frame frame_width frame_height f :
  0 <= frame_width <= max_frame_side ->
  0 <= frame_height <= max_frame_side ->
  in_frame frame_width frame_height f ->
  dist2 (get_face_center f) (frame_center frame_width frame_height)
  = centre_offset2 frame_width frame_height f /\
  0 <= centre_offset2 frame_width frame_height f.
Proof.
  destruct f as [[[x y] w] h]. intros HW HH Hf.
  rewrite (get_face_center_in_frame _ _ _ _ _ _ HW HH Hf).
  destruct (offsets_in_frame _ _ _ _ _ _ HW HH Hf) as (Hdx & Hdy & _ & _).
  unfold dist2, frame_center, centre_offset2. cbn [fst snd].
  pose proof (square_bound _ Hdx). pose proof (square_bound _ Hdy).
  rewrite (wrap32_exact (x + w / 2 - frame_width / 2)) by lia.
  rewrite (wrap32_exact (y + h / 2 - frame_height / 2)) by lia.
  rewrite (wrap32_exact ((x + w / 2 - frame_width / 2) ^ 2)) by lia.
  rewrite (wrap32_exact ((y + h / 2 - frame_height / 2) ^ 2)) by lia.
  rewrite wrap32_exact by lia. lia.
Qed.

Section Closest.

Variable np_sqrt : Q -> Q.
Variables frame_width frame_height : Z.

(** [np.sqrt] is strictly increasing on the non-negative integers. *)
Hypothesis np_sqrt_incr :
  forall a b : Z, 0 <= a < b ->
    (np_sqrt (inject_Z a) < np_sqrt (inject_Z b))%Q.

Hypothesis width_bounded : 0 <= frame_width <= max_frame_side.
Hypothesis height_bounded : 0 <= frame_height <= max_frame_side.

Local Abbreviation d2 := (centre_offset2 frame_width frame_height).
Local Abbreviation dist := (distance np_sqrt frame_width frame_height).
Local Abbreviation visible := (in_frame frame_width frame_height).

Lemma distance_in_frame f :
  visible f -> dist f = Number (np_sqrt (inject_Z (d2 f))).
Proof.
  intros Hf.
  destruct (dist2_in_frame _ _ f width_bounded height_bounded Hf) as [E H0].
  unfold distance. rewrite E.
  destruct (Z.ltb_spec (d2 f) 0); [lia | reflexivity].
Qed.

Lemma np_sqrt_lt a b :
  0 <= a -> 0 <= b ->
  Qltb (np_sqrt (inject_Z a)) (np_sqrt (inject_Z b)) = true <-> a < b.
Proof.
  intros Ha Hb. rewrite Qltb_lt. split.
  - intros H. destruct (Z_lt_le_dec a b) as [| Hge]; [assumption |].
    exfalso. destruct (Z.eq_dec b a) as [E | Hne].
    + rewrite E in H. revert H. apply Qlt_irrefl.
    + assert ((np_sqrt (inject_Z b) < np_sqrt (inject_Z a))%Q)
        by (apply np_sqrt_incr; lia).
      lra.
  - intros H. apply np_sqrt_incr. lia.
Qed.

Lemma distance_lt f g :
  visible f -> visible g ->
  float_lt (dist f) (dist g) = true <-> d2 f < d2 g.
Proof.
  intros Hf Hg. rewrite !distance_in_frame by assumption.
  cbn [float_lt]. apply np_sqrt_lt.
  - now destruct (dist2_in_frame _ _ f width_bounded height_bounded Hf).
  - now destruct (dist2_in_frame _ _ g width_bounded height_bounded Hg).
Qed.

(** The loop invariant: the accumulators hold the first nearest face of
    the part already scanned. *)
Lemma closest_loop_spec rest : forall scanned i f,
  Forall visible rest -> visible f ->
  first_nearest frame_width frame_height scanned i f ->
  exists i' f',
    closest_loop np_sqrt frame_width frame_height rest (Some f) (dist f)
    = Some f' /\
    first_nearest frame_width frame_height (scanned ++ rest) i' f'.
Proof.
  induction rest as [| g rest IH]; intros scanned i f Hrest Hvis Hf.
  - exists i, f. now rewrite app_nil_r.
  - cbn [closest_loop].
    apply Forall_cons in Hrest as [Hg Hrest].
    replace (scanned ++ g :: rest) with ((scanned ++ [g]) ++ rest)
      by now rewrite <- app_assoc.
    destruct Hf as (Hi & Hmin & Hfirst).
    destruct (float_lt (dist g) (dist f)) eqn:E.
    + apply distance_lt in E; [| assumption ..].
      apply (IH (scanned ++ [g]) (length scanned) g Hrest Hg).
      split; [| split].
      * now rewrite lookup_app_r, Nat.sub_diag by lia.
      * intros j h Hj. apply lookup_app_Some in Hj as [Hj | [_ Hj]].
        -- specialize (Hmin j h Hj). lia.
        -- apply list_lookup_singleton_Some in Hj as [_ <-]. lia.
      * intros j h Hlt Hj. rewrite lookup_app_l in Hj by assumption.
        specialize (Hmin j h Hj). lia.
    + assert (~ d2 g < d2 f) as Hge
          by (rewrite <- distance_lt by assumption; congruence).
      apply (IH (scanned ++ [g]) i f Hrest Hvis).
      split; [| split].
      * apply lookup_app_l_Some. assumption.
      * intros j h Hj. apply lookup_app_Some in Hj as [Hj | [_ Hj]].
        -- exact (Hmin j h Hj).
        -- apply list_lookup_singleton_Some in Hj as [_ <-]. lia.
      * intros j h Hlt Hj.
        assert (i < length scanned)%nat by (eapply lookup_lt_Some; eassumption).
        rewrite lookup_app_l in Hj by lia.
        exact (Hfirst j h Hlt Hj).
Qed.

Lemma get_closest_face_spec faces :
  Forall visible faces ->
  selects_nearest np_sqrt frame_width frame_height faces.
Proof.
  intros Hvis Hne.
  destruct faces as [| f rest]; [congruence |].
  apply Forall_cons in Hvis as [Hf Hrest].
  cbn [get_closest_face closest_loop].
  rewrite (distance_in_frame f Hf). cbn [float_lt].
  rewrite <- (distance_in_frame f Hf).
  apply (closest_loop_spec rest [f] 0%nat f Hrest Hf).
  split; [reflexivity | split].
  - intros j g Hj. apply list_lookup_singleton_Some in Hj as [_ <-]. lia.
  - intros j g Hlt. lia.
Qed.

End Closest.

(** The first nearest face of a list is unique. *)
Lemma first_nearest_unique frame_width frame_height faces i f i' f' :
  first_nearest frame_width frame_height faces i f ->
  first_nearest frame_width frame_height faces i' f' ->
  i = i' /\ f = f'.
Proof.
  intros (Hi & Hmin & Hfirst) (Hi' & Hmin' & Hfirst').
  assert (i = i') as <-.
  { destruct (Nat.lt_trichotomy i i') as [Hlt | [E | Hlt]]; [| exact E |].
    - specialize (Hfirst' i f Hlt Hi). specialize (Hmin i' f' Hi'). lia.
    - specialize (Hfirst i' f' Hlt Hi'). specialize (Hmin' i f Hi). lia. }
  split; [reflexivity | congruence].
Qed.

(** C8, amended.  On an empty list [get_closest_face] returns [None].  On
    a non-empty list of rectangles that lie inside a frame of at most
    65534 pixels either way it returns the listed face whose centre
    [(x + w // 2, y + h // 2)] is nearest to the frame centre
    [(frame_width // 2, frame_height // 2)] in Euclidean distance, the
    first listed among equally near ones: the result is the first nearest
    face, and no other. *)
Theorem closest_face_first_nearest np_sqrt frame_width frame_height faces :
  (forall a b : Z, 0 <= a < b ->
     (np_sqrt (inject_Z a) < np_sqrt (inject_Z b))%Q) ->
  0 <= frame_width <= max_frame_side ->
  0 <= frame_height <= max_frame_side ->
  Forall (in_frame frame_width frame_height) faces ->
  get_closest_face np_sqrt frame_width frame_height [] = None /\
  selects_nearest np_sqrt frame_width frame_height faces /\
  (forall i f,
     first_nearest frame_width frame_height faces i f ->
     get_closest_face np_sqrt frame_width frame_height faces = Some f).
Proof.
  intros Hincr HW HH Hvis.
  pose proof (get_closest_face_spec np_sqrt frame_width frame_height
                Hincr HW HH faces Hvis) as Hsel.
  split; [reflexivity |]. split; [exact Hsel |].
  intros i f Hf.
  destruct (Hsel ltac:(destruct Hf as [Hi _]; intros ->; discriminate))
    as (i' & f' & E & Hf').
  destruct (first_nearest_unique _ _ _ _ _ _ _ Hf Hf') as [_ ->].
  exact E.
Qed.

Lemma id_curve_incr (a b : Z) :
  0 <= a < b ->
  (id_curve (inject_Z a) < id_curve (inject_Z b))%Q.
Proof. intros [_ H]. unfold id_curve. now rewrite <- Zlt_Qlt. Qed.

Lemma three_faces_first_nearest :
  first_nearest 640 480 three_faces 1 face_left_10.
Proof.
  split; [reflexivity | split].
  - intros [| [| [| j]]] g Hj; cbn in Hj; try discriminate;
      inversion Hj; subst; vm_compute; discriminate.
  - intros [| j] g Hlt Hj; [| lia].
    cbn in Hj. inversion Hj; subst. vm_compute. reflexivity.
Qed.

Lemma closest_face_first_nearest_witness :
  first_nearest 640 480 three_faces 1 face_left_10 /\
  get_closest_face id_curve 640 480 three_faces = Some face_left_10.
Proof.
  split; [exact three_faces_first_nearest |].
  apply (closest_face_first_nearest id_curve 640 480 three_faces)
    with (i := 1%nat).
  - exact id_curve_incr.
  - unfold max_frame_side. lia.
  - unfold max_frame_side. lia.
  - repeat constructor; vm_compute; discriminate.
  - exact three_faces_first_nearest.
Defined.

(** In a frame 200000 pixels wide the squares wrap around.  A single face
    50000 px from the centre has a squared distance below zero, a NaN
    distance, and is not returned at all; a face 65536 px from the centre
    has squared distance 0 and is preferred to one 10 px from it. *)
Lemma wrapped_squares_lose_the_nearest :
  in_frame 200000 480 face_right_50000 /\
  get_closest_face id_curve 200000 480 [face_right_50000] = None /\
  ~ selects_nearest id_curve 200000 480 [face_right_50000] /\
  get_closest_face id_curve 200000 480
                   [face_right_10_wide; face_right_65536]
  = Some face_right_65536.
Proof.
  split; [vm_compute; repeat split; discriminate |].
  split; [vm_compute; reflexivity |]. split.
  - intros H. destruct (H ltac:(discriminate)) as (i & f & E & _).
    vm_compute in E. discriminate.
  - vm_compute. reflexivity.
Qed.

(** The scenario of the specification: one face 50 px from the centre
    and two faces 10 px from it, on either side; the first of the two
    near ones is selected, whatever increasing [np.sqrt] is used. *)
Example nearest_then_first np_sqrt :
  (forall a b : Z, 0 <= a < b ->
     (np_sqrt (inject_Z a) < np_sqrt (inject_Z b))%Q) ->
  get_closest_face np_sqrt 640 480 three_faces = Some face_left_10.
Proof.
  intros Hincr.
  assert (Forall (in_frame 640 480) three_faces) as Hvis
      by (repeat constructor; vm_compute; discriminate).
  destruct (get_closest_face_spec np_sqrt 640 480 Hincr
              ltac:(unfold max_frame_side; lia)
              ltac:(unfold max_frame_side; lia) three_faces Hvis
              ltac:(discriminate)) as (i & f & -> & Hf).
  f_equal.
  now destruct (first_nearest_unique _ _ _ _ _ _ _ Hf
                  three_faces_first_nearest).
Qed.

End FaceTrackerProps.

(** ** eye_controller.py: gaze mapping and the write batch *)

Module EyeControllerProps.

Import ServoConfig EyeController.
Local Open Scope Q_scope.

(** *** The write loop *)

Lemma write_batch_config hw batch : forall e,
  config (fst (write_batch hw e batch)) = config e.
Proof.
  induction batch as [| [n a] rest IH]; intros e; cbn; [reflexivity |].
  destruct (get_channel (config e) n) as [c |].
  - destruct (get_angle_range (config e) n) as [lo hi].
    destruct (hw c (clamp lo hi a)); [reflexivity |].
    now rewrite IH.
  - now rewrite IH.
Qed.

Lemma planned_cons cfg n a rest :
  planned cfg ((n, a) :: rest)
  = match get_channel cfg n with
    | Some channel =>
        let '(min_angle, max_angle) := get_angle_range cfg n in
        (n, Some channel, clamp min_angle max_angle a)
    | None => (n, None, a)
    end :: planned cfg rest.
Proof. reflexivity. Qed.

(** The loop performs exactly the accepted part of its plan. *)
Lemma write_batch_accepted hw batch : forall e,
  let r := write_batch hw e batch in
  let done := accepted hw (planned (config e) batch) in
  servo_writes (fst r) = servo_writes e ++ hardware_writes done /\
  current_angles (fst r) = apply_angles (current_angles e) done /\
  position_updates (fst r) = position_updates e /\
  (snd r = true <-> done = planned (config e) batch).
Proof.
  induction batch as [| [n a] rest IH]; intros e.
  - cbn. rewrite app_nil_r. repeat split; reflexivity.
  - cbv zeta. rewrite planned_cons. cbn [write_batch].
    destruct (get_channel (config e) n) as [c |] eqn:Ec.
    + destruct (get_angle_range (config e) n) as [lo hi].
      cbn [accepted].
      destruct (hw c (clamp lo hi a)) eqn:Eh.
      * cbn. rewrite app_nil_r. repeat split; try reflexivity; discriminate.
      * specialize (IH (record_write e n c (clamp lo hi a))).
        cbv zeta in IH. cbn [config record_write] in IH.
        destruct IH as (Hw & Ha & Hp & Hd).
        rewrite Hw, Ha, Hp. cbn. rewrite <- app_assoc.
        repeat split; try reflexivity.
        -- intros H. f_equal. exact (proj1 Hd H).
        -- intros H. apply (proj2 Hd). congruence.
    + cbn [accepted].
      specialize (IH (record_angle e n a)).
      cbv zeta in IH. cbn [config record_angle] in IH.
      destruct IH as (Hw & Ha & Hp & Hd).
      rewrite Hw, Ha, Hp. cbn.
      repeat split; try reflexivity.
      -- intros H. f_equal. exact (proj1 Hd H).
      -- intros H. apply (proj2 Hd). congruence.
Qed.

Lemma accepted_all hw plan :
  (forall n c a, In (n, Some c, a) plan -> hw c a = None) ->
  accepted hw plan = plan.
Proof.
  induction plan as [| [[n [c |]] a] rest IH]; intros H; cbn.
  - reflexivity.
  - rewrite (H n c a) by (left; reflexivity).
    f_equal. apply IH. intros; eapply H; right; eassumption.
  - f_equal. apply IH. intros; eapply H; right; eassumption.
Qed.

(** C4, amended.  The angles of a tick are all computed before the first
    servo write.  Without a servo kit, or when the mapping raises, the
    tick leaves the controller as it was.  Otherwise the tick performs
    the planned writes of the batch, in order, up to the first one the
    bus refuses: when no write raises, every axis of the batch is written
    and recorded; a write that raises ends the tick, the axes before it
    stay written and the others stay as they were. *)
Theorem track_position_writes_prefix hw e face_x face_y frame_width frame_height :
  let e' := track_position hw e face_x face_y frame_width frame_height in
  (has_servo_kit e = false -> e' = e) /\
  (compute_angles e face_x face_y frame_width frame_height = None ->
   e' = e) /\
  (forall batch,
     has_servo_kit e = true ->
     compute_angles e face_x face_y frame_width frame_height = Some batch ->
     let done := accepted hw (planned (config e) batch) in
     servo_writes e' = servo_writes e ++ hardware_writes done /\
     current_angles e' = apply_angles (current_angles e) done /\
     ((forall n c a, In (n, Some c, a) (planned (config e) batch) ->
                     hw c a = None) ->
      done = planned (config e) batch)).
Proof.
  cbv zeta. unfold track_position. split; [| split].
  - now intros ->.
  - intros ->. now destruct (negb (has_servo_kit e)).
  - intros batch -> ->. cbn [negb].
    destruct (write_batch_accepted hw batch e) as (Hw & Ha & _ & _).
    destruct (write_batch hw e batch) as [e' [|]]; cbn [fst] in *.
    + split; [| split]; [| | apply accepted_all].
      * destruct (has_position_callback e'), batch; exact Hw.
      * destruct (has_position_callback e'), batch; exact Ha.
    + split; [exact Hw | split; [exact Ha | apply accepted_all]].
Qed.

Lemma track_position_writes_prefix_witness :
  servo_writes (track_position (bus_failing_on 1) (new InMoovHeadConfig)
                               320 240 640 480)
  = [] ++ hardware_writes
            (accepted (bus_failing_on 1)
               (planned InMoovHeadConfig centre_batch_inmoov)).
Proof.
  apply (track_position_writes_prefix (bus_failing_on 1)
           (new InMoovHeadConfig) 320 240 640 480).
  - reflexivity.
  - vm_compute. reflexivity.
Defined.

(** With four eye axes and a bus that refuses channel 1, the tick writes
    channel 0 alone: one eye axis is updated and the other three are
    stale. *)
Lemma track_position_partial_write :
  ~ all_or_none (bus_failing_on 1) (new InMoovHeadConfig) 320 240 640 480.
Proof.
  unfold all_or_none. intros [H | (batch & Hb & H)].
  - vm_compute in H. discriminate.
  - vm_compute in Hb. injection Hb as <-.
    vm_compute in H. discriminate.
Qed.

Example track_position_all_axes :
  channels_written (new InMoovHeadConfig)
    (track_position bus_ok (new InMoovHeadConfig) 320 240 640 480)
  = [0; 1; 4; 5]%Z.
Proof. vm_compute. reflexivity. Qed.

(** *** The gaze mapping *)

Lemma map_value_some value in_min in_max out_min out_max :
  ~ in_max - in_min == 0 ->
  map_value value in_min in_max out_min out_max
  = Some ((value - in_min) * (out_max - out_min) / (in_max - in_min)
          + out_min).
Proof.
  intros H. unfold map_value.
  destruct (Qeq_bool (in_max - in_min) 0) eqn:E; [| reflexivity].
  apply Qeq_bool_eq in E. contradiction.
Qed.

Lemma inject_Z_eq0 (z : Z) : inject_Z z == 0 -> z = 0%Z.
Proof. intros H. exact (proj1 (inject_Z_injective z 0) H). Qed.

Lemma inject_Z_nonzero (z : Z) : z <> 0%Z -> ~ inject_Z z - 0 == 0.
Proof.
  intros Hz H. apply Hz. apply inject_Z_injective.
  change (inject_Z z == 0). lra.
Qed.

Lemma angle_of_app l l' n :
  angle_of (l ++ l') n
  = match angle_of l n with Some a => Some a | None => angle_of l' n end.
Proof.
  induction l as [| [m a] l IH]; cbn; [reflexivity |].
  destruct (String.eqb m n); [reflexivity | exact IH].
Qed.

(** An axis block contributes its own axis, when the rig has it, and
    nothing else. *)
Lemma axis_entry_spec cfg servo_name angle (g : Q * Q -> Q) :
  (forall r, angle r = Some (g r)) ->
  exists l,
    axis_entry cfg servo_name angle = Some l /\
    forall n,
      angle_of l n
      = if String.eqb servo_name n
        then match channels cfg !! servo_name with
             | Some _ => Some (g (get_angle_range cfg servo_name))
             | None => None
             end
        else None.
Proof.
  intros Ha. unfold axis_entry.
  destruct (channels cfg !! servo_name); rewrite ?Ha;
    eexists; (split; [reflexivity |]); intros n; cbn;
    now destruct (String.eqb servo_name n).
Qed.

Ltac entry name g l H :=
  let E := fresh "E" in
  let lo := fresh "lo" in
  let hi := fresh "hi" in
  match goal with
  | |- context [axis_entry ?c name ?f] =>
      destruct (axis_entry_spec c name f g) as (l & E & H);
      [ intros [lo hi]; cbn [fst snd];
        rewrite ?map_value_some by assumption; reflexivity
      | rewrite E; clear E; cbn [mbind option_bind] ]
  end.

Lemma compute_angles_spec e face_x face_y frame_width frame_height :
  frame_width <> 0%Z -> frame_height <> 0%Z ->
  exists batch,
    compute_angles e face_x face_y frame_width frame_height = Some batch /\
    (forall servo_name, In servo_name tracked_axes ->
       match channels (config e) !! servo_name with
       | Some _ =>
           exists a,
             angle_of batch servo_name = Some a /\
             a == gaze_formula e servo_name (inject_Z face_x)
                    (inject_Z face_y) (inject_Z frame_width)
                    (inject_Z frame_height)
       | None => angle_of batch servo_name = None
       end) /\
    (forall servo_name, ~ In servo_name tracked_axes ->
       angle_of batch servo_name = None).
Proof.
  intros Hw Hh. apply inject_Z_nonzero in Hw, Hh.
  unfold compute_angles.
  set (fx := inject_Z face_x). set (fy := inject_Z face_y).
  set (w := inject_Z frame_width) in *. set (h := inject_Z frame_height) in *.
  pose (gx := fun r : Q * Q => (fx - 0) * (fst r - snd r) / (w - 0) + snd r).
  pose (gy := fun r : Q * Q => (fy - 0) * (fst r - snd r) / (h - 0) + snd r).
  pose (gy' := fun r : Q * Q => (fy - 0) * (snd r - fst r) / (h - 0) + fst r).
  entry "left_eye_x" gx l1 H1.
  entry "left_eye_y" gy' l2 H2.
  entry "right_eye_x"
        (fun r => clamp (fst r) (snd r) (gx r + right_eye_x_offset e)) l3 H3.
  entry "right_eye_y"
        (fun r => clamp (fst r) (snd r) (gy r + right_eye_y_offset e)) l4 H4.
  entry "eye_x" gx l5 H5.
  entry "eye_y" gy l6 H6.
  eexists. split; [reflexivity |]. split.
  - intros n Hn. cbn in Hn.
    rewrite !angle_of_app, H1, H2, H3, H4, H5, H6.
    unfold gaze_formula, with_trim, linear_gaze.
    destruct Hn as [<- | [<- | [<- | [<- | [<- | [<- | []]]]]]]; cbn;
      match goal with
      | |- context [channels (config e) !! ?k] =>
          destruct (channels (config e) !! k); [| reflexivity];
          destruct (get_angle_range (config e) k) as [lo hi]
      end;
      eexists; (split; [reflexivity |]);
      try apply clamp_compat;
      repeat match goal with x := _ |- _ => subst x end;
      cbv beta; cbn [fst snd]; field;
      intros Hc; (apply Hw; lra) || (apply Hh; lra).
  - intros n Hn. cbn in Hn.
    rewrite !angle_of_app, H1, H2, H3, H4, H5, H6.
    repeat match goal with
           | |- context [String.eqb ?k n] =>
               destruct (String.eqb_spec k n) as [E | _];
               [exfalso; apply Hn; rewrite <- E; tauto | cbv iota]
           end.
    reflexivity.
Qed.

Lemma with_trim_compat e n a b :
  a == b -> with_trim e n a == with_trim e n b.
Proof.
  intros H. unfold with_trim.
  destruct (get_angle_range (config e) n) as [lo hi].
  destruct (String.eqb n "right_eye_x");
    [apply clamp_compat; now rewrite H |].
  destruct (String.eqb n "right_eye_y");
    [apply clamp_compat; now rewrite H | exact H].
Qed.

Ltac each_axis Hn :=
  cbn in Hn;
  destruct Hn as [<- | [<- | [<- | [<- | [<- | [<- | []]]]]]].

(** The linear part at the centre and at the two ends of its
    coordinate. *)
Lemma linear_gaze_points e n face_x face_y frame_width frame_height :
  In n tracked_axes ->
  frame_width <> 0%Z -> frame_height <> 0%Z ->
  let c := coordinate n face_x face_y in
  let d := extent n frame_width frame_height in
  let a := linear_gaze e n (inject_Z face_x) (inject_Z face_y)
                       (inject_Z frame_width) (inject_Z frame_height) in
  ((2 * c = d)%Z -> a == midpoint e n) /\
  (c = 0%Z -> a == near_bound e n) /\
  (c = d -> a == far_bound e n).
Proof.
  intros Hn Hw Hh.
  assert (~ inject_Z frame_width == 0) as Hw'
      by (intros H; apply (inject_Z_nonzero _ Hw); lra).
  assert (~ inject_Z frame_height == 0) as Hh'
      by (intros H; apply (inject_Z_nonzero _ Hh); lra).
  unfold linear_gaze, midpoint, near_bound, far_bound.
  each_axis Hn; cbn;
    match goal with
    | |- context [get_angle_range (config e) ?k] =>
        destruct (get_angle_range (config e) k) as [lo hi]
    end;
    (split; [| split]); intros E;
    try (rewrite <- E, inject_Z_mult); try rewrite E;
    field; try assumption;
    intros H0; apply inject_Z_eq0 in H0; lia.
Qed.

Lemma ratio_unit c d : 0 <= c <= d -> 0 < d -> 0 <= c / d <= 1.
Proof.
  intros [H0 H1] Hd. split.
  - apply Qle_shift_div_l; [assumption | lra].
  - apply Qle_shift_div_r; [assumption | lra].
Qed.

Lemma inject_Z_ratio_unit (c d : Z) :
  (0 <= c <= d)%Z -> (0 < d)%Z -> 0 <= inject_Z c / inject_Z d <= 1.
Proof.
  intros [H0 H1] Hd. apply ratio_unit.
  - split.
    + change (inject_Z 0 <= inject_Z c). now rewrite <- Zle_Qle.
    + now rewrite <- Zle_Qle.
  - change (inject_Z 0 < inject_Z d). now rewrite <- Zlt_Qlt.
Qed.

(** Inside the frame the mapped angle stays inside the range of its
    axis, so the clamp of the write loop leaves it alone. *)
Lemma gaze_formula_in_range e n face_x face_y frame_width frame_height :
  In n tracked_axes ->
  (0 <= face_x <= frame_width)%Z -> (0 <= face_y <= frame_height)%Z ->
  (0 < frame_width)%Z -> (0 < frame_height)%Z ->
  fst (get_angle_range (config e) n) <= snd (get_angle_range (config e) n) ->
  let a := gaze_formula e n (inject_Z face_x) (inject_Z face_y)
                        (inject_Z frame_width) (inject_Z frame_height) in
  fst (get_angle_range (config e) n) <= a <= snd (get_angle_range (config e) n).
Proof.
  intros Hn Hx Hy Hw Hh. cbv zeta.
  assert (0 <= inject_Z face_x / inject_Z frame_width <= 1) as Htx
      by (apply inject_Z_ratio_unit; lia).
  assert (0 <= inject_Z face_y / inject_Z frame_height <= 1) as Hty
      by (apply inject_Z_ratio_unit; lia).
  assert (~ inject_Z frame_width == 0) as Hw'
      by (intros H; apply inject_Z_eq0 in H; lia).
  assert (~ inject_Z frame_height == 0) as Hh'
      by (intros H; apply inject_Z_eq0 in H; lia).
  set (tx := inject_Z face_x / inject_Z frame_width) in *.
  set (ty := inject_Z face_y / inject_Z frame_height) in *.
  unfold gaze_formula, with_trim, linear_gaze.
  destruct (get_angle_range (config e) n) as [lo hi]. cbn [fst snd].
  intros Hr.
  assert (forall fx w, ~ w == 0 -> hi + fx * (lo - hi) / w
                                   == hi + (fx / w) * (lo - hi)) as Ex
      by (intros; now field).
  assert (forall fy h, ~ h == 0 -> lo + fy * (hi - lo) / h
                                   == lo + (fy / h) * (hi - lo)) as Ey
      by (intros; now field).
  each_axis Hn; cbn;
    try (apply clamp_bounds; assumption);
    rewrite ?Ex, ?Ey by assumption; fold tx ty; nra.
Qed.

(** The mapping of the axes the mapper looks for.  For a frame of
    non-zero size the mapper yields one angle for each of the axes [left_eye_x], [left_eye_y], [right_eye_x],
    [right_eye_y], [eye_x], [eye_y] that the rig has, and for no other
    name.  The angle is the linear interpolation of the face coordinate:
    X axes from the upper bound at the left edge to the lower bound at
    the right edge, [left_eye_y] from the lower bound at the top to the
    upper bound at the bottom, [right_eye_y] and [eye_y] from the upper
    bound at the top to the lower bound at the bottom; the right-eye axes
    then add their trim offset and are clamped to the range.  So a face
    at the exact centre sends an axis to the midpoint of its range, and a
    face at an edge to the corresponding bound, in both cases plus the
    trim (clamped) on the right-eye axes. *)
Theorem gaze_mapping e face_x face_y frame_width frame_height :
  frame_width <> 0%Z -> frame_height <> 0%Z ->
  exists batch,
    compute_angles e face_x face_y frame_width frame_height = Some batch /\
    (forall n, ~ In n tracked_axes -> angle_of batch n = None) /\
    (forall n, In n tracked_axes ->
       match channels (config e) !! n with
       | None => angle_of batch n = None
       | Some _ =>
           exists a,
             angle_of batch n = Some a /\
             a == gaze_formula e n (inject_Z face_x) (inject_Z face_y)
                    (inject_Z frame_width) (inject_Z frame_height) /\
             let c := coordinate n face_x face_y in
             let d := extent n frame_width frame_height in
             ((2 * c = d)%Z -> a == with_trim e n (midpoint e n)) /\
             (c = 0%Z -> a == with_trim e n (near_bound e n)) /\
             (c = d -> a == with_trim e n (far_bound e n)) /\
             ((0 <= face_x <= frame_width)%Z ->
              (0 <= face_y <= frame_height)%Z ->
              (0 < frame_width)%Z -> (0 < frame_height)%Z ->
              fst (get_angle_range (config e) n)
              <= snd (get_angle_range (config e) n) ->
              fst (get_angle_range (config e) n) <= a
              <= snd (get_angle_range (config e) n))
       end).
Proof.
  intros Hw Hh.
  destruct (compute_angles_spec e face_x face_y frame_width frame_height
              Hw Hh) as (batch & Hb & Hin & Hout).
  exists batch. split; [exact Hb |]. split; [exact Hout |].
  intros n Hn. specialize (Hin n Hn).
  destruct (channels (config e) !! n); [| exact Hin].
  destruct Hin as (a & Ha & Hf). exists a.
  split; [exact Ha |]. split; [exact Hf |].
  destruct (linear_gaze_points e n face_x face_y frame_width frame_height
              Hn Hw Hh) as (Hc & H0 & H1).
  cbv zeta. unfold gaze_formula in Hf.
  split; [| split; [| split]];
    try (intros E; rewrite Hf; apply with_trim_compat; auto).
  intros Hx Hy Hw0 Hh0 Hr. rewrite Hf.
  now apply gaze_formula_in_range.
Qed.

Lemma gaze_mapping_witness :
  exists batch,
    compute_angles (new InMoovHeadConfig) 320 240 640 480 = Some batch /\
    (forall n, ~ In n tracked_axes -> angle_of batch n = None) /\
    (forall n, In n tracked_axes ->
       match channels InMoovHeadConfig !! n with
       | None => angle_of batch n = None
       | Some _ =>
           exists a,
             angle_of batch n = Some a /\
             a == gaze_formula (new InMoovHeadConfig) n
                    (inject_Z 320) (inject_Z 240)
                    (inject_Z 640) (inject_Z 480) /\
             let c := coordinate n 320 240 in
             let d := extent n 640 480 in
             ((2 * c = d)%Z ->
              a == with_trim (new InMoovHeadConfig) n
                     (midpoint (new InMoovHeadConfig) n)) /\
             (c = 0%Z ->
              a == with_trim (new InMoovHeadConfig) n
                     (near_bound (new InMoovHeadConfig) n)) /\
             (c = d ->
              a == with_trim (new InMoovHeadConfig) n
                     (far_bound (new InMoovHeadConfig) n)) /\
             ((0 <= 320 <= 640)%Z -> (0 <= 240 <= 480)%Z ->
              (0 < 640)%Z -> (0 < 480)%Z ->
              fst (get_angle_range InMoovHeadConfig n)
              <= snd (get_angle_range InMoovHeadConfig n) ->
              fst (get_angle_range InMoovHeadConfig n) <= a
              <= snd (get_angle_range InMoovHeadConfig n))
       end).
Proof.
  apply (gaze_mapping (new InMoovHeadConfig) 320 240 640 480); lia.
Defined.

(** On the InMoov rig a face at the exact centre of a 640x480 frame puts
    the left-eye axes and [right_eye_x], whose trim is 0, at the midpoint
    of their range, and [right_eye_y] at the midpoint 82 plus its trim of
    10. *)
Example centre_angles_inmoov :
  option_map (map (fun na : string * Q => (fst na, Qred (snd na))))
    (compute_angles (new InMoovHeadConfig) 320 240 640 480)
  = Some [("left_eye_x", 101); ("left_eye_y", 82);
          ("right_eye_x", 101); ("right_eye_y", 92)].
Proof. vm_compute. reflexivity. Qed.

(** C5.  The failing input.  The Original rig steers both eyes with the
    shared axes [eyes_x] (channel 0, range 57 to 145) and [eyes_y]
    (channel 1, range 52 to 112), the Simple rig likewise.  The mapper
    looks for [eye_x] and [eye_y]: for a face at the left edge or at the
    centre of a 640x480 frame it computes no angle for the axes of these
    rigs, and [track_position] writes nothing and records nothing, where
    the left edge should send [eyes_x] to 145 and the centre to 101. *)
Theorem shared_axes_not_mapped :
  get_channel OriginalConfig "eyes_x" = Some 0%Z /\
  get_angle_range OriginalConfig "eyes_x" = (57, 145) /\
  get_channel OriginalConfig "eyes_y" = Some 1%Z /\
  get_angle_range OriginalConfig "eyes_y" = (52, 112) /\
  compute_angles (new OriginalConfig) 0 240 640 480 = Some [] /\
  track_position bus_ok (new OriginalConfig) 0 240 640 480
  = new OriginalConfig /\
  compute_angles (new OriginalConfig) 320 240 640 480 = Some [] /\
  track_position bus_ok (new OriginalConfig) 320 240 640 480
  = new OriginalConfig /\
  get_channel SimpleConfig "eyes_x" = Some 0%Z /\
  compute_angles (new SimpleConfig) 0 240 640 480 = Some [] /\
  track_position bus_ok (new SimpleConfig) 0 240 640 480
  = new SimpleConfig.
Proof.
  repeat match goal with |- _ /\ _ => split end; vm_compute; reflexivity.
Qed.

End EyeControllerProps.

(** ** voice_assistant_server.py: dead band and disconnection of the jaw *)

Module ServerProps.

Import Server.
Local Open Scope Q_scope.

(** The body of [control_jaw_servo_direct] once the guard and the two
    settings look-ups have passed. *)
Lemma control_jaw_unfold hw st p close_angle open_angle :
  SERVO_AVAILABLE st = true ->
  settings st !! "jaw_close_angle" = Some close_angle ->
  settings st !! "jaw_open_angle" = Some open_angle ->
  control_jaw_servo_direct hw st p
  = if Qltb (min_change st)
            (Qabs (jaw_angle close_angle open_angle p
                   - jaw_angle close_angle open_angle (jaw_position st)))
    then match hw JAW_CHANNEL
                 (clamp_angle (jaw_angle close_angle open_angle p)) with
         | None =>
             {| SERVO_AVAILABLE := true; settings := settings st;
                jaw_position := p;
                servo_writes :=
                  servo_writes st
                  ++ [(JAW_CHANNEL,
                       clamp_angle (jaw_angle close_angle open_angle p))] |}
         | Some msg => handle_error st msg
         end
    else st.
Proof.
  intros Ha Hc Ho. unfold control_jaw_servo_direct, min_change.
  rewrite Ha, Hc, Ho. reflexivity.
Qed.

Lemma target_angle_settings st p a :
  target_angle st p = Some a ->
  exists close_angle open_angle,
    settings st !! "jaw_close_angle" = Some close_angle /\
    settings st !! "jaw_open_angle" = Some open_angle /\
    a = jaw_angle close_angle open_angle p.
Proof.
  unfold target_angle.
  destruct (settings st !! "jaw_close_angle") as [c |]; [| discriminate].
  destruct (settings st !! "jaw_open_angle") as [o |]; [| discriminate].
  cbn [mbind option_bind]. intros [= <-]. eauto.
Qed.


(** Once [SERVO_AVAILABLE] is cleared, every request returns at once. *)
Lemma unavailable_noop hw st p :
  SERVO_AVAILABLE st = false -> control_jaw_servo_direct hw st p = st.
Proof. intros H. unfold control_jaw_servo_direct. now rewrite H. Qed.

Lemma unavailable_run requests : forall st,
  SERVO_AVAILABLE st = false -> run st requests = st.
Proof.
  induction requests as [| [hw p] rest IH]; intros st H; cbn;
    [reflexivity |].
  rewrite (unavailable_noop hw st p H). now apply IH.
Qed.

(** C9, amended.  When the write of a jaw request raises an error whose
    text contains "No such device" or, in any letter case,
    "disconnected", the request clears [SERVO_AVAILABLE] and changes
    nothing else; from then on every jaw request, whatever the bus does,
    returns at once: no hardware write, and the tracked jaw position
    stays where it was.  An error with any other text leaves the state,
    flag included, untouched.  The request always returns: no error
    leaves the function. *)
Theorem disconnection_disables_jaw hw st p a d msg :
  SERVO_AVAILABLE st = true ->
  target_angle st p = Some a ->
  angle_change st p = Some d -> min_change st < d ->
  hw JAW_CHANNEL (clamp_angle a) = Some msg ->
  let st' := control_jaw_servo_direct hw st p in
  (is_disconnection msg = true ->
   SERVO_AVAILABLE st' = false /\
   settings st' = settings st /\
   jaw_position st' = jaw_position st /\
   servo_writes st' = servo_writes st /\
   forall requests, run st' requests = st') /\
  (is_disconnection msg = false -> st' = st).
Proof.
  intros Ha Ht Hd Hlt Hhw.
  destruct (target_angle_settings st p a Ht) as (c & o & Ec & Eo & ->).
  unfold angle_change in Hd. rewrite Ec, Eo in Hd.
  cbn [mbind option_bind] in Hd.
  apply (inj Some) in Hd. subst d.
  cbv zeta. rewrite (control_jaw_unfold hw st p c o Ha Ec Eo).
  apply Qltb_lt in Hlt. rewrite Hlt, Hhw. unfold handle_error.
  split; intros ->.
  - cbn. repeat split. intros requests. now apply unavailable_run.
  - reflexivity.
Qed.

Lemma disconnection_disables_jaw_witness :
  let st' := control_jaw_servo_direct bus_unplugged startup 50 in
  (is_disconnection "[Errno 19] No such device" = true ->
   SERVO_AVAILABLE st' = false /\
   settings st' = settings startup /\
   jaw_position st' = jaw_position startup /\
   servo_writes st' = servo_writes startup /\
   forall requests, run st' requests = st') /\
  (is_disconnection "[Errno 19] No such device" = false -> st' = startup).
Proof.
  apply (disconnection_disables_jaw bus_unplugged startup 50
           (0 + (100 - 0) * (50 / 100))
           (Qabs (0 + (100 - 0) * (50 / 100) - (0 + (100 - 0) * (0 / 100))))
           "[Errno 19] No such device"); reflexivity.
Defined.

(** After the device has gone, a request for 80 % is not written, and the
    tracked jaw position stays at 0 instead of taking the value 80. *)
Lemma no_table_update_after_disconnection :
  ~ table_only_noop bus_ok
      (control_jaw_servo_direct bus_unplugged startup 50) 80.
Proof.
  unfold table_only_noop. intros [_ H]. vm_compute in H. discriminate.
Qed.

Example glitch_keeps_servo_available :
  SERVO_AVAILABLE (control_jaw_servo_direct bus_glitch startup 50) = true.
Proof. reflexivity. Qed.

End ServerProps.


(** ** voice_assistant_server.py: the dead band of the jaw, in floats *)

Module JawFloatProps.

Import PrimFloat JawFloat.
Local Open Scope float_scope.

(** The body of [control_jaw_servo_direct] once the guard and the two
    settings look-ups have passed. *)
Lemma control_jaw_body hw st p close_angle open_angle :
  SERVO_AVAILABLE st = true ->
  settings st !! "jaw_close_angle" = Some close_angle ->
  settings st !! "jaw_open_angle" = Some open_angle ->
  control_jaw_servo_direct hw st p
  = if min_change st
       <? abs (jaw_angle close_angle open_angle p
               - jaw_angle close_angle open_angle (jaw_position st))
    then match hw JAW_CHANNEL
                 (clamp_angle (jaw_angle close_angle open_angle p)) with
         | None =>
             {| SERVO_AVAILABLE := true; settings := settings st;
                jaw_position := p;
                servo_writes :=
                  servo_writes st
                  ++ [(JAW_CHANNEL,
                       clamp_angle (jaw_angle close_angle open_angle p))] |}
         | Some msg => handle_error st msg
         end
    else st.
Proof.
  intros Ha Hc Ho. unfold control_jaw_servo_direct, min_change.
  rewrite Ha, Hc, Ho. reflexivity.
Qed.

Lemma target_angle_angles st p a :
  target_angle st p = Some a ->
  exists close_angle open_angle,
    settings st !! "jaw_close_angle" = Some close_angle /\
    settings st !! "jaw_open_angle" = Some open_angle /\
    a = jaw_angle close_angle open_angle p.
Proof.
  unfold target_angle.
  destruct (settings st !! "jaw_close_angle") as [c |]; [| discriminate].
  destruct (settings st !! "jaw_open_angle") as [o |]; [| discriminate].
  cbn [mbind option_bind]. intros [= <-]. eauto.
Qed.

(** A request whose computed change is not above the dead band changes
    nothing. *)
Lemma request_in_band hw st p d :
  SERVO_AVAILABLE st = true ->
  angle_change st p = Some d -> (min_change st <? d) = false ->
  control_jaw_servo_direct hw st p = st.
Proof.
  intros Ha Hd Hle. unfold angle_change in Hd.
  destruct (settings st !! "jaw_close_angle") as [c |] eqn:Ec; [| discriminate].
  destruct (settings st !! "jaw_open_angle") as [o |] eqn:Eo; [| discriminate].
  cbn [mbind option_bind] in Hd. injection Hd as <-.
  rewrite (control_jaw_body hw st p c o Ha Ec Eo). now rewrite Hle.
Qed.

(** A request whose computed change is above the dead band, on a bus that
    takes the write, is written and becomes the tracked position. *)
Lemma request_written hw st p a d :
  SERVO_AVAILABLE st = true ->
  target_angle st p = Some a ->
  angle_change st p = Some d -> (min_change st <? d) = true ->
  hw JAW_CHANNEL (clamp_angle a) = None ->
  control_jaw_servo_direct hw st p
  = {| SERVO_AVAILABLE := true; settings := settings st;
       jaw_position := p;
       servo_writes := servo_writes st ++ [(JAW_CHANNEL, clamp_angle a)] |}.
Proof.
  intros Ha Ht Hd Hlt Hhw.
  destruct (target_angle_angles st p a Ht) as (c & o & Ec & Eo & ->).
  unfold angle_change in Hd. rewrite Ec, Eo in Hd.
  cbn [mbind option_bind] in Hd. injection Hd as <-.
  rewrite (control_jaw_body hw st p c o Ha Ec Eo).
  now rewrite Hlt, Hhw.
Qed.

(** C3, amended.  With the servo available, a jaw request whose angle
    change from the tracked position (the last accepted write), as the
    function computes it in floats, is not greater than [min_change]
    reaches no hardware and leaves the tracked position as it was.  Hence,
    after a first request that is written, a second request whose angle is
    not more than [min_change] away from the first is suppressed, so the
    two make exactly one write, the first; and a third request whose angle
    is more than [min_change] away from the first makes the second
    write. *)
Theorem jaw_deadband st :
  SERVO_AVAILABLE st = true ->
  (forall hw p d,
     angle_change st p = Some d -> (min_change st <? d) = false ->
     control_jaw_servo_direct hw st p = st) /\
  (forall hw1 hw2 hw3 p1 p2 p3 a1 a2 a3 d1,
     target_angle st p1 = Some a1 ->
     target_angle st p2 = Some a2 ->
     target_angle st p3 = Some a3 ->
     angle_change st p1 = Some d1 -> (min_change st <? d1) = true ->
     hw1 JAW_CHANNEL (clamp_angle a1) = None ->
     (min_change st <? abs (a2 - a1)) = false ->
     (min_change st <? abs (a3 - a1)) = true ->
     hw3 JAW_CHANNEL (clamp_angle a3) = None ->
     let s1 := control_jaw_servo_direct hw1 st p1 in
     let s2 := control_jaw_servo_direct hw2 s1 p2 in
     let s3 := control_jaw_servo_direct hw3 s2 p3 in
     servo_writes s2 = servo_writes st ++ [(JAW_CHANNEL, clamp_angle a1)] /\
     jaw_position s2 = p1 /\
     servo_writes s3
     = servo_writes st
       ++ [(JAW_CHANNEL, clamp_angle a1); (JAW_CHANNEL, clamp_angle a3)] /\
     jaw_position s3 = p3).
Proof.
  intros Ha. split; [intros hw p d; now apply request_in_band |].
  intros hw1 hw2 hw3 p1 p2 p3 a1 a2 a3 d1 T1 T2 T3 D1 Hd1 Hw1 H21 H31 Hw3.
  cbv zeta.
  rewrite (request_written hw1 st p1 a1 d1 Ha T1 D1 Hd1 Hw1).
  set (s1 := {| SERVO_AVAILABLE := true; settings := settings st;
                jaw_position := p1;
                servo_writes :=
                  servo_writes st ++ [(JAW_CHANNEL, clamp_angle a1)] |}).
  destruct (target_angle_angles st p1 a1 T1) as (c & o & Ec & Eo & E1).
  assert (target_angle st p2 = Some (jaw_angle c o p2)) as T2'
      by (unfold target_angle; now rewrite Ec, Eo).
  assert (target_angle st p3 = Some (jaw_angle c o p3)) as T3'
      by (unfold target_angle; now rewrite Ec, Eo).
  assert (a2 = jaw_angle c o p2) as E2 by congruence.
  assert (a3 = jaw_angle c o p3) as E3 by congruence.
  assert (control_jaw_servo_direct hw2 s1 p2 = s1) as ->.
  { apply (request_in_band hw2 s1 p2 (abs (a2 - a1)));
      [reflexivity | | exact H21].
    unfold angle_change. cbn [settings jaw_position s1].
    rewrite Ec, Eo. cbn [mbind option_bind]. now rewrite E1, E2. }
  rewrite (request_written hw3 s1 p3 a3 (abs (a3 - a1))); try assumption;
    try reflexivity.
  - cbn [servo_writes s1]. rewrite <- app_assoc. repeat split.
  - unfold angle_change. cbn [settings jaw_position s1].
    rewrite Ec, Eo. cbn [mbind option_bind]. now rewrite E1, E3.
Qed.

Lemma jaw_deadband_witness :
  let s2 := run startup [(bus_ok, 50); (bus_glitch, 51)] in
  let s3 := run startup [(bus_ok, 50); (bus_glitch, 51); (bus_ok, 53)] in
  servo_writes s2 = [] ++ [(JAW_CHANNEL, clamp_angle 50)] /\
  jaw_position s2 = 50 /\
  servo_writes s3
  = [] ++ [(JAW_CHANNEL, clamp_angle 50); (JAW_CHANNEL, clamp_angle 53)] /\
  jaw_position s3 = 53.
Proof.
  apply (proj2 (jaw_deadband startup eq_refl)
           bus_ok bus_glitch bus_ok 50 51 53 50 51 53 50);
    vm_compute; reflexivity.
Defined.

(** From the closed jaw the requests 1 % and 2 % both ask for an angle
    within the dead band of 2 degrees: neither is written, so the two make
    no write at all, not one. *)
Lemma first_request_in_band :
  angle_change startup 1 = Some 1 /\ angle_change startup 2 = Some 2 /\
  min_change startup = 2 /\
  servo_writes (run startup [(bus_ok, 1); (bus_ok, 2)]) = [] /\
  ~ two_requests_one_write bus_ok startup 1 2.
Proof.
  repeat match goal with |- _ /\ _ => split end;
    try (vm_compute; reflexivity).
  intros H. specialize (H 1 1 2). vm_compute in H.
  specialize (H eq_refl eq_refl eq_refl eq_refl eq_refl). discriminate.
Qed.

(** The band is measured from the last accepted write, so small steps add
    up: from the closed jaw the requests 1 %, 2 % and 3 % end in one write,
    when the third has moved 3 degrees away. *)
Example small_steps_add_up :
  servo_writes (run startup [(bus_ok, 1); (bus_ok, 2); (bus_ok, 3)])
  = [(JAW_CHANNEL, 3)].
Proof. vm_compute. reflexivity. Qed.

(** At the edge of the band the rounding decides.  After 1 % a request for
    3 % computes a change of exactly 2 and is suppressed; after 5 % a
    request for 7 % computes [100 * 0.07 - 5], a little more than 2, and
    is written. *)
Example rounding_at_the_edge :
  angle_change (run startup [(bus_ok, 50); (bus_ok, 1)]) 3 = Some 2 /\
  servo_writes (run startup [(bus_ok, 50); (bus_ok, 1); (bus_ok, 3)])
  = [(JAW_CHANNEL, 50); (JAW_CHANNEL, 1)] /\
  angle_change (run startup [(bus_ok, 5)]) 7 = Some 0x1.0000000000002p+1 /\
  servo_writes (run startup [(bus_ok, 5); (bus_ok, 7)])
  = [(JAW_CHANNEL, 5); (JAW_CHANNEL, 0x1.c000000000001p+2)].
Proof. repeat split; vm_compute; reflexivity. Qed.

End JawFloatProps.

(** ** The audio loop end to end *)

(** A silent chunk on a fresh controller: the opening is 0, the viseme
    CLOSED, and the jaw request changes nothing. *)
Example silent_chunk_end_to_end :
  let r := AudioMouth.process_audio_chunk id_curve id_curve
             AudioMouth.default_config AudioMouth.init
             AudioMouth.silent_chunk in
  snd r = Some 0%Q /\
  AudioMouth.get_viseme_from_opening 0 = AudioMouth.CLOSED /\
  Server.control_jaw_servo_direct bus_ok Server.startup 0 = Server.startup.
Proof. repeat split; vm_compute; reflexivity. Qed.

(** ** audio_mouth_controller.py: decoding, window, pauses, convergence *)

Module AudioMouthRunsProps.

Import AudioMouth AudioMouthRuns AudioMouthProps.
Local Open Scope Q_scope.

(** *** Decoding the buffer *)

Lemma int16_of_bytes_range lo hi :
  (-32768 <= int16_of_bytes lo hi <= 32767)%Z.
Proof.
  unfold int16_of_bytes.
  pose proof (Byte.to_N_bounded lo). pose proof (Byte.to_N_bounded hi).
  destruct (Z.ltb_spec (Z.of_N (Byte.to_N lo) + 256 * Z.of_N (Byte.to_N hi))
                       32768); lia.
Qed.

(** Induction over a buffer two bytes at a time. *)
Lemma pairs_ind (P : list Byte.byte -> Prop) :
  P [] -> (forall b, P [b]) ->
  (forall lo hi rest, P rest -> P (lo :: hi :: rest)) ->
  forall bs, P bs.
Proof.
  intros H0 H1 H2.
  assert (forall bs, P bs /\ forall b, P (b :: bs)) as H.
  { induction bs as [| b bs [IH IH']]; split; auto. }
  intros bs. apply H.
Qed.

(** X1.  [np.frombuffer(_, dtype=np.int16)] fails exactly on the buffers of
    odd length; on a buffer of even length it yields one sample for every
    two bytes, each within the range of a signed 16-bit integer. *)
Theorem frombuffer_int16_samples (audio_bytes : list Byte.byte) :
  (frombuffer_int16 audio_bytes = None <->
   Nat.odd (length audio_bytes) = true) /\
  (forall audio_data,
     frombuffer_int16 audio_bytes = Some audio_data ->
     length audio_bytes = (2 * length audio_data)%nat /\
     Forall (fun s => (-32768 <= s <= 32767)%Z) audio_data).
Proof.
  induction audio_bytes as [| b | lo hi rest [IHn IHs]] using pairs_ind.
  - split; [split; discriminate |].
    intros d [= <-]. split; [reflexivity | constructor].
  - split; [split; reflexivity | discriminate].
  - cbn [frombuffer_int16 length].
    change (Nat.odd (S (S (length rest)))) with (Nat.odd (length rest)).
    destruct (frombuffer_int16 rest) as [l |].
    + split.
      * split; [discriminate |]. intros H. apply IHn in H. discriminate.
      * intros d [= <-]. destruct (IHs l eq_refl) as [Hl Hr].
        split; [cbn; lia |]. constructor; [apply int16_of_bytes_range | exact Hr].
    + split; [| discriminate]. split; [intros _ | reflexivity].
      now apply IHn.
Qed.

(** *** The sliding window *)

Lemma deque_append_length {A} maxlen (d : list A) x :
  length (deque_append maxlen d x) = Nat.min (length d + 1) maxlen.
Proof.
  unfold deque_append. cbv zeta. rewrite length_skipn, !length_app.
  cbn [length]. lia.
Qed.

(** X2.  The amplitude window never grows past [smoothing_window]: from a
    fresh controller, after every call it holds as many entries as chunks
    were decoded so far, capped at [smoothing_window]. *)
Theorem window_bounded np_sqrt pow08 cfg chunks :
  Forall (fun r : state * option Q =>
            (length (amplitude_history (fst r)) <= smoothing_window cfg)%nat)
         (run np_sqrt pow08 cfg init chunks) /\
  (Forall (fun c => frombuffer_int16 c <> None) chunks ->
   forall k r, nth_error (run np_sqrt pow08 cfg init chunks) k = Some r ->
     length (amplitude_history (fst r))
     = Nat.min (S k) (smoothing_window cfg)).
Proof.
  assert (forall st c,
             (length (amplitude_history st) <= smoothing_window cfg)%nat ->
             (length (amplitude_history
                        (fst (process_audio_chunk np_sqrt pow08 cfg st c)))
              <= smoothing_window cfg)%nat) as Hstep.
  { intros st c H. unfold process_audio_chunk.
    destruct (frombuffer_int16 c); [| exact H].
    destruct (amp_ltb _ _); cbn; unfold push_history;
      rewrite deque_append_length; lia. }
  split.
  - assert (forall st,
               (length (amplitude_history st) <= smoothing_window cfg)%nat ->
               Forall (fun r : state * option Q =>
                         (length (amplitude_history (fst r))
                          <= smoothing_window cfg)%nat)
                      (run np_sqrt pow08 cfg st chunks)) as H.
    { induction chunks as [| c rest IH]; intros st Hst; cbn; constructor.
      - now apply Hstep.
      - apply IH. now apply Hstep. }
    apply H. cbn. lia.
  - intros Hdec.
    assert (forall st n,
               length (amplitude_history st)
               = Nat.min n (smoothing_window cfg) ->
               forall k r,
                 nth_error (run np_sqrt pow08 cfg st chunks) k = Some r ->
                 length (amplitude_history (fst r))
                 = Nat.min (S (n + k)) (smoothing_window cfg)) as H.
    { induction Hdec as [| c rest Hc _ IH]; intros st n Hst k r Hk.
      - destruct k; discriminate.
      - assert (length (amplitude_history
                          (fst (process_audio_chunk np_sqrt pow08 cfg st c)))
                = Nat.min (S n) (smoothing_window cfg)) as Hone.
        { unfold process_audio_chunk.
          destruct (frombuffer_int16 c); [| congruence].
          destruct (amp_ltb _ _); cbn [fst amplitude_history];
            unfold push_history; rewrite deque_append_length; lia. }
        destruct k as [| k]; cbn in Hk.
        + injection Hk as <-. rewrite Hone. f_equal. lia.
        + rewrite (IH _ (S n) Hone k r Hk). f_equal. lia. }
    intros k r Hk. apply (H init 0%nat); [reflexivity | exact Hk].
Qed.

Lemma window_bounded_witness :
  exists r,
    nth_error (run id_curve id_curve default_config init
                   [loud_chunk; silent_chunk; []; loud_chunk; silent_chunk]) 4
    = Some r /\
    length (amplitude_history (fst r)) = Nat.min 5 3.
Proof.
  eexists. split; [reflexivity |].
  apply (proj2 (window_bounded id_curve id_curve default_config
                  [loud_chunk; silent_chunk; []; loud_chunk; silent_chunk])).
  - repeat constructor; discriminate.
  - reflexivity.
Defined.

(** *** A pause *)

(** X3.  Once the silence counter has passed 2 the mouth stays shut for the
    rest of the pause: in a run of chunks that are all below the threshold,
    started with a non-negative counter, every call from the third on
    returns exactly 0, with target 0. *)
Theorem pause_stays_closed np_sqrt pow08 cfg chunks st :
  (0 <= silence_counter st)%Z ->
  all_below np_sqrt pow08 cfg st chunks = true ->
  forall k r,
    (2 <= k)%nat ->
    nth_error (run np_sqrt pow08 cfg st chunks) k = Some r ->
    snd r = Some 0 /\ current_opening (fst r) = 0 /\
    target_opening (fst r) = 0.
Proof.
  intros H0 Hall k r Hk Hr.
  assert (forall chunks st k r,
             all_below np_sqrt pow08 cfg st chunks = true ->
             nth_error (run np_sqrt pow08 cfg st chunks) k = Some r ->
             (2 < silence_counter st + Z.of_nat k + 1)%Z ->
             snd r = Some 0 /\ current_opening (fst r) = 0 /\
             target_opening (fst r) = 0) as H.
  { clear. induction chunks as [| c rest IH]; intros st k r Hall Hr Hc.
    - destruct k; discriminate.
    - cbn [all_below] in Hall. apply andb_prop in Hall as [Hb Hrest].
      destruct (process_below_threshold np_sqrt pow08 cfg st c Hb)
        as (st' & o & E & Hs & Ht & Hcur & Hz).
      cbn [run] in Hr. rewrite E in Hr, Hrest. cbn [fst] in Hr, Hrest.
      destruct k as [| k]; cbn [nth_error] in Hr.
      + injection Hr as <-. cbn [fst snd].
        assert (o = 0) as -> by (apply Hz; lia). auto.
      + apply (IH st' k r Hrest Hr). lia. }
  apply (H chunks st k r Hall Hr). lia.
Qed.

Lemma pause_stays_closed_witness :
  exists r,
    nth_error (run id_curve id_curve window1 open_state
                   [silent_chunk; silent_chunk; silent_chunk; silent_chunk]) 3
    = Some r /\
    snd r = Some 0 /\ current_opening (fst r) = 0 /\
    target_opening (fst r) = 0.
Proof.
  eexists. split; [reflexivity |].
  apply (pause_stays_closed id_curve id_curve window1
           [silent_chunk; silent_chunk; silent_chunk; silent_chunk]
           open_state) with (k := 3%nat).
  - cbn. lia.
  - reflexivity.
  - lia.
  - reflexivity.
Defined.

(** *** An empty buffer *)

Lemma all_finite_nan l : In NaN l -> all_finite l = None.
Proof.
  induction l as [| [q |] l IH]; cbn; [tauto | | reflexivity].
  intros [H | H]; [discriminate | now rewrite IH].
Qed.

Lemma mean_history_nan l : l = [] \/ In NaN l -> mean_history l = NaN.
Proof.
  unfold mean_history. intros [-> | H]; [reflexivity |].
  now rewrite all_finite_nan.
Qed.

(** What is left of a window after an append is empty or holds the entry
    just appended. *)
Lemma deque_append_last {A} maxlen (d : list A) x :
  deque_append maxlen d x = [] \/ In x (deque_append maxlen d x).
Proof.
  unfold deque_append. cbv zeta.
  destruct (Nat.le_gt_cases (length (d ++ [x]) - maxlen) (length d))
    as [Hle | Hgt].
  - right. rewrite skipn_app.
    replace (length (d ++ [x]) - maxlen - length d)%nat with 0%nat by lia.
    apply in_or_app. right. now left.
  - left. apply skipn_all2. rewrite length_app in *. cbn [length] in *. lia.
Qed.

(** X4.  An empty buffer counts as full-scale sound.  Its amplitude is the
    mean of an empty array, a NaN, which fails the threshold test and is
    clamped to 1: the target becomes [1 ** 0.8 * 100], the silence counter
    is reset, and the call returns the opening eased toward that target. *)
Theorem empty_buffer_full_scale np_sqrt pow08 cfg st :
  let r := process_audio_chunk np_sqrt pow08 cfg st [] in
  target_opening (fst r) = pow08 1 * 100 /\
  silence_counter (fst r) = 0%Z /\
  is_speaking (fst r) = Qltb 3 (pow08 1 * 100) /\
  snd r = Some (ease cfg (pow08 1 * 100) (current_opening st)).
Proof.
  cbv zeta. unfold process_audio_chunk. cbn [frombuffer_int16].
  assert (mean_history (push_history np_sqrt cfg st []) = NaN) as ->.
  { apply mean_history_nan. unfold push_history.
    change (normalized_amplitude np_sqrt []) with NaN.
    apply deque_append_last. }
  cbn. repeat split.
Qed.

Example empty_buffer_opens_mouth :
  option_map Qred
    (snd (process_audio_chunk id_curve id_curve default_config init []))
  = Some 40.
Proof. vm_compute. reflexivity. Qed.

(** *** Silence from the start *)

Lemma frombuffer_zero_chunk n :
  frombuffer_int16 (zero_chunk n) = Some (repeat 0%Z n).
Proof.
  unfold zero_chunk. induction n as [| n IH]; [reflexivity |].
  replace (2 * S n)%nat with (S (S (2 * n))) by lia.
  cbn [repeat frombuffer_int16]. now rewrite IH.
Qed.

Lemma Qsum_zero l : Forall (fun q => q == 0) l -> Qsum l == 0.
Proof.
  induction 1 as [| q l Hq _ IH]; cbn; [reflexivity |].
  rewrite Hq, IH. reflexivity.
Qed.

Lemma quiet_mean h :
  quiet h -> h <> [] -> exists m, mean_history h = Fin m /\ m == 0.
Proof.
  intros Hq Hne. unfold mean_history.
  assert (exists l, all_finite h = Some l /\ length l = length h /\
                    Forall (fun q => q == 0) l) as (l & -> & Hlen & Hl).
  { clear Hne. induction Hq as [| a h (q & -> & Hq0) _ (l & IH & Hlen & Hl)].
    - exists []. repeat split. constructor.
    - exists (q :: l). cbn. rewrite IH. repeat split; [now f_equal |].
      now constructor. }
  destruct l as [| q l]; [destruct h; [congruence | discriminate] |].
  eexists. split; [reflexivity |].
  rewrite (Qsum_zero _ Hl). reflexivity.
Qed.

Section SilentStart.

Variable np_sqrt : Q -> Q.
Variable pow08 : Q -> Q.
Variable cfg : config.

Hypothesis np_sqrt_zero : forall x, x == 0 -> np_sqrt x == 0.
Hypothesis threshold_pos : 0 < min_threshold cfg.
Hypothesis window_pos : (0 < smoothing_window cfg)%nat.

Lemma zero_samples_amplitude n :
  (0 < n)%nat ->
  exists q, normalized_amplitude np_sqrt (repeat 0%Z n) = Fin q /\ q == 0.
Proof.
  intros Hn. unfold normalized_amplitude, np_mean.
  assert (forall k, Forall (fun q => q == 0)
                      (map (fun s => inject_Z s * inject_Z s)
                           (repeat 0%Z k))) as Hz
      by (induction k; cbn; constructor; [reflexivity | assumption]).
  specialize (Hz n).
  destruct n as [| n]; [lia |]. cbn [repeat map] in *.
  eexists. split; [reflexivity |].
  rewrite np_sqrt_zero; [reflexivity |].
  rewrite (Qsum_zero _ Hz). reflexivity.
Qed.

Lemma zero_chunk_step st n :
  (0 < n)%nat ->
  quiet (amplitude_history st) -> current_opening st == 0 ->
  let r := process_audio_chunk np_sqrt pow08 cfg st (zero_chunk n) in
  snd r = Some 0 /\ current_opening (fst r) = 0 /\
  is_speaking (fst r) = false /\ quiet (amplitude_history (fst r)).
Proof.
  intros Hn Hq Hc. cbv zeta. unfold process_audio_chunk.
  rewrite frombuffer_zero_chunk.
  destruct (zero_samples_amplitude n Hn) as (q & Ea & Hq0).
  assert (quiet (push_history np_sqrt cfg st (repeat 0%Z n))) as Hq'.
  { unfold push_history, deque_append, quiet. cbv zeta.
    apply Forall_drop. apply Forall_app. split; [exact Hq |].
    constructor; [rewrite Ea; eauto | constructor]. }
  assert (push_history np_sqrt cfg st (repeat 0%Z n) <> []) as Hne.
  { intros E. apply (f_equal (@length amp)) in E.
    unfold push_history in E. rewrite deque_append_length in E.
    cbn in E. lia. }
  destruct (quiet_mean _ Hq' Hne) as (m & -> & Hm).
  assert (amp_ltb (Fin m) (min_threshold cfg) = true) as ->
      by (cbn; apply Qltb_lt; lra).
  cbn [fst snd current_opening is_speaking amplitude_history].
  assert (ease cfg 0 (current_opening st) = 0) as ->.
  { unfold ease.
    destruct (Qltb_cases 0 (current_opening st)) as [[_ H] | [-> _]]; [lra |].
    unfold py_min.
    destruct (Qltb_cases (current_opening st
                          + (0 - current_opening st) * (4 # 10)) 0)
      as [[_ H] | [-> _]]; [lra | reflexivity]. }
  destruct (2 <? silence_counter st + 1)%Z; repeat split; exact Hq'.
Qed.

Lemma zero_chunks_run ns : forall st,
  Forall (fun n => (0 < n)%nat) ns ->
  quiet (amplitude_history st) -> current_opening st == 0 ->
  Forall (fun r : state * option Q =>
            snd r = Some 0 /\ current_opening (fst r) = 0 /\
            is_speaking (fst r) = false)
         (run np_sqrt pow08 cfg st (map zero_chunk ns)).
Proof.
  induction ns as [| n ns IH]; intros st Hns Hq Hc; cbn [map run];
    constructor; inversion Hns as [| ? ? Hn Hrest]; subst.
  - destruct (zero_chunk_step st n Hn Hq Hc) as (E1 & E2 & E3 & _); auto.
  - destruct (zero_chunk_step st n Hn Hq Hc) as (_ & E2 & _ & E4).
    apply IH; auto. rewrite E2. reflexivity.
Qed.

End SilentStart.

(** X5.  After [__init__] or [reset()], chunks of zero samples keep the
    mouth shut from the first one on: every call returns exactly 0 and
    reports no speech.  The window must hold at least one entry, the
    threshold be positive, and [np.sqrt] send 0 to 0. *)
Theorem silence_after_reset np_sqrt pow08 cfg st ns :
  (forall x, x == 0 -> np_sqrt x == 0) ->
  0 < min_threshold cfg ->
  (0 < smoothing_window cfg)%nat ->
  Forall (fun n => (0 < n)%nat) ns ->
  Forall (fun r : state * option Q =>
            snd r = Some 0 /\ current_opening (fst r) = 0 /\
            is_speaking (fst r) = false)
         (run np_sqrt pow08 cfg (reset st) (map zero_chunk ns)).
Proof.
  intros Hs Ht Hw Hns. apply zero_chunks_run; try assumption.
  - constructor.
  - reflexivity.
Qed.

Lemma silence_after_reset_witness :
  Forall (fun r : state * option Q =>
            snd r = Some 0 /\ current_opening (fst r) = 0 /\
            is_speaking (fst r) = false)
         (run id_curve id_curve default_config (reset open_state)
              (map zero_chunk [1024; 1; 512]%nat)).
Proof.
  apply (silence_after_reset id_curve id_curve default_config open_state
           [1024; 1; 512]%nat).
  - intros x Hx. exact Hx.
  - reflexivity.
  - cbn. lia.
  - repeat constructor; lia.
Defined.

(** *** Repeated easing *)

Lemma qpow_nonneg q n : 0 <= q -> 0 <= qpow q n.
Proof.
  intros Hq. induction n as [| n IH]; cbn; [lra | nra].
Qed.

(** X6.  Easing toward a fixed target shrinks the gap geometrically and
    never crosses the target: after [n] opening steps the gap is 0.6^n of
    what it was, after [n] closing steps it is [(1 - close_speed)^n] of
    it. *)
Theorem easing_converges cfg target current n :
  (current <= target ->
   target - ease_n cfg target n current
   == (target - current) * qpow (6 # 10) n) /\
  (target <= current -> 0 <= close_speed cfg <= 1 ->
   ease_n cfg target n current - target
   == (current - target) * qpow (1 - close_speed cfg) n).
Proof.
  split.
  - intros Hle. induction n as [| n IH]; cbn [ease_n qpow]; [ring |].
    pose proof (qpow_nonneg (6 # 10) n ltac:(lra)) as Hp.
    set (p := qpow (6 # 10) n) in *.
    set (v := ease_n cfg target n current) in *.
    assert (v <= target) as Hv by nra.
    destruct (ease_opening cfg target v Hv) as [He _].
    rewrite He. nra.
  - intros Hle Hcs. induction n as [| n IH]; cbn [ease_n qpow]; [ring |].
    pose proof (qpow_nonneg (1 - close_speed cfg) n ltac:(lra)) as Hp.
    set (p := qpow (1 - close_speed cfg) n) in *.
    set (v := ease_n cfg target n current) in *.
    assert (target <= v) as Hv by nra.
    destruct (Qlt_le_dec target v) as [Hlt | Hge].
    + destruct (ease_closing cfg target v Hlt) as (_ & He & _).
      rewrite (He Hcs). nra.
    + destruct (ease_opening cfg target v Hge) as [He _].
      rewrite He. nra.
Qed.

Lemma easing_converges_witness :
  100 - ease_n default_config 100 3 0 == (100 - 0) * qpow (6 # 10) 3 /\
  ease_n default_config 0 2 100 - 0
  == (100 - 0) * qpow (1 - close_speed default_config) 2.
Proof.
  split.
  - apply (proj1 (easing_converges default_config 100 0 3)). lra.
  - apply (proj2 (easing_converges default_config 0 100 2)); cbn; lra.
Defined.

End AudioMouthRunsProps.

(** ** audio_mouth_controller.py: the frequency-weighted controller *)

Module AudioMouthEnhancedProps.

Import AudioMouth AudioMouthEnhanced AudioMouthProps.
Local Open Scope Q_scope.

Lemma adjust_opening_bounds opening mid_energy high_energy :
  in_range opening ->
  in_range (adjust_opening opening mid_energy high_energy) /\
  opening * (7 # 10) <= adjust_opening opening mid_energy high_energy
  <= opening * (12 # 10).
Proof.
  unfold in_range, adjust_opening. intros H.
  destruct (Qltb _ high_energy); [lra |].
  destruct (Qltb _ mid_energy); [| lra].
  destruct (py_min_spec 100 (opening * (12 # 10))) as [[H1 ->] | [H1 ->]];
    lra.
Qed.

(** The basic processing raises exactly on the chunks that do not
    decode. *)
Lemma process_raises np_sqrt pow08 cfg st audio_bytes :
  snd (process_audio_chunk np_sqrt pow08 cfg st audio_bytes) = None
  <-> frombuffer_int16 audio_bytes = None.
Proof.
  unfold process_audio_chunk.
  destruct (frombuffer_int16 audio_bytes) as [d |];
    [| split; reflexivity].
  destruct (amp_ltb _ _); cbn; split; discriminate.
Qed.

(** X7.  The frequency-weighted controller leaves the controller in the
    state the basic processing gives it.  It raises exactly when the basic
    processing does or when the sample rate is 0 and the chunk holds at
    least one sample.  Otherwise it returns the basic opening scaled by a
    factor between 0.7 and 1.2, still within [0,100], together with the
    viseme of the opening it returns. *)
Theorem enhanced_opening_in_range np_sqrt pow08 band_energies cfg st
        audio_bytes :
  (forall x, 0 <= x <= 1 -> 0 <= pow08 x <= 1) ->
  0 <= close_speed cfg ->
  in_range (current_opening st) ->
  let base := process_audio_chunk np_sqrt pow08 cfg st audio_bytes in
  let r := process_audio_chunk_enhanced np_sqrt pow08 band_energies cfg st
             audio_bytes in
  fst r = fst base /\
  (snd r = None <->
   snd base = None \/
   (sample_rate cfg = 0%Z /\
    exists s l, frombuffer_int16 audio_bytes = Some (s :: l))) /\
  (forall opening v, snd r = Some (opening, v) ->
     in_range opening /\ v = get_viseme_from_opening opening /\
     exists b, snd base = Some b /\
               b * (7 # 10) <= opening <= b * (12 # 10)).
Proof.
  intros Hpow Hcs Hin. cbv zeta. unfold process_audio_chunk_enhanced.
  destruct (process_in_range np_sqrt pow08 cfg Hpow Hcs st audio_bytes Hin)
    as [_ Hout].
  pose proof (process_raises np_sqrt pow08 cfg st audio_bytes) as Hraise.
  destruct (process_audio_chunk np_sqrt pow08 cfg st audio_bytes)
    as [st' [b |]]; cbn [fst snd] in *.
  - specialize (Hout b eq_refl).
    assert (frombuffer_int16 audio_bytes <> None) as Hdec
        by (intros E; apply Hraise in E; discriminate).
    destruct (frombuffer_int16 audio_bytes) as [[| s l] |];
      [| | congruence]; cbn [default from_option id].
    + split; [reflexivity |]. split.
      * split; [discriminate |].
        intros [E | (_ & s & l & E)]; discriminate.
      * intros o v E. injection E as <- <-.
        repeat split; try apply Hout. exists b. unfold in_range in Hout.
        split; [reflexivity | lra].
    + destruct (Z.eqb_spec (sample_rate cfg) 0) as [Hz | Hnz].
      * split; [reflexivity |]. split; [| discriminate].
        split; [| reflexivity].
        intros _. right. split; [exact Hz |]. now exists s, l.
      * destruct (band_energies (sample_rate cfg) (s :: l)) as [mid high].
        destruct (adjust_opening_bounds b mid high Hout) as [Hr Hb].
        split; [reflexivity |]. split.
        -- split; [discriminate |].
           intros [E | (Hz & _)]; [discriminate | contradiction].
        -- intros o v E. injection E as <- <-.
           repeat split; try apply Hr. exists b.
           split; [reflexivity | exact Hb].
  - split; [reflexivity |]. split; [| discriminate].
    split; [now left | reflexivity].
Qed.

Lemma enhanced_opening_in_range_witness :
  let base := process_audio_chunk id_curve id_curve default_config init
                loud_chunk in
  let r := process_audio_chunk_enhanced id_curve id_curve
             (fun _ _ => (1, 2)) default_config init loud_chunk in
  fst r = fst base /\
  (snd r = None <->
   snd base = None \/
   (sample_rate default_config = 0%Z /\
    exists s l, frombuffer_int16 loud_chunk = Some (s :: l))) /\
  (forall opening v, snd r = Some (opening, v) ->
     in_range opening /\ v = get_viseme_from_opening opening /\
     exists b, snd base = Some b /\
               b * (7 # 10) <= opening <= b * (12 # 10)).
Proof.
  apply (enhanced_opening_in_range id_curve id_curve (fun _ _ => (1, 2))
           default_config init loud_chunk).
  - intros x Hx. exact Hx.
  - cbn. lra.
  - unfold in_range. cbn. lra.
Defined.

(** With a sample rate of 0 a chunk of two samples raises in the
    frequency analysis, after the basic processing has moved the mouth;
    the basic processing alone returns its opening. *)
Example zero_sample_rate_raises :
  snd (process_audio_chunk id_curve id_curve no_rate init loud_chunk)
  <> None /\
  process_audio_chunk_enhanced id_curve id_curve (fun _ _ => (1, 2))
                               no_rate init loud_chunk
  = (fst (process_audio_chunk id_curve id_curve no_rate init loud_chunk),
     None) /\
  snd (process_audio_chunk_enhanced id_curve id_curve (fun _ _ => (1, 2))
                                    no_rate init [])
  <> None.
Proof.
  split; [vm_compute; discriminate |].
  split; [vm_compute; reflexivity | vm_compute; discriminate].
Qed.

End AudioMouthEnhancedProps.


(** ** face_tracker.py: the tracking tick *)

Module FaceTrackingProps.

Import FaceTracker FaceTracking.
Local Open Scope Q_scope.

(** X8.  A tick on a frame of at most 65534 pixels either way, with at
    least one detection and every detection inside the frame, reports the
    first nearest rectangle [(x, y, w, h)] of the detections, with the
    pixel [(x + w // 2, y + h // 2)] as its centre, a pixel of the
    rectangle, and the number of detections; the tracker remembers that
    centre and forgets any loss.  If the very next frame has no detection,
    the loss is reported with the remembered centre and a lost time of
    zero. *)
Theorem found_tick np_sqrt t fr current_time :
  (forall a b : Z, (0 <= a < b)%Z ->
     np_sqrt (inject_Z a) < np_sqrt (inject_Z b)) ->
  camera_running t = true ->
  (0 <= width fr <= max_frame_side)%Z ->
  (0 <= height fr <= max_frame_side)%Z ->
  Forall (in_frame (width fr) (height fr)) (detections fr) ->
  detections fr <> [] ->
  exists i x y w h,
    first_nearest (width fr) (height fr) (detections fr) i (x, y, w, h) /\
    track_face np_sqrt t (Some fr) current_time
    = ({| camera_running := true;
          last_face_position := Some (x + w / 2, y + h / 2)%Z;
          face_lost_time := None |},
       Some (Found (x + w / 2) (y + h / 2) (width fr) (height fr)
                   (x, y, w, h) (length (detections fr)))) /\
    (x <= x + w / 2 <= x + w)%Z /\ (y <= y + h / 2 <= y + h)%Z /\
    (forall fr' later,
       detections fr' = [] ->
       exists time_lost,
         snd (track_face np_sqrt
                {| camera_running := true;
                   last_face_position := Some (x + w / 2, y + h / 2)%Z;
                   face_lost_time := None |}
                (Some fr') later)
         = Some (NotFound (Some (x + w / 2, y + h / 2)%Z) time_lost
                          (width fr') (height fr')) /\
         time_lost == 0).
Proof.
  intros Hincr Hrun HW HH Hvis Hne.
  destruct (FaceTrackerProps.get_closest_face_spec np_sqrt (width fr)
              (height fr) Hincr HW HH (detections fr) Hvis Hne)
    as (i & [[[x y] w] h] & E & Hf).
  assert (in_frame (width fr) (height fr) (x, y, w, h)) as Hin.
  { destruct Hf as (Hi & _). exact (Forall_lookup_1 _ _ _ _ Hvis Hi). }
  exists i, x, y, w, h. split; [exact Hf |]. split; [| split; [| split]].
  - unfold track_face. rewrite Hrun, E. cbn [negb].
    rewrite (FaceTrackerProps.get_face_center_in_frame _ _ _ _ _ _ HW HH Hin).
    reflexivity.
  - destruct Hin as (_ & _ & Hw & _).
    pose proof (Z.div_pos w 2 Hw ltac:(lia)).
    pose proof (Z.div_le_upper_bound w 2 w ltac:(lia) ltac:(lia)). lia.
  - destruct Hin as (_ & _ & _ & Hh & _).
    pose proof (Z.div_pos h 2 Hh ltac:(lia)).
    pose proof (Z.div_le_upper_bound h 2 h ltac:(lia) ltac:(lia)). lia.
  - intros fr' later Hd. unfold track_face. rewrite Hd.
    cbn. eexists. split; [reflexivity | ring].
Qed.

Lemma found_tick_witness :
  first_nearest 640 480 three_faces 1 face_left_10 /\
  track_face id_curve (tracking_at (0, 0)%Z)
             (Some (mkFrame 640 480 three_faces)) 5
  = (tracking_at (310, 240)%Z,
     Some (Found 310 240 640 480 face_left_10 3)) /\
  snd (track_face id_curve (tracking_at (310, 240)%Z)
                  (Some (empty_frame 640 480)) 6)
  = Some (NotFound (Some (310, 240)%Z) (6 - 6) 640 480).
Proof.
  destruct (found_tick id_curve (tracking_at (0, 0)%Z)
              (mkFrame 640 480 three_faces) 5
              FaceTrackerProps.id_curve_incr eq_refl
              ltac:(unfold max_frame_side; cbn; lia)
              ltac:(unfold max_frame_side; cbn; lia)
              ltac:(repeat constructor; vm_compute; discriminate)
              ltac:(discriminate))
    as (i & x & y & w & h & Hf & E & _ & _ & Hlost).
  destruct (FaceTrackerProps.first_nearest_unique _ _ _ _ _ _ _ Hf
              FaceTrackerProps.three_faces_first_nearest) as [-> Ef].
  injection Ef as -> -> -> ->.
  split; [exact Hf |]. split; [exact E |]. reflexivity.
Defined.

(** X9.  While no face is detected the tracker counts from the first lost
    tick: every tick of a streak of frames without detection reports the
    centre last seen and, as lost time, the clock reading of that tick
    minus the reading at which the loss began; so under a clock that does
    not run backwards the lost time is never negative. *)
Theorem loss_timer np_sqrt t ticks :
  camera_running t = true ->
  Forall (fun tk : option frame * Q =>
            exists fr, fst tk = Some fr /\ detections fr = []) ticks ->
  forall k capture current_time r,
    nth_error ticks k = Some (capture, current_time) ->
    nth_error (track_faces np_sqrt t ticks) k = Some r ->
    exists fr,
      capture = Some fr /\
      snd r = Some (NotFound (last_face_position t)
                             (current_time - lost_since t ticks)
                             (width fr) (height fr)) /\
      face_lost_time (fst r) = Some (lost_since t ticks) /\
      last_face_position (fst r) = last_face_position t.
Proof.
  intros Hrun Hall. revert t Hrun.
  induction Hall as [| [c now0] rest (fr0 & Hc & Hd) _ IH];
    intros t Hrun k capture now r Hk Hr.
  - destruct k; discriminate.
  - cbn [fst] in Hc. subst c. cbn [track_faces] in Hr.
    assert (track_face np_sqrt t (Some fr0) now0
            = ({| camera_running := true;
                  last_face_position := last_face_position t;
                  face_lost_time :=
                    Some (lost_since t ((Some fr0, now0) :: rest)) |},
               Some (NotFound (last_face_position t)
                       (now0 - lost_since t ((Some fr0, now0) :: rest))
                       (width fr0) (height fr0)))) as E.
    { unfold track_face, lost_since. rewrite Hrun, Hd. cbn.
      now destruct (face_lost_time t). }
    rewrite E in Hr. cbn [fst] in Hr.
    destruct k as [| k]; cbn [nth_error] in Hk, Hr.
    + injection Hk as <- <-. injection Hr as <-.
      exists fr0. repeat split.
    + set (t' := {| camera_running := true;
                   last_face_position := last_face_position t;
                   face_lost_time :=
                     Some (lost_since t ((Some fr0, now0) :: rest)) |}) in *.
      destruct (IH t' eq_refl k capture now r Hk Hr)
        as (fr & -> & Hs & Hl & Hp).
      exists fr. cbn in Hs, Hl, Hp. repeat split; assumption.
Qed.

Lemma loss_timer_witness :
  exists r fr,
    nth_error (track_faces id_curve (tracking_at (310, 240)%Z)
                 [(Some (empty_frame 640 480), 10);
                  (Some (empty_frame 640 480), 10 + (3 # 100));
                  (Some (empty_frame 640 480), 12)]) 2 = Some r /\
    Some (empty_frame 640 480) = Some fr /\
    snd r = Some (NotFound (Some (310, 240)%Z) (12 - 10)
                           (width fr) (height fr)) /\
    face_lost_time (fst r) = Some 10 /\
    last_face_position (fst r) = Some (310, 240)%Z.
Proof.
  destruct (nth_error (track_faces id_curve (tracking_at (310, 240)%Z)
                         [(Some (empty_frame 640 480), 10);
                          (Some (empty_frame 640 480), 10 + (3 # 100));
                          (Some (empty_frame 640 480), 12)]) 2)
    as [r |] eqn:E; [| discriminate E].
  destruct (loss_timer id_curve (tracking_at (310, 240)%Z)
              [(Some (empty_frame 640 480), 10);
               (Some (empty_frame 640 480), 10 + (3 # 100));
               (Some (empty_frame 640 480), 12)]
              eq_refl
              ltac:(repeat constructor; eexists; split; reflexivity)
              2%nat (Some (empty_frame 640 480)) 12 r eq_refl E)
    as (fr & H).
  exists r, fr. split; [reflexivity | exact H].
Defined.

End FaceTrackingProps.


(** ** servo_config.py: the catalogue *)

Module ServoCatalogProps.

Import ServoConfig ServoCatalog.
Local Open Scope Q_scope.

Lemma lower_ascii_idempotent c :
  Server.lower_ascii (Server.lower_ascii c) = Server.lower_ascii c.
Proof. destruct c as [[] [] [] [] [] [] [] []]; reflexivity. Qed.

Lemma lower_idempotent s : Server.lower (Server.lower s) = Server.lower s.
Proof.
  induction s as [| c s IH]; cbn; [reflexivity |].
  now rewrite lower_ascii_idempotent, IH.
Qed.

(** The entries of a literal dictionary, one case each. *)
Ltac entries H :=
  apply elem_of_list_to_map_2 in H;
  repeat (apply elem_of_cons in H as [H | H]);
  [.. | now apply elem_of_nil in H];
  simplify_eq.

Lemma get_config_cases (config_name : string) :
  get_config config_name = InMoovHeadConfig \/
  get_config config_name = OriginalConfig \/
  get_config config_name = SimpleConfig.
Proof.
  unfold get_config.
  destruct (CONFIGS !! Server.lower config_name) as [c |] eqn:E;
    [| now left].
  unfold CONFIGS in E. entries E; cbn; auto.
Qed.

(** X10.  [get_config] always returns one of the three rigs of the
    catalogue; the name is matched without regard to letter case, and a
    name that is none of [inmoov], [original], [simple] gives the InMoov
    head. *)
Theorem get_config_total (config_name : string) :
  (get_config config_name = InMoovHeadConfig \/
   get_config config_name = OriginalConfig \/
   get_config config_name = SimpleConfig) /\
  get_config (Server.lower config_name) = get_config config_name /\
  (Server.lower config_name <> "inmoov" ->
   Server.lower config_name <> "original" ->
   Server.lower config_name <> "simple" ->
   get_config config_name = InMoovHeadConfig).
Proof.
  split; [apply get_config_cases |].
  unfold get_config. rewrite lower_idempotent.
  split; [reflexivity |].
  intros H1 H2 H3.
  destruct (CONFIGS !! Server.lower config_name) as [c |] eqn:E;
    [| reflexivity].
  unfold CONFIGS in E. entries E; congruence.
Qed.

Lemma get_config_total_witness :
  get_config "InMoov" = InMoovHeadConfig /\
  get_config "SIMPLE" = SimpleConfig /\
  get_config "hexapod" = InMoovHeadConfig.
Proof.
  destruct (get_config_total "hexapod") as (_ & _ & H).
  destruct (get_config_total "InMoov") as (_ & H1 & _).
  destruct (get_config_total "SIMPLE") as (_ & H2 & _).
  split; [| split].
  - rewrite <- H1. vm_compute. reflexivity.
  - rewrite <- H2. vm_compute. reflexivity.
  - apply H; vm_compute; discriminate.
Defined.

(** The values of a literal dictionary at a literal key, by evaluation. *)
Ltac range_inside :=
  eexists _, _, _;
  split; [reflexivity | split; [reflexivity | split; vm_compute; discriminate]].

Ltac blink_inside :=
  split; [eexists; reflexivity |];
  eexists _, _;
  split; [reflexivity | split; vm_compute; discriminate].

Lemma InMoov_well_formed : well_formed InMoovHeadConfig.
Proof.
  unfold well_formed. cbn [channels default_angles angle_ranges blink_angles
                           servo_count InMoovHeadConfig].
  split; [| split; [| split; [| split]]].
  - intros n1 n2 ch H1 H2. entries H1; entries H2; reflexivity.
  - intros n ch H. entries H; (split; [lia | range_inside]).
  - reflexivity.
  - intros n [[r H] | [a H]]; entries H; eexists; reflexivity.
  - intros b n a Hb H. apply (inj Some) in Hb. subst b.
    entries H; blink_inside.
Qed.

Lemma Original_well_formed : well_formed OriginalConfig.
Proof.
  unfold well_formed. cbn [channels default_angles angle_ranges blink_angles
                           servo_count OriginalConfig].
  split; [| split; [| split; [| split]]].
  - intros n1 n2 ch H1 H2. entries H1; entries H2; reflexivity.
  - intros n ch H. entries H; (split; [lia | range_inside]).
  - reflexivity.
  - intros n [[r H] | [a H]]; entries H; eexists; reflexivity.
  - intros b n a Hb H. apply (inj Some) in Hb. subst b.
    entries H; blink_inside.
Qed.

Lemma Simple_well_formed : well_formed SimpleConfig.
Proof.
  unfold well_formed. cbn [channels default_angles angle_ranges blink_angles
                           servo_count SimpleConfig].
  split; [| split; [| split; [| split]]].
  - intros n1 n2 ch H1 H2. entries H1; entries H2; reflexivity.
  - intros n ch H. entries H; (split; [lia | range_inside]).
  - reflexivity.
  - intros n [[r H] | [a H]]; entries H; eexists; reflexivity.
  - intros b n a H. discriminate.
Qed.

(** X11.  Whatever name is asked for, the rig [get_config] returns is well
    formed: its axes have distinct channels numbered from 0 below
    [servo_count], each axis has a range that contains its default angle,
    and each blink angle belongs to an axis of the rig and lies in its
    range. *)
Theorem catalogue_well_formed (config_name : string) :
  well_formed (get_config config_name).
Proof.
  destruct (get_config_cases config_name) as [-> | [-> | ->]].
  - exact InMoov_well_formed.
  - exact Original_well_formed.
  - exact Simple_well_formed.
Qed.

End ServoCatalogProps.


(** ** eye_controller.py: single servos, centring and blinking *)

Module EyeServosProps.

Import ServoConfig EyeController EyeServos.
Local Open Scope Q_scope.

(** What one call of [set_servo_angle] can do: nothing, or one write of
    the clamped angle to the channel of the axis. *)
Lemma set_servo_angle_cases hw e n a :
  let e' := set_servo_angle hw e n a in
  let a' := clamp (fst (get_angle_range (config e) n))
                  (snd (get_angle_range (config e) n)) a in
  config e' = config e /\ has_servo_kit e' = has_servo_kit e /\
  ((servo_writes e' = servo_writes e /\
    current_angles e' = current_angles e) \/
   (exists ch,
      get_channel (config e) n = Some ch /\ hw ch a' = None /\
      servo_writes e' = servo_writes e ++ [(ch, a')] /\
      current_angles e' = <[n := a']> (current_angles e))).
Proof.
  cbv zeta. unfold set_servo_angle.
  destruct (has_servo_kit e) eqn:Hk; cbn [negb]; [| rewrite Hk; auto].
  destruct (get_channel (config e) n) as [ch |]; [| rewrite Hk; auto].
  destruct (get_angle_range (config e) n) as [lo hi]. cbn [fst snd].
  destruct (hw ch (clamp lo hi a)) eqn:Eh; [rewrite Hk; auto |].
  destruct (has_position_callback _); cbn;
    (split; [reflexivity |]); (split; [exact Hk |]); right; exists ch; auto.
Qed.

Lemma set_servo_angle_done hw e n a ch :
  has_servo_kit e = true ->
  get_channel (config e) n = Some ch ->
  hw ch (clamp (fst (get_angle_range (config e) n))
               (snd (get_angle_range (config e) n)) a) = None ->
  current_angles (set_servo_angle hw e n a)
  = <[n := clamp (fst (get_angle_range (config e) n))
                 (snd (get_angle_range (config e) n)) a]> (current_angles e).
Proof.
  intros Hk Hc Hh. unfold set_servo_angle. rewrite Hk, Hc. cbn [negb].
  destruct (get_angle_range (config e) n) as [lo hi]. cbn [fst snd] in *.
  rewrite Hh. now destruct (has_position_callback _).
Qed.

Lemma set_servo_angle_in_range hw e n a :
  ranges_ordered (config e) ->
  writes_in_range (config e) (servo_writes e) ->
  writes_in_range (config e) (servo_writes (set_servo_angle hw e n a)).
Proof.
  intros Hr Hw.
  destruct (set_servo_angle_cases hw e n a)
    as (_ & _ & [[-> _] | (ch & Hc & _ & -> & _)]); [exact Hw |].
  apply Forall_app. split; [exact Hw |].
  constructor; [| constructor]. exists n. split; [exact Hc |].
  cbn [snd]. apply clamp_bounds. apply Hr.
Qed.

(** A walk over axes, setting each to an angle that depends on the axis
    alone: the shape of the loop of [center_eyes] and of the opening loop
    of [blink_eyes]. *)
Section Walk.

Variable hw : bus.
Context {A : Type}.
Variable key : A -> string.
Variable angle : ServoConfig.t -> A -> Q.

Local Abbreviation walk := (EyeServos.walk hw key angle).

Lemma walk_cons x l e :
  walk (x :: l) e
  = walk l (set_servo_angle hw e (key x) (angle (config e) x)).
Proof. reflexivity. Qed.

Lemma walk_config l : forall e,
  config (walk l e) = config e /\
  has_servo_kit (walk l e) = has_servo_kit e.
Proof.
  induction l as [| x l IH]; intros e; [cbn; auto | rewrite walk_cons].
  destruct (IH (set_servo_angle hw e (key x) (angle (config e) x)))
    as [-> ->].
  destruct (set_servo_angle_cases hw e (key x) (angle (config e) x))
    as (-> & -> & _). auto.
Qed.

Lemma walk_in_range l : forall e,
  ranges_ordered (config e) ->
  writes_in_range (config e) (servo_writes e) ->
  writes_in_range (config e) (servo_writes (walk l e)).
Proof.
  induction l as [| x l IH]; intros e Hr Hw; [exact Hw | rewrite walk_cons].
  pose proof (set_servo_angle_cases hw e (key x) (angle (config e) x))
    as (Hc & _ & _).
  pose proof (set_servo_angle_in_range hw e (key x) (angle (config e) x)
                Hr Hw) as Hw1.
  set (e1 := set_servo_angle hw e (key x) (angle (config e) x)) in *.
  assert (writes_in_range (config e1) (servo_writes (walk l e1))) as H
      by (apply IH; rewrite Hc; assumption).
  now rewrite Hc in H.
Qed.

(** If all entries for an axis ask for one and the same angle, and the bus
    takes that write, the walk leaves the axis at that angle. *)
Lemma walk_lookup l : forall e k ch v,
  has_servo_kit e = true ->
  get_channel (config e) k = Some ch ->
  (forall x, In x l -> key x = k ->
     clamp (fst (get_angle_range (config e) k))
           (snd (get_angle_range (config e) k)) (angle (config e) x) = v) ->
  hw ch v = None ->
  (exists x, In x l /\ key x = k) \/ current_angles e !! k = Some v ->
  current_angles (walk l e) !! k = Some v.
Proof.
  induction l as [| x l IH]; intros e k ch v Hk Hc Hv Hh Hin.
  - destruct Hin as [(x & [] & _) | H]. exact H.
  - rewrite walk_cons. pose proof (set_servo_angle_cases hw e (key x) (angle (config e) x))
      as (Hcfg & Hkit & Hcase).
    set (e1 := set_servo_angle hw e (key x) (angle (config e) x)) in *.
    apply (IH e1 k ch v).
    + now rewrite Hkit.
    + now rewrite Hcfg.
    + rewrite Hcfg. intros y Hy. apply Hv. now right.
    + exact Hh.
    + destruct (String.eqb_spec (key x) k) as [E | Hne].
      * right. subst e1.
        rewrite (set_servo_angle_done hw e (key x) _ ch Hk);
          rewrite E; try assumption.
        -- rewrite (Hv x (or_introl eq_refl) E). apply lookup_insert_eq.
        -- now rewrite (Hv x (or_introl eq_refl) E).
      * destruct Hin as [(y & [-> | Hy] & Ey) | Hcur];
          [congruence | left; eauto |].
        right. destruct Hcase as [[_ ->] | (c & _ & _ & _ & ->)];
          [exact Hcur |].
        now rewrite lookup_insert_ne.
Qed.

End Walk.

Lemma write_batch_in_range hw batch : forall e,
  ranges_ordered (config e) ->
  writes_in_range (config e) (servo_writes e) ->
  writes_in_range (config e) (servo_writes (fst (write_batch hw e batch))).
Proof.
  induction batch as [| [n a] rest IH]; intros e Hr Hw; [exact Hw |].
  cbn [write_batch].
  destruct (get_channel (config e) n) as [ch |] eqn:Ec.
  - pose proof (Hr n) as Hn.
    destruct (get_angle_range (config e) n) as [lo hi] eqn:Er.
    destruct (hw ch (clamp lo hi a)); [exact Hw |].
    apply (IH (record_write e n ch (clamp lo hi a))); [exact Hr |].
    cbn [servo_writes record_write config].
    apply Forall_app. split; [exact Hw |].
    constructor; [| constructor]. exists n. split; [exact Ec |].
    rewrite Er. cbn [fst snd] in *. now apply clamp_bounds.
  - apply (IH (record_angle e n a)); assumption.
Qed.

(** X12.  No function of the eye controller ever commands a servo outside
    the range of its axis.  If the ranges of the rig are not empty and the
    writes made so far are all on a channel of the rig with an angle in the
    range of an axis on it, the same holds after [set_servo_angle],
    [track_position], [center_eyes] and [blink_eyes], whatever angle, face
    position, frame size, bus behaviour, key order or timing they get. *)
Theorem eye_writes_in_range hw e :
  ranges_ordered (config e) ->
  writes_in_range (config e) (servo_writes e) ->
  (forall n a,
     writes_in_range (config e) (servo_writes (set_servo_angle hw e n a))) /\
  (forall face_x face_y frame_width frame_height,
     writes_in_range (config e)
       (servo_writes (track_position hw e face_x face_y
                                     frame_width frame_height))) /\
  (forall keys,
     writes_in_range (config e) (servo_writes (center_eyes hw keys e))) /\
  (forall lids last interval probability force current_time draw,
     writes_in_range (config e)
       (servo_writes
          (eyes (blink_eyes hw lids
                   (mkBlinker e last interval probability)
                   force current_time draw)))).
Proof.
  intros Hr Hw. split; [| split; [| split]].
  - intros n a. now apply set_servo_angle_in_range.
  - intros fx fy fw fh. unfold track_position.
    destruct (negb (has_servo_kit e)); [exact Hw |].
    destruct (compute_angles e fx fy fw fh) as [batch |]; [| exact Hw].
    pose proof (write_batch_in_range hw batch e Hr Hw) as H.
    destruct (write_batch hw e batch) as [e' [|]]; cbn [fst] in H;
      [| exact H].
    destruct (has_position_callback e'), batch; exact H.
  - intros keys. unfold center_eyes.
    destruct (negb (has_servo_kit e)); [exact Hw |].
    now apply (walk_in_range hw (fun k : string => k)
                 (fun cfg k => get_default_angle cfg k)).
  - intros lids last interval probability force now draw.
    unfold blink_eyes. cbn [eyes].
    destruct (negb (has_servo_kit e)); [exact Hw |].
    destruct (negb (should_blink _ force now draw)); [exact Hw |].
    cbn [eyes]. destruct (blink_angles (config e)); [| exact Hw].
    unfold blink_writes.
    pose proof (walk_in_range hw (fun na : string * Q => fst na)
                  (fun _ na => snd na) lids e Hr Hw) as H1.
    pose proof (walk_config hw (fun na : string * Q => fst na)
                  (fun _ na => snd na) lids e) as [Hc _].
    set (closed := fold_left _ lids e) in *.
    change closed with (walk hw (fun na : string * Q => fst na)
                             (fun _ na => snd na) lids e) in *.
    set (e1 := walk hw _ _ lids e) in *.
    rewrite <- Hc in *.
    now apply (walk_in_range hw (fun na : string * Q => fst na)
                 (fun cfg na => get_default_angle cfg (fst na))).
Qed.

Lemma well_formed_ranges_ordered c :
  ServoCatalog.well_formed c -> ranges_ordered c.
Proof.
  intros (_ & Hch & _ & Hdom & _) n. unfold get_angle_range.
  destruct (angle_ranges c !! n) as [[lo hi] |] eqn:Er; cbn; [| lra].
  destruct (Hdom n) as [ch Hc]; [left; eauto |].
  destruct (Hch n ch Hc) as (_ & lo' & hi' & d & Hr & _ & Hd).
  rewrite Er in Hr. injection Hr as <- <-. lra.
Qed.

Lemma well_formed_centre_angle c n ch :
  ServoCatalog.well_formed c -> channels c !! n = Some ch ->
  centre_angle c n == get_default_angle c n.
Proof.
  intros (_ & Hch & _) Hc.
  destruct (Hch n ch Hc) as (_ & lo & hi & d & Hr & Hd & Hin).
  unfold centre_angle, get_angle_range, get_default_angle.
  rewrite Hr, Hd. cbn. now apply clamp_inside.
Qed.

Lemma eye_writes_in_range_witness :
  (forall n a,
     writes_in_range InMoovHeadConfig
       (servo_writes (set_servo_angle (bus_failing_on 1)
                        (new InMoovHeadConfig) n a))) /\
  (forall face_x face_y frame_width frame_height,
     writes_in_range InMoovHeadConfig
       (servo_writes (track_position (bus_failing_on 1)
                        (new InMoovHeadConfig) face_x face_y
                        frame_width frame_height))) /\
  (forall keys,
     writes_in_range InMoovHeadConfig
       (servo_writes (center_eyes (bus_failing_on 1) keys
                        (new InMoovHeadConfig)))) /\
  (forall lids last interval probability force current_time draw,
     writes_in_range InMoovHeadConfig
       (servo_writes
          (eyes (blink_eyes (bus_failing_on 1) lids
                   (mkBlinker (new InMoovHeadConfig) last interval
                              probability)
                   force current_time draw)))).
Proof.
  apply (eye_writes_in_range (bus_failing_on 1) (new InMoovHeadConfig)).
  - apply well_formed_ranges_ordered.
    exact ServoCatalogProps.InMoov_well_formed.
  - constructor.
Defined.

(** X13.  [center_eyes] brings every axis whose write the bus takes to the
    clamped default angle of the axis, whatever happens to the writes of
    the other axes: a servo that fails is skipped, not the rest of the
    walk.  On a well-formed rig the clamped default is the default
    itself. *)
Theorem center_eyes_each hw keys e k ch :
  has_servo_kit e = true ->
  In k keys ->
  get_channel (config e) k = Some ch ->
  hw ch (centre_angle (config e) k) = None ->
  current_angles (center_eyes hw keys e) !! k
  = Some (centre_angle (config e) k) /\
  (ServoCatalog.well_formed (config e) ->
   centre_angle (config e) k == get_default_angle (config e) k).
Proof.
  intros Hk Hin Hc Hh. split.
  - unfold center_eyes. rewrite Hk. cbn [negb].
    apply (walk_lookup hw (fun k : string => k)
             (fun cfg k => get_default_angle cfg k) keys e k ch);
      try assumption.
    + intros x _ ->. reflexivity.
    + left. eauto.
  - intros Hwf. now apply (well_formed_centre_angle _ k ch).
Qed.

Lemma center_eyes_each_witness :
  current_angles (center_eyes (bus_failing_on 1) InMoov_keys
                              (new InMoovHeadConfig)) !! "right_upper_lid"
  = Some (centre_angle InMoovHeadConfig "right_upper_lid") /\
  (ServoCatalog.well_formed InMoovHeadConfig ->
   centre_angle InMoovHeadConfig "right_upper_lid"
   == get_default_angle InMoovHeadConfig "right_upper_lid").
Proof.
  apply (center_eyes_each (bus_failing_on 1) InMoov_keys
           (new InMoovHeadConfig) "right_upper_lid" 6).
  - reflexivity.
  - cbn. tauto.
  - vm_compute. reflexivity.
  - reflexivity.
Defined.

(** X14.  [blink_eyes] does nothing unless it is forced or more than
    [blink_interval] seconds have passed since the last blink and the draw
    is below [blink_probability].  When it blinks, it restarts the timer
    at the current time, and every lid of [blink_angles] whose opening
    write the bus takes ends at its clamped default angle: the eyes are
    open again. *)
Theorem blink_eyes_timing hw lids b force current_time draw :
  has_servo_kit (eyes b) = true ->
  let b' := blink_eyes hw lids b force current_time draw in
  (force = false ->
   current_time - last_blink_time b <= blink_interval b \/
   blink_probability b <= draw ->
   b' = b) /\
  (should_blink b force current_time draw = true ->
   last_blink_time b' = current_time /\
   forall bl k ch,
     blink_angles (config (eyes b)) = Some bl ->
     In k (map fst lids) ->
     get_channel (config (eyes b)) k = Some ch ->
     hw ch (centre_angle (config (eyes b)) k) = None ->
     current_angles (eyes b') !! k
     = Some (centre_angle (config (eyes b)) k)).
Proof.
  intros Hk. cbv zeta. unfold blink_eyes. rewrite Hk. cbn [negb]. split.
  - intros -> Hno. unfold should_blink. cbn [orb].
    destruct Hno as [H | H].
    + apply Qltb_ge in H. now rewrite H.
    + apply Qltb_ge in H. rewrite H. now rewrite andb_false_r.
  - intros ->. cbn [negb last_blink_time eyes]. split; [reflexivity |].
    intros bl k ch -> Hin Hc Hh. unfold blink_writes.
    pose proof (walk_config hw (fun na : string * Q => fst na)
                  (fun _ na => snd na) lids (eyes b)) as [Hcfg Hkit].
    change (fold_left _ lids (eyes b))
      with (walk hw (fun na : string * Q => fst na)
                 (fun _ na => snd na) lids (eyes b)).
    set (closed := walk hw _ _ lids (eyes b)) in *.
    rewrite <- Hcfg in *.
    apply (walk_lookup hw (fun na : string * Q => fst na)
             (fun cfg na => get_default_angle cfg (fst na))
             lids closed k ch); try assumption.
    + now rewrite Hkit.
    + intros x _ Hx. cbn in Hx. subst k. reflexivity.
    + left. apply in_map_iff in Hin as (x & Hx & Hin). eauto.
Qed.

Lemma blink_eyes_timing_witness :
  let b := new_blinker InMoovHeadConfig in
  let b' := blink_eyes bus_ok InMoov_lids b true 3 (1 # 2) in
  (true = false ->
   3 - last_blink_time b <= blink_interval b \/
   blink_probability b <= 1 # 2 ->
   b' = b) /\
  (should_blink b true 3 (1 # 2) = true ->
   last_blink_time b' = 3 /\
   forall bl k ch,
     blink_angles InMoovHeadConfig = Some bl ->
     In k (map fst InMoov_lids) ->
     get_channel InMoovHeadConfig k = Some ch ->
     bus_ok ch (centre_angle InMoovHeadConfig k) = None ->
     current_angles (eyes b') !! k
     = Some (centre_angle InMoovHeadConfig k)).
Proof.
  apply (blink_eyes_timing bus_ok InMoov_lids
           (new_blinker InMoovHeadConfig) true 3 (1 # 2)).
  reflexivity.
Defined.

Example blink_not_due :
  blink_eyes bus_ok InMoov_lids (new_blinker InMoovHeadConfig)
             false 4 0
  = new_blinker InMoovHeadConfig.
Proof. reflexivity. Qed.

(** *** Tracking on rigs with shared axes *)

Lemma axis_entry_absent cfg servo_name angle :
  channels cfg !! servo_name = None ->
  axis_entry cfg servo_name angle = Some [].
Proof. intros H. unfold axis_entry. now rewrite H. Qed.

(** Without any of the six axis names in the rig there is nothing to
    compute, to write or to report. *)
Lemma track_position_no_axis hw e face_x face_y frame_width frame_height :
  Forall (fun k => channels (config e) !! k = None) tracked_axes ->
  track_position hw e face_x face_y frame_width frame_height = e.
Proof.
  intros H. unfold tracked_axes in H.
  repeat match goal with
         | H : Forall _ (_ :: _) |- _ => apply Forall_cons in H as [? H]
         end.
  unfold track_position. destruct (has_servo_kit e); [| reflexivity].
  cbn [negb]. unfold compute_angles.
  rewrite !axis_entry_absent by assumption.
  cbn [mbind option_bind app write_batch].
  now destruct (has_position_callback e).
Qed.

(** X21.  On the Original and the Simple rig, whose shared axes are called
    [eyes_x] and [eyes_y], [track_position] finds none of the axis names it
    looks for: wherever the face is and whatever the bus does, it writes
    nothing, records no angle and reports no position. *)
Theorem track_position_shared_rigs
        hw e face_x face_y frame_width frame_height :
  config e = OriginalConfig \/ config e = SimpleConfig ->
  track_position hw e face_x face_y frame_width frame_height = e.
Proof.
  intros H. apply track_position_no_axis. unfold tracked_axes.
  destruct H as [-> | ->]; repeat constructor.
Qed.

Lemma track_position_shared_rigs_witness :
  track_position bus_ok (new OriginalConfig) 320 240 640 480
  = new OriginalConfig.
Proof.
  apply (track_position_shared_rigs bus_ok (new OriginalConfig)).
  left. reflexivity.
Defined.

Example track_position_simple_rig :
  servo_writes (track_position bus_ok (new SimpleConfig) 0 0 640 480) = [] /\
  servo_writes (track_position bus_ok (new InMoovHeadConfig) 0 0 640 480)
  <> [].
Proof. split; [reflexivity | vm_compute; discriminate]. Qed.

End EyeServosProps.



(** ** voice_assistant_server.py: settings, jaw requests, watchdog *)

Module ServerLoopsProps.

Import Server ServerLoops ServerProps.
Local Open Scope Q_scope.

(** *** Settings *)

(** X15.  [load_settings] never loses a default: every key of the defaults
    is set in the result, with the value from the file when the file has
    the key; without a readable file the result is the defaults.  So with
    settings loaded over [DEFAULT_SETTINGS] the two jaw angles are always
    there, and a jaw request cannot fail on a missing key. *)
Theorem load_settings_complete {V} (defaults : gmap string V) file k :
  (is_Some (defaults !! k) -> is_Some (load_settings defaults file !! k)) /\
  (forall loaded v,
     file = Some (Some loaded) -> loaded !! k = Some v ->
     load_settings defaults file !! k = Some v) /\
  (forall loaded,
     file = Some (Some loaded) -> loaded !! k = None ->
     load_settings defaults file !! k = defaults !! k) /\
  ((file = None \/ file = Some None) -> load_settings defaults file = defaults) /\
  (forall (numeric : option (option (gmap string Q))) st p,
     settings st = load_settings DEFAULT_SETTINGS numeric ->
     is_Some (target_angle st p) /\ is_Some (angle_change st p)).
Proof.
  repeat match goal with |- _ /\ _ => split end.
  - intros [v Hv]. destruct file as [[loaded |] |]; cbn; eauto.
    destruct (loaded !! k) as [w |] eqn:E.
    + exists w. now apply lookup_union_Some_l.
    + exists v. rewrite lookup_union_r; assumption.
  - intros loaded v -> Hv. cbn. now apply lookup_union_Some_l.
  - intros loaded -> Hn. cbn. now apply lookup_union_r.
  - intros [-> | ->]; reflexivity.
  - intros numeric st p Hs.
    assert (forall key, is_Some (DEFAULT_SETTINGS !! key) ->
                        is_Some (settings st !! key)) as H.
    { intros key [v Hv]. rewrite Hs.
      destruct numeric as [[loaded |] |]; cbn; eauto.
      destruct (loaded !! key) as [w |] eqn:E.
      - exists w. now apply lookup_union_Some_l.
      - exists v. rewrite lookup_union_r; assumption. }
    destruct (H "jaw_close_angle") as [c Hc];
      [eexists; vm_compute; reflexivity |].
    destruct (H "jaw_open_angle") as [o Ho];
      [eexists; vm_compute; reflexivity |].
    unfold target_angle, angle_change. rewrite Hc, Ho. cbn. eauto.
Qed.

Lemma load_settings_complete_witness :
  is_Some (load_settings DEFAULT_SETTINGS
             (Some (Some {["jaw_open_angle" := 120]})) !! "jaw_close_angle").
Proof.
  destruct (load_settings_complete DEFAULT_SETTINGS
              (Some (Some {["jaw_open_angle" := 120]})) "jaw_close_angle")
    as (H & _).
  apply H. eexists. vm_compute. reflexivity.
Defined.

Example loaded_value_wins :
  load_settings DEFAULT_SETTINGS (Some (Some {["jaw_open_angle" := 120]}))
    !! "jaw_open_angle" = Some 120.
Proof. vm_compute. reflexivity. Qed.

(** *** Jaw requests *)

Lemma clamp_angle_bounds a : 0 <= clamp_angle a <= 180.
Proof. apply (clamp_bounds 0 180). lra. Qed.

(** What one jaw request can do to the state. *)
Lemma control_jaw_cases hw st p :
  let st' := control_jaw_servo_direct hw st p in
  settings st' = settings st /\
  (st' = st \/
   (SERVO_AVAILABLE st = true /\ SERVO_AVAILABLE st' = false /\
    jaw_position st' = jaw_position st /\
    servo_writes st' = servo_writes st) \/
   (exists a,
      target_angle st p = Some a /\
      SERVO_AVAILABLE st = true /\ SERVO_AVAILABLE st' = true /\
      jaw_position st' = p /\
      servo_writes st' = servo_writes st ++ [(JAW_CHANNEL, clamp_angle a)])).
Proof.
  cbv zeta. unfold control_jaw_servo_direct, target_angle.
  destruct (SERVO_AVAILABLE st) eqn:Ha; cbn [negb]; [| auto].
  assert (forall msg,
             settings (handle_error st msg) = settings st /\
             (handle_error st msg = st \/
              (true = true /\ SERVO_AVAILABLE (handle_error st msg) = false /\
               jaw_position (handle_error st msg) = jaw_position st /\
               servo_writes (handle_error st msg) = servo_writes st)))
    as Herr.
  { intros msg. unfold handle_error. destruct (is_disconnection msg); cbn; auto.
    split; [reflexivity |]. right. auto. }
  destruct (settings st !! "jaw_close_angle") as [c |];
    [| destruct (Herr "'jaw_close_angle'") as [? [? | ?]]; auto].
  destruct (settings st !! "jaw_open_angle") as [o |];
    [| destruct (Herr "'jaw_open_angle'") as [? [? | ?]]; auto].
  destruct (Qltb _ _); [| auto].
  destruct (hw JAW_CHANNEL _) as [msg |].
  - destruct (Herr msg) as [? [? | ?]]; auto.
  - cbn. split; [reflexivity |]. right. right. eexists. repeat split.
Qed.

(** X16.  Whatever is requested and whatever the bus does, jaw requests
    only ever append writes on the jaw channel with an angle in [0, 180];
    they never change the settings, never make an unavailable servo
    available again, and the tracked position is at every moment the
    initial one or one of the openings requested. *)
Theorem jaw_requests_invariants requests : forall st,
  jaw_log_ok (servo_writes st) ->
  let st' := run st requests in
  jaw_log_ok (servo_writes st') /\
  (exists added, servo_writes st' = servo_writes st ++ added) /\
  settings st' = settings st /\
  (SERVO_AVAILABLE st' = true -> SERVO_AVAILABLE st = true) /\
  (jaw_position st' = jaw_position st \/
   In (jaw_position st') (map snd requests)).
Proof.
  induction requests as [| [hw p] rest IH]; intros st Hlog; cbv zeta.
  - cbn. repeat split; auto. exists []. now rewrite app_nil_r.
  - cbn [run map snd].
    destruct (control_jaw_cases hw st p) as (Hs & Hcase).
    set (st1 := control_jaw_servo_direct hw st p) in *.
    assert (jaw_log_ok (servo_writes st1)) as Hlog1.
    { destruct Hcase as [-> | [(_ & _ & _ & ->) | (a & _ & _ & _ & _ & ->)]];
        try exact Hlog.
      apply Forall_app. split; [exact Hlog |].
      constructor; [| constructor]. split; [reflexivity |].
      apply clamp_angle_bounds. }
    destruct (IH st1 Hlog1) as (H1 & (added & H2) & H3 & H4 & H5).
    split; [exact H1 |]. split; [| split; [| split]].
    + destruct Hcase as [E | [(_ & _ & _ & E) | (a & _ & _ & _ & _ & E)]].
      * exists added. now rewrite H2, E.
      * exists added. now rewrite H2, E.
      * eexists. rewrite H2, E, <- app_assoc. reflexivity.
    + now rewrite H3.
    + intros H. specialize (H4 H).
      destruct Hcase as [E | [(_ & E & _) | (a & _ & E & _)]];
        [now rewrite <- E | congruence | exact E].
    + destruct H5 as [H5 | H5]; [| right; now right].
      rewrite H5.
      destruct Hcase as [E | [(_ & _ & E & _) | (a & _ & _ & _ & E & _)]].
      * left. now rewrite E.
      * left. exact E.
      * right. left. now rewrite E.
Qed.

Lemma jaw_requests_invariants_witness :
  let st' := run startup [(bus_ok, 50); (bus_glitch, 90);
                          (bus_unplugged, 10); (bus_ok, 70)] in
  jaw_log_ok (servo_writes st') /\
  (exists added, servo_writes st' = servo_writes startup ++ added) /\
  settings st' = settings startup /\
  (SERVO_AVAILABLE st' = true -> SERVO_AVAILABLE startup = true) /\
  (jaw_position st' = jaw_position startup \/
   In (jaw_position st') (map snd [(bus_ok, 50); (bus_glitch, 90);
                                   (bus_unplugged, 10); (bus_ok, 70)])).
Proof.
  apply (jaw_requests_invariants
           [(bus_ok, 50); (bus_glitch, 90); (bus_unplugged, 10);
            (bus_ok, 70)] startup).
  constructor.
Defined.

(** X17.  If one of the two jaw angles is missing from the settings, a jaw
    request is a no-op: the [KeyError] is caught, nothing is written, and,
    as its text is no disconnection message, the servo stays available. *)
Theorem missing_angle_setting hw st p :
  settings st !! "jaw_close_angle" = None \/
  settings st !! "jaw_open_angle" = None ->
  control_jaw_servo_direct hw st p = st.
Proof.
  intros H. unfold control_jaw_servo_direct.
  destruct (SERVO_AVAILABLE st); cbn [negb]; [| reflexivity].
  destruct (settings st !! "jaw_close_angle") as [c |]; [| reflexivity].
  destruct H as [H | ->]; [discriminate | reflexivity].
Qed.

Lemma missing_angle_setting_witness :
  control_jaw_servo_direct bus_ok
    {| SERVO_AVAILABLE := true; settings := {["jaw_close_angle" := 0]};
       jaw_position := 0; servo_writes := [] |} 50
  = {| SERVO_AVAILABLE := true; settings := {["jaw_close_angle" := 0]};
       jaw_position := 0; servo_writes := [] |}.
Proof.
  apply (missing_angle_setting bus_ok
           {| SERVO_AVAILABLE := true; settings := {["jaw_close_angle" := 0]};
              jaw_position := 0; servo_writes := [] |} 50).
  right. vm_compute. reflexivity.
Defined.

(** *** The smooth close and the watchdog *)





Lemma jaw_writes_position hw angles : forall st,
  jaw_position (fst (jaw_writes hw st angles)) = jaw_position st.
Proof.
  induction angles as [| a rest IH]; intros st; cbn [jaw_writes];
    [reflexivity |].
  unfold jaw_write. destruct (hw JAW_CHANNEL (clamp_angle a));
    [reflexivity |].
  now rewrite IH.
Qed.

Lemma close_jaw_done hw st :
  snd (close_jaw hw st) = None -> jaw_position (fst (close_jaw hw st)) = 0.
Proof.
  unfold close_jaw. destruct (SERVO_AVAILABLE st); [| reflexivity].
  destruct (settings st !! "jaw_close_angle") as [c |]; [| discriminate].
  destruct (settings st !! "jaw_open_angle") as [o |]; [| discriminate].
  destruct (jaw_writes hw st _) as [st' [msg |]]; [discriminate | reflexivity].
Qed.

Lemma watchdog_idle hw s now :
  is_speaking s = false \/ now - last_audio_time s <= 5 # 10 ->
  monitor_speech_end hw s now = (s, None).
Proof.
  unfold monitor_speech_end. intros [-> | H]; [reflexivity |].
  apply Qltb_ge in H. rewrite H. now rewrite andb_false_r.
Qed.

Lemma watchdog_fires hw s now :
  is_speaking s = true -> 5 # 10 < now - last_audio_time s ->
  monitor_speech_end hw s now =
  ({| mouth := AudioMouth.init; server := fst (close_jaw hw (server s));
      is_speaking := false; last_audio_time := last_audio_time s;
      callback_count := 0;
      current_speech_text := current_speech_text s;
      shown := (AudioMouth.CLOSED, "") |}, snd (close_jaw hw (server s))).
Proof.
  unfold monitor_speech_end. intros -> H. apply Qltb_lt in H. rewrite H.
  cbn [andb]. now destruct (close_jaw hw (server s)).
Qed.

(** X19.  The speech-end watchdog acts only while the session is marked as
    speaking and more than half a second has passed since the last audio
    chunk.  When it acts it marks the session as not speaking, resets the
    mouth controller and shows the closed mouth, whether or not closing the
    jaw raises; if nothing raises the tracked jaw position is 0.  Having
    acted, it stays idle at every later round until audio arrives again. *)
Theorem watchdog_round hw s now :
  let r := monitor_speech_end hw s now in
  (is_speaking s = false \/ now - last_audio_time s <= 5 # 10 ->
   r = (s, None)) /\
  (is_speaking s = true -> 5 # 10 < now - last_audio_time s ->
   is_speaking (fst r) = false /\
   mouth (fst r) = AudioMouth.init /\
   shown (fst r) = (AudioMouth.CLOSED, "") /\
   callback_count (fst r) = 0%Z /\
   (snd r = None -> jaw_position (server (fst r)) = 0) /\
   (forall hw' later, monitor_speech_end hw' (fst r) later = (fst r, None))).
Proof.
  cbv zeta. split; [apply watchdog_idle |].
  intros Hs Ht. rewrite (watchdog_fires hw s now Hs Ht). cbn [fst snd].
  repeat match goal with |- _ /\ _ => split end; try reflexivity.
  apply close_jaw_done.
Qed.

Lemma watchdog_round_witness :
  let s := {| mouth := AudioMouth.open_state; server := startup;
              is_speaking := true; last_audio_time := 10;
              callback_count := 7; current_speech_text := "hello";
              shown := (AudioMouth.MEDIUM, "hello") |} in
  let r := monitor_speech_end bus_ok s 11 in
  is_speaking (fst r) = false /\
  mouth (fst r) = AudioMouth.init /\
  shown (fst r) = (AudioMouth.CLOSED, "") /\
  callback_count (fst r) = 0%Z /\
  (snd r = None -> jaw_position (server (fst r)) = 0) /\
  (forall hw' later, monitor_speech_end hw' (fst r) later = (fst r, None)).
Proof.
  apply (proj2 (watchdog_round bus_ok
                  {| mouth := AudioMouth.open_state; server := startup;
                     is_speaking := true; last_audio_time := 10;
                     callback_count := 7; current_speech_text := "hello";
                     shown := (AudioMouth.MEDIUM, "hello") |} 11));
    reflexivity.
Defined.

(** *** The audio callback *)


Section AudioLoop.

Variable np_sqrt : Q -> Q.
Variable pow08 : Q -> Q.
Variable cfg : AudioMouth.config.
Variables close_angle open_angle : Q.

Hypothesis pow08_unit : forall x, 0 <= x <= 1 -> 0 <= pow08 x <= 1.
Hypothesis close_speed_nonneg : 0 <= AudioMouth.close_speed cfg.
Hypothesis close_angle_legal : 0 <= close_angle <= 180.
Hypothesis open_angle_legal : 0 <= open_angle <= 180.



End AudioLoop.



End ServerLoopsProps.


(** ** voice_assistant_server.py: the eye test commands *)

Module EyeCommandsProps.

Import Server ServerLoops EyeCommands ServerProps.
Local Open Scope Q_scope.

Lemma eye_channel_spec channel :
  eye_channel channel = true ->
  (0 <= channel <= 7)%Z /\ channel <> JAW_CHANNEL.
Proof.
  unfold eye_channel, JAW_CHANNEL. intros H.
  apply andb_true_iff in H as [H1 H2].
  apply Z.leb_le in H1. apply Z.leb_le in H2. lia.
Qed.

Lemma clamp_angle_range a : 0 <= clamp_angle a <= 180.
Proof. apply (clamp_bounds 0 180). lra. Qed.

(** A run of writes appends a prefix of what it was given, the whole of it
    when the bus accepts every angle, and touches nothing else. *)
Lemma write_angles_log hw channel angles : forall st,
  let st' := fst (write_angles hw st channel angles) in
  SERVO_AVAILABLE st' = SERVO_AVAILABLE st /\
  settings st' = settings st /\
  jaw_position st' = jaw_position st /\
  exists k,
    servo_writes st' = servo_writes st ++ map (pair channel) (take k angles) /\
    ((forall a, hw channel a = None) -> k = length angles).
Proof.
  induction angles as [| a rest IH]; intros st; cbn [write_angles].
  - cbn [fst]. repeat match goal with |- _ /\ _ => split end; try reflexivity.
    exists 0%nat. split; [now rewrite app_nil_r | reflexivity].
  - unfold servo_write. destruct (hw channel a) as [msg |] eqn:E.
    + cbn [fst].
      repeat match goal with |- _ /\ _ => split end; try reflexivity.
      exists 0%nat. split; [now rewrite app_nil_r |].
      intros Hok. rewrite Hok in E. discriminate.
    + match goal with
      | |- context [write_angles hw ?s channel rest] =>
          destruct (IH s) as (Ha & Hs & Hj & k & Hw & Hk)
      end.
      cbv zeta. rewrite Ha, Hs, Hj. cbn [SERVO_AVAILABLE settings jaw_position].
      repeat match goal with |- _ /\ _ => split end; try reflexivity.
      exists (S k). split.
      * rewrite Hw. cbn [servo_writes take map]. now rewrite <- app_assoc.
      * intros Hok. cbn [length]. now rewrite (Hk Hok).
Qed.



Lemma sweep_plan_range min_angle max_angle center_angle :
  Forall (fun a => 0 <= a <= 180)
         (sweep_plan min_angle max_angle center_angle).
Proof.
  unfold sweep_plan. constructor; [apply clamp_angle_range |].
  apply Forall_app. split.
  - unfold sweep_steps. apply Forall_fmap. apply Forall_forall.
    intros i _. apply clamp_angle_range.
  - constructor; [apply clamp_angle_range | constructor].
Qed.

Lemma eye_only_refl channel st : eye_only channel st st.
Proof.
  unfold eye_only. repeat match goal with |- _ /\ _ => split end;
    try reflexivity.
  exists []. split; [now rewrite app_nil_r |]. split; [constructor |].
  intros H. now contradiction H.
Qed.

Lemma write_angles_eye_only hw st channel angles :
  eye_channel channel = true ->
  Forall (fun a => 0 <= a <= 180) angles ->
  eye_only channel st (fst (write_angles hw st channel angles)).
Proof.
  intros Hc Hr.
  destruct (write_angles_log hw channel angles st)
    as (Ha & Hs & Hj & k & Hw & _).
  unfold eye_only. repeat match goal with |- _ /\ _ => split end;
    try assumption.
  exists (take k angles). split; [exact Hw |]. split.
  - now apply Forall_take.
  - intros _. now apply eye_channel_spec.
Qed.

(** X22.  The eye test commands cannot move the jaw.  [test_eye_servo] and
    [sweep_eye_servo] only append writes to the channel they were given,
    and only if it is one of the channels 0 to 7; every angle they send
    lies in [0, 180]; whatever the bus answers, they leave the servo flag,
    the settings and the tracked jaw position as they were. *)
Theorem eye_commands_safe hw st channel angle
        min_angle max_angle center_angle :
  eye_only channel st (test_eye_servo hw st channel angle) /\
  eye_only channel st
           (sweep_eye_servo hw st channel min_angle max_angle center_angle).
Proof.
  unfold test_eye_servo, sweep_eye_servo.
  destruct (SERVO_AVAILABLE st && eye_channel channel) eqn:E;
    [| split; apply eye_only_refl].
  apply andb_true_iff in E as [_ Hc]. split.
  - pose proof (write_angles_eye_only hw st channel [clamp_angle angle] Hc)
      as H.
    cbn [write_angles] in H.
    destruct (servo_write hw st channel (clamp_angle angle))
      as [st' [msg |]]; apply H;
      (constructor; [apply clamp_angle_range | constructor]).
  - apply write_angles_eye_only; [exact Hc | apply sweep_plan_range].
Qed.



Example sweep_jaw_channel_refused :
  sweep_eye_servo bus_ok startup JAW_CHANNEL 0 180 90 = startup /\
  test_eye_servo bus_ok startup JAW_CHANNEL 90 = startup.
Proof. split; reflexivity. Qed.

End EyeCommandsProps.


(** ** voice_assistant_server.py and mouth_visualizer.py: the eyes of the
       web page *)

Module FaceLoopProps.

Import ServoConfig EyeController EyeServos FaceLoop.
Local Open Scope Q_scope.

Lemma copy_angle_absent eye_angles src dsts data :
  eye_angles !! src = None -> copy_angle eye_angles src dsts data = data.
Proof. intros H. unfold copy_angle. now rewrite H. Qed.

(** Without any of the six names in the payload no event is emitted. *)
Lemma update_eyes_none eye_angles :
  Forall (fun k => eye_angles !! k = None) tracked_axes ->
  update_eyes eye_angles = None.
Proof.
  intros H. unfold tracked_axes in H.
  repeat match goal with
         | H : Forall _ (_ :: _) |- _ => apply Forall_cons in H as [? H]
         end.
  unfold update_eyes. rewrite !copy_angle_absent by assumption.
  reflexivity.
Qed.

(** The payload of a face that was found: both eyes get the same two
    angles. *)
Lemma update_eyes_both ax ay :
  update_eyes (list_to_map [("left_eye_x", ax); ("left_eye_y", ay);
                            ("right_eye_x", ax); ("right_eye_y", ay)])
  = Some (list_to_map [("left_x", ax); ("left_y", ay);
                       ("right_x", ax); ("right_y", ay)]).
Proof. vm_compute. reflexivity. Qed.

Lemma page_payload_lookup ax ay :
  let data : gmap string Q :=
    list_to_map [("left_x", ax); ("left_y", ay);
                 ("right_x", ax); ("right_y", ay)] in
  data !! "left_x" = Some ax /\ data !! "right_x" = Some ax /\
  data !! "left_y" = Some ay /\ data !! "right_y" = Some ay.
Proof. vm_compute. auto. Qed.

(** X24.  The eyes drawn on the page follow a face inside the frame within
    60 and 120 degrees: both eyes get the same angles, the horizontal one
    mirrored, running from 120 at the left edge to 60 at the right, the
    vertical one from 60 at the top to 120 at the bottom.  A frame of zero
    width or height emits nothing. *)
Theorem virtual_eyes_in_range face_x face_y frame_width frame_height :
  (frame_width = 0%Z \/ frame_height = 0%Z ->
   virtual_eyes face_x face_y frame_width frame_height = None) /\
  ((0 < frame_width)%Z -> (0 < frame_height)%Z ->
   (0 <= face_x <= frame_width)%Z -> (0 <= face_y <= frame_height)%Z ->
   exists data ax ay,
     virtual_eyes face_x face_y frame_width frame_height = Some data /\
     data !! "left_x" = Some ax /\ data !! "right_x" = Some ax /\
     data !! "left_y" = Some ay /\ data !! "right_y" = Some ay /\
     ax == 120 - 60 * (inject_Z face_x / inject_Z frame_width) /\
     ay == 60 + 60 * (inject_Z face_y / inject_Z frame_height) /\
     60 <= ax <= 120 /\ 60 <= ay <= 120).
Proof.
  split.
  - intros [-> | ->]; unfold virtual_eyes, map_value; cbn [inject_Z].
    + reflexivity.
    + destruct (Qeq_bool (inject_Z frame_width - 0) 0); reflexivity.
  - intros Hw Hh Hx Hy. unfold virtual_eyes.
    rewrite !EyeControllerProps.map_value_some
      by (apply EyeControllerProps.inject_Z_nonzero; lia).
    cbn [mbind option_bind]. rewrite update_eyes_both.
    pose proof (EyeControllerProps.inject_Z_ratio_unit
                  face_x frame_width Hx Hw) as Hu.
    pose proof (EyeControllerProps.inject_Z_ratio_unit
                  face_y frame_height Hy Hh) as Hv.
    assert (~ inject_Z frame_width == 0) as Hw0.
    { intros E. apply EyeControllerProps.inject_Z_eq0 in E. lia. }
    assert (~ inject_Z frame_height == 0) as Hh0.
    { intros E. apply EyeControllerProps.inject_Z_eq0 in E. lia. }
    assert ((inject_Z face_x - 0) * (60 - 120) / (inject_Z frame_width - 0)
            + 120 == 120 - 60 * (inject_Z face_x / inject_Z frame_width))
      as Ex by (field; exact Hw0).
    assert ((inject_Z face_y - 0) * (120 - 60) / (inject_Z frame_height - 0)
            + 60 == 60 + 60 * (inject_Z face_y / inject_Z frame_height))
      as Ey by (field; exact Hh0).
    destruct (page_payload_lookup
                ((inject_Z face_x - 0) * (60 - 120)
                 / (inject_Z frame_width - 0) + 120)
                ((inject_Z face_y - 0) * (120 - 60)
                 / (inject_Z frame_height - 0) + 60))
      as (L1 & L2 & L3 & L4).
    eexists. eexists. eexists. split; [reflexivity |].
    split; [exact L1 |]. split; [exact L2 |].
    split; [exact L3 |]. split; [exact L4 |].
    split; [exact Ex |]. split; [exact Ey |].
    rewrite Ex, Ey. split; lra.
Qed.

Lemma virtual_eyes_in_range_witness :
  exists data ax ay,
    virtual_eyes 160 360 640 480 = Some data /\
    data !! "left_x" = Some ax /\ data !! "right_x" = Some ax /\
    data !! "left_y" = Some ay /\ data !! "right_y" = Some ay /\
    ax == 120 - 60 * (inject_Z 160 / inject_Z 640) /\
    ay == 60 + 60 * (inject_Z 360 / inject_Z 480) /\
    60 <= ax <= 120 /\ 60 <= ay <= 120.
Proof.
  apply (proj2 (virtual_eyes_in_range 160 360 640 480)); lia.
Defined.

(** *** What reaches the page from the controller *)

Lemma set_servo_angle_updates hw e n a :
  let e' := set_servo_angle hw e n a in
  position_updates e' = position_updates e \/
  position_updates e'
  = position_updates e ++ [map_to_list (current_angles e')].
Proof.
  cbv zeta. unfold set_servo_angle.
  destruct (has_servo_kit e); cbn [negb]; [| now left].
  destruct (get_channel (config e) n) as [ch |]; [| now left].
  destruct (get_angle_range (config e) n) as [lo hi].
  destruct (hw ch (clamp lo hi a)); [now left |].
  destruct (has_position_callback _) eqn:E; [right | left]; reflexivity.
Qed.

Lemma set_servo_angle_silent hw e n a :
  no_tracked_axis (config e) -> page_silent e ->
  page_silent (set_servo_angle hw e n a).
Proof.
  intros Hc [Ha Hu].
  assert (Forall (fun k => current_angles (set_servo_angle hw e n a) !! k
                           = None) tracked_axes) as Ha'.
  { destruct (EyeServosProps.set_servo_angle_cases hw e n a)
      as (_ & _ & [[_ ->] | (ch & Hch & _ & _ & ->)]); [exact Ha |].
    apply Forall_forall. intros k Hk.
    unfold no_tracked_axis in Hc. rewrite Forall_forall in Ha, Hc.
    rewrite lookup_insert_ne; [now apply Ha |].
    intros <-. unfold get_channel in Hch. rewrite (Hc n Hk) in Hch.
    discriminate. }
  split; [exact Ha' |].
  destruct (set_servo_angle_updates hw e n a) as [-> | ->]; [exact Hu |].
  apply Forall_app. split; [exact Hu |]. constructor; [| constructor].
  rewrite list_to_map_to_list. now apply update_eyes_none.
Qed.

Lemma set_servo_angle_config hw e n a :
  config (set_servo_angle hw e n a) = config e.
Proof. now destruct (EyeServosProps.set_servo_angle_cases hw e n a). Qed.

Lemma fold_set_servo_angle_silent {A} hw (key : A -> string)
      (angle : t -> A -> Q) (l : list A) : forall e,
  no_tracked_axis (config e) -> page_silent e ->
  let e' := fold_left (fun e x => set_servo_angle hw e (key x) (angle e x))
                      l e in
  config e' = config e /\ page_silent e'.
Proof.
  induction l as [| x rest IH]; intros e Hc Hs; cbn [fold_left];
    [split; [reflexivity | exact Hs] |].
  destruct (IH (set_servo_angle hw e (key x) (angle e x))) as [E Hs'].
  - now rewrite set_servo_angle_config.
  - now apply set_servo_angle_silent.
  - cbv zeta in *. split; [| exact Hs'].
    now rewrite E, set_servo_angle_config.
Qed.

Lemma shared_rigs_no_axis cfg :
  cfg = OriginalConfig \/ cfg = SimpleConfig -> no_tracked_axis cfg.
Proof.
  intros [-> | ->]; unfold no_tracked_axis, tracked_axes; repeat constructor.
Qed.

(** X25.  On the Original and the Simple rig the page never learns where
    the physical eyes are.  Their shared axes are called [eyes_x] and
    [eyes_y], while [update_eyes] reads [eye_x] and [eye_y]: as long as the
    controller has recorded none of the names [update_eyes] reads, setting
    a servo, centring, blinking and tracking leave it that way, and every
    payload they hand to [update_eyes] is dropped without an event. *)
Theorem page_blind_on_shared_rigs hw e n a keys lids
        face_x face_y frame_width frame_height :
  config e = OriginalConfig \/ config e = SimpleConfig ->
  page_silent e ->
  page_silent (set_servo_angle hw e n a) /\
  page_silent (center_eyes hw keys e) /\
  page_silent (blink_writes hw lids e) /\
  page_silent (track_position hw e face_x face_y frame_width frame_height).
Proof.
  intros Hrig Hs. pose proof (shared_rigs_no_axis _ Hrig) as Hc.
  repeat match goal with |- _ /\ _ => split end.
  - now apply set_servo_angle_silent.
  - unfold center_eyes. destruct (has_servo_kit e); cbn [negb]; [| exact Hs].
    apply (fold_set_servo_angle_silent hw (fun k => k)
             (fun e k => get_default_angle (config e) k) keys e Hc Hs).
  - unfold blink_writes.
    destruct (fold_set_servo_angle_silent hw fst (fun _ na => snd na)
                lids e Hc Hs) as [E Hs1].
    cbv zeta in E, Hs1.
    apply (fold_set_servo_angle_silent hw fst
             (fun e na => get_default_angle (config e) (fst na)) lids).
    + now rewrite E.
    + exact Hs1.
  - rewrite EyeServosProps.track_position_no_axis; [exact Hs | exact Hc].
Qed.

Lemma page_blind_on_shared_rigs_witness :
  page_silent (set_servo_angle bus_ok (new OriginalConfig) "eyes_x" 100) /\
  page_silent (center_eyes bus_ok ["eyes_x"; "eyes_y"]
                           (new OriginalConfig)) /\
  page_silent (blink_writes bus_ok InMoov_lids (new OriginalConfig)) /\
  page_silent (track_position bus_ok (new OriginalConfig) 320 240 640 480).
Proof.
  apply (page_blind_on_shared_rigs bus_ok (new OriginalConfig)).
  - left. reflexivity.
  - split; [repeat constructor | constructor].
Defined.

Example inmoov_reaches_page :
  exists data,
    last_update (track_position bus_ok (new InMoovHeadConfig)
                                320 240 640 480) = Some data /\
    is_Some (data !! "left_x").
Proof. eexists. split; vm_compute; eauto. Qed.

End FaceLoopProps.


(** ** mouth_visualizer.py: [animate_text] *)

Module MouthVisualizerProps.

Import MouthVisualizer.
Local Open Scope Q_scope.

Lemma shown_visemes_app l l' :
  shown_visemes (l ++ l') = shown_visemes l ++ shown_visemes l'.
Proof. unfold shown_visemes. apply omap_app. Qed.

Lemma total_sleep_app l l' :
  total_sleep (l ++ l') == total_sleep l + total_sleep l'.
Proof.
  induction l as [| [v t | s] rest IH]; cbn [app total_sleep fold_right].
  - change (total_sleep l' == 0 + total_sleep l'). lra.
  - exact IH.
  - fold (total_sleep (rest ++ l')). fold (total_sleep rest).
    rewrite IH. lra.
Qed.

(** With a sleep length that is not negative the loop shows every viseme
    and sleeps after each. *)
Lemma show_phonemes_all text time_per_phoneme pairs :
  0 <= time_per_phoneme ->
  exists events,
    show_phonemes text time_per_phoneme pairs = (events, None) /\
    shown_visemes events = map snd pairs /\
    total_sleep events
    == inject_Z (Z.of_nat (length pairs)) * time_per_phoneme.
Proof.
  intros Ht. apply Qltb_ge in Ht.
  induction pairs as [| [phoneme viseme] rest (events & E & Hv & Hs)].
  - exists []. split; [reflexivity |]. split; [reflexivity |].
    change (0 == 0 * time_per_phoneme). lra.
  - cbn [show_phonemes]. rewrite Ht, E. eexists. split; [reflexivity |].
    split.
    + change (viseme :: shown_visemes events = viseme :: map snd rest).
      now rewrite Hv.
    + unfold total_sleep in *. cbn [fold_right length]. rewrite Hs.
      rewrite Nat2Z.inj_succ, <- Z.add_1_r, inject_Z_plus.
      change (inject_Z 1) with 1. lra.
Qed.

(** X26.  An animation with at least one phoneme and a duration that is
    not negative shows the visemes of the pairs in their order and then
    the closed mouth, and sleeps for the duration it was given plus the
    final tenth of a second; without a duration that is a twelfth of a
    second per phoneme.  With a negative duration it shows the first
    viseme, and the first sleep raises: the mouth is not closed. *)
Theorem animate_text_timing text phoneme_viseme_pairs duration :
  phoneme_viseme_pairs <> [] ->
  let r := animate_text text phoneme_viseme_pairs duration in
  (0 <= planned_duration phoneme_viseme_pairs duration ->
   snd r = None /\
   shown_visemes (fst r) = map snd phoneme_viseme_pairs ++ ["CLOSED"] /\
   last (fst r) = Some (Sleep (1 # 10)) /\
   total_sleep (fst r)
   == planned_duration phoneme_viseme_pairs duration + (1 # 10)) /\
  (planned_duration phoneme_viseme_pairs duration < 0 ->
   snd r = Some "sleep length must be non-negative" /\
   shown_visemes (fst r) = take 1 (map snd phoneme_viseme_pairs) /\
   total_sleep (fst r) == 0).
Proof.
  intros Hne. cbv zeta. unfold animate_text.
  destruct phoneme_viseme_pairs as [| p rest] eqn:E; [contradiction |].
  rewrite <- E. clear Hne.
  assert (0 < inject_Z (Z.of_nat (length phoneme_viseme_pairs))) as Hn.
  { change 0 with (inject_Z 0). rewrite <- Zlt_Qlt. subst. cbn [length]. lia. }
  fold (planned_duration phoneme_viseme_pairs duration).
  set (d := planned_duration phoneme_viseme_pairs duration).
  set (n := inject_Z (Z.of_nat (length phoneme_viseme_pairs))) in *.
  split.
  - intros Hd.
    assert (0 <= d / n) as Ht by (apply Qle_shift_div_l; lra).
    destruct (show_phonemes_all text (d / n) phoneme_viseme_pairs Ht)
      as (events & -> & Hv & Hs).
    cbn [fst snd]. split; [reflexivity |]. split; [| split].
    + rewrite shown_visemes_app, Hv. reflexivity.
    + change [Mouth "CLOSED" ""; Sleep (1 # 10)]
        with ([Mouth "CLOSED" ""] ++ [Sleep (1 # 10)]).
      rewrite app_assoc. apply last_snoc.
    + rewrite total_sleep_app, Hs. fold n.
      unfold total_sleep. cbn [fold_right].
      assert (n * (d / n) == d) as -> by (field; lra).
      lra.
  - intros Hd.
    assert (d / n < 0) as Ht.
    { apply Qlt_shift_div_r; lra. }
    apply Qltb_lt in Ht. destruct p as [phoneme viseme].
    assert (show_phonemes text (d / n) phoneme_viseme_pairs
            = ([Mouth viseme (text ++ " [" ++ phoneme ++ "]")%string],
               Some "sleep length must be non-negative")) as ->.
    { rewrite E. cbn [show_phonemes]. now rewrite Ht. }
    cbn [fst snd]. split; [reflexivity |].
    split; [rewrite E; reflexivity |].
    unfold total_sleep. cbn [fold_right]. lra.
Qed.

Lemma animate_text_timing_witness :
  let pairs := [("HH", "SMALL"); ("AH", "LARGE"); ("OW", "ROUND")] in
  let r := animate_text "hello" pairs None in
  let r' := animate_text "hello" pairs (Some (-1)) in
  (snd r = None /\
   shown_visemes (fst r) = ["SMALL"; "LARGE"; "ROUND"; "CLOSED"] /\
   last (fst r) = Some (Sleep (1 # 10)) /\
   total_sleep (fst r) == (3 # 12) + (1 # 10)) /\
  (snd r' = Some "sleep length must be non-negative" /\
   shown_visemes (fst r') = ["SMALL"] /\
   total_sleep (fst r') == 0).
Proof.
  split.
  - apply (animate_text_timing "hello"
             [("HH", "SMALL"); ("AH", "LARGE"); ("OW", "ROUND")] None);
      [discriminate | vm_compute; discriminate].
  - apply (animate_text_timing "hello"
             [("HH", "SMALL"); ("AH", "LARGE"); ("OW", "ROUND")]
             (Some (-1))); [discriminate | reflexivity].
Defined.

Example animate_text_empty duration :
  animate_text "hello" [] duration = ([], None).
Proof. reflexivity. Qed.

End MouthVisualizerProps.
